(** * codebase-graph-mcp: command broker, graph store, change journal

    A shallow embedding of
    - [command-queue.js]  ([CommandQueue]: the rendezvous queue),
    - [models.js]         (the zod schemas and the [toNode]/[toRelation] maps),
    - [database.js]       ([GraphDatabase]: the store on top of Neo4j),
    - [history.js]        ([ChangeHistory]: journal, snapshots, replay),
    together with the properties of the specification that concern them.

    Conventions.  A JS [Map] is an association list in insertion order.  A
    JS object with an open set of keys is an association list from keys to
    [value]s.  Reads of the wall clock and draws of fresh identifiers come
    from an [Oracle], indexed by the number of reads made so far, so that a
    statement quantified over the oracle covers every run.  Code that can
    throw returns a [result]; the state reached before the throw is kept,
    as in the source, which has no rollback outside the bulk operations. *)

From Stdlib Require Import String Ascii List Bool Arith ZArith QArith Lia.
From Stdlib Require Import Sorting.Sorted Sorting.Permutation DecimalString.
Import ListNotations.
Close Scope Q_scope.
Open Scope string_scope.
Open Scope list_scope.

(** ** JS [Map] as an insertion-ordered association list *)

Module JsMap.
Section Defs.
Context {V : Type}.

Fixpoint get (k : string) (m : list (string * V)) : option V :=
  match m with
  | [] => None
  | (k', v) :: m' => if String.eqb k k' then Some v else get k m'
  end.


(** [Map.prototype.set]: an existing key keeps its position. *)
Fixpoint set (k : string) (v : V) (m : list (string * V)) : list (string * V) :=
  match m with
  | [] => [(k, v)]
  | (k', v') :: m' =>
      if String.eqb k k' then (k', v) :: m' else (k', v') :: set k v m'
  end.

Fixpoint delete (k : string) (m : list (string * V)) : list (string * V) :=
  match m with
  | [] => []
  | (k', v') :: m' =>
      if String.eqb k k' then delete k m' else (k', v') :: delete k m'
  end.

Definition keys (m : list (string * V)) : list string := map fst m.
Definition values (m : list (string * V)) : list V := map snd m.
End Defs.
End JsMap.

(** ** The environment: clock and identifier generators *)

Record Oracle := {
  time_at : nat -> string;   (* n-th value of [new Date().toISOString()] *)
  uuid_at : nat -> string;   (* n-th value of [uuidv4()] / [generateCommandId()] *)
  (* neo4j-driver, not part of the repository: whether [record.get(key)]
     throws when the record has no column [key] (otherwise undefined) *)
  get_absent_throws : bool
}.

Definition string_of_nat (n : nat) : string :=
  NilEmpty.string_of_uint (Nat.to_uint n).

(** JS truthiness of a string. *)
Definition truthy_str (s : string) : bool := negb (String.eqb s "").

(** ** command-queue.js *)

Module Queue.

Record Filters := {
  taskTypes : option (list string);
  componentIds : option (list string);
  priority : option string
}.


(** What [sendCommand] receives. *)
Record CommandInput := {
  in_id : option string;
  in_type : string;
  in_source : option string;
  in_priority : option string;
  in_targetComponentIds : option (list string);
  in_taskType : option string
}.

Record Command := {
  id : string;
  type : string;
  source : option string;
  cpriority : option string;
  targetComponentIds : option (list string);
  taskType : option string;
  timestamp : string;
  status : string
}.

Inductive Outcome :=
| Resolved (c : Command)
| Rejected (message : string).

(** An entry of [waitingAgents]; [promise] names the promise that the stored
    [resolve]/[reject] closures settle, [timeout] the delay of its timer. *)
Record Waiter := {
  promise : nat;
  timeout : nat;
  wfilters : Filters;
  startedAt : string
}.

Inductive HistoryData :=
| DCommand (c : Command)
| DError (message : string)
| DWait (f : Filters) (timeout : nat)
| DSent (c : Command) (deliveredTo : string).

Record HistoryEntry := {
  h_timestamp : string;
  action : string;
  h_agentId : option string;
  data : HistoryData
}.

Inductive Event :=
| EvAgentWaiting (agentId : string) (f : Filters)
| EvCommandQueued (c : Command).

Record CommandQueue := {
  pendingCommands : list (string * Command);
  waitingAgents : list (string * Waiter);
  commandHistory : list HistoryEntry;
  maxHistorySize : nat;
  (* the promises handed out by [waitForCommand], named by their position:
     the agent each was made for, and how the settled ones were settled *)
  waits : list string;
  settled : list (nat * Outcome);
  emitted : list Event;
  reads : nat                      (* reads of the oracle so far *)
}.

(** [new CommandQueue()] *)
Definition empty : CommandQueue := {|
  pendingCommands := [];
  waitingAgents := [];
  commandHistory := [];
  maxHistorySize := 1000;
  waits := [];
  settled := [];
  emitted := [];
  reads := 0
|}.

Definition with_pending p (q : CommandQueue) : CommandQueue :=
  {| pendingCommands := p; waitingAgents := waitingAgents q;
     commandHistory := commandHistory q; maxHistorySize := maxHistorySize q;
     waits := waits q; settled := settled q; emitted := emitted q;
     reads := reads q |}.

Definition with_waiting w (q : CommandQueue) : CommandQueue :=
  {| pendingCommands := pendingCommands q; waitingAgents := w;
     commandHistory := commandHistory q; maxHistorySize := maxHistorySize q;
     waits := waits q; settled := settled q; emitted := emitted q;
     reads := reads q |}.

Definition with_history h (q : CommandQueue) : CommandQueue :=
  {| pendingCommands := pendingCommands q; waitingAgents := waitingAgents q;
     commandHistory := h; maxHistorySize := maxHistorySize q;
     waits := waits q; settled := settled q; emitted := emitted q;
     reads := reads q |}.

Definition with_reads n (q : CommandQueue) : CommandQueue :=
  {| pendingCommands := pendingCommands q; waitingAgents := waitingAgents q;
     commandHistory := commandHistory q; maxHistorySize := maxHistorySize q;
     waits := waits q; settled := settled q; emitted := emitted q;
     reads := n |}.

Definition settle (p : nat) (o : Outcome) (q : CommandQueue) : CommandQueue :=
  {| pendingCommands := pendingCommands q; waitingAgents := waitingAgents q;
     commandHistory := commandHistory q; maxHistorySize := maxHistorySize q;
     waits := waits q;
     settled := if existsb (fun x => Nat.eqb (fst x) p) (settled q)
                then settled q         (* a settled promise stays as it is *)
                else settled q ++ [(p, o)];
     emitted := emitted q; reads := reads q |}.

Definition emit (e : Event) (q : CommandQueue) : CommandQueue :=
  {| pendingCommands := pendingCommands q; waitingAgents := waitingAgents q;
     commandHistory := commandHistory q; maxHistorySize := maxHistorySize q;
     waits := waits q; settled := settled q;
     emitted := emitted q ++ [e]; reads := reads q |}.

(** [new Promise(...)] for a wait of [agentId] *)
Definition new_promise (agentId : string) (q : CommandQueue) : nat * CommandQueue :=
  (length (waits q),
   {| pendingCommands := pendingCommands q; waitingAgents := waitingAgents q;
      commandHistory := commandHistory q; maxHistorySize := maxHistorySize q;
      waits := waits q ++ [agentId]; settled := settled q;
      emitted := emitted q; reads := reads q |}).

(** [new Date().toISOString()] *)
Definition now (o : Oracle) (q : CommandQueue) : string * CommandQueue :=
  (time_at o (reads q), with_reads (S (reads q)) q).

(** [generateCommandId()] *)
Definition generateCommandId (o : Oracle) (q : CommandQueue) : string * CommandQueue :=
  (uuid_at o (reads q), with_reads (S (reads q)) q).

(** [priorityLevels[p] || 1] *)
Definition priorityLevel (p : option string) : nat :=
  match p with
  | Some "LOW" => 1
  | Some "MEDIUM" => 2
  | Some "HIGH" => 3
  | Some "URGENT" => 4
  | _ => 1
  end.

Definition includes (x : string) (l : list string) : bool :=
  existsb (String.eqb x) l.

Definition nonEmptyList (l : option (list string)) : option (list string) :=
  match l with
  | Some (x :: r) => Some (x :: r)
  | _ => None
  end.

Definition commandMatchesFilters (c : Command) (f : Filters) : bool :=
  (* no keys at all: match everything *)
  match taskTypes f, componentIds f, priority f with
  | None, None, None => true
  | _, _, _ =>
    (* task types *)
    (match nonEmptyList (taskTypes f) with
     | Some tts =>
         match taskType c with
         | Some t => truthy_str t && includes t tts
         | None => false
         end
     | None => true
     end)
    &&
    (* component ids *)
    (match nonEmptyList (componentIds f) with
     | Some cids =>
         match targetComponentIds c with
         | Some tids => existsb (fun i => includes i cids) tids
         | None => false
         end
     | None => true
     end)
    &&
    (* minimum priority *)
    (match priority f with
     | Some p =>
         if truthy_str p
         then negb (Nat.ltb (priorityLevel (cpriority c)) (priorityLevel (Some p)))
         else true
     | None => true
     end)
  end.

Definition findMatchingPendingCommand (f : Filters) (q : CommandQueue) : option Command :=
  find (fun c => commandMatchesFilters c f) (JsMap.values (pendingCommands q)).

Definition findMatchingWaitingAgent (c : Command) (q : CommandQueue) : option string :=
  option_map fst
    (find (fun aw => commandMatchesFilters c (wfilters (snd aw))) (waitingAgents q)).

Definition addToHistory (o : Oracle) (act : string) (agent : option string)
    (d : HistoryData) (q : CommandQueue) : CommandQueue :=
  let (t, q1) := now o q in
  let h := commandHistory q1 ++
           [{| h_timestamp := t; action := act; h_agentId := agent; data := d |}] in
  let h' := if Nat.ltb (maxHistorySize q1) (length h)
            then skipn (length h - maxHistorySize q1) h
            else h in
  with_history h' q1.

(** The [resolve] closure stored with a waiter.  [clearTimeout] has no
    counterpart: a timer is live exactly while its promise is unsettled. *)
Definition agent_resolve (o : Oracle) (agentId : string) (w : Waiter) (c : Command)
    (q : CommandQueue) : CommandQueue :=
  let q1 := with_waiting (JsMap.delete agentId (waitingAgents q)) q in
  let q2 := addToHistory o "COMMAND_RECEIVED" (Some agentId) (DCommand c) q1 in
  settle (promise w) (Resolved c) q2.

(** The [reject] closure stored with a waiter. *)
Definition agent_reject (o : Oracle) (agentId : string) (w : Waiter) (msg : string)
    (q : CommandQueue) : CommandQueue :=
  let q1 := with_waiting (JsMap.delete agentId (waitingAgents q)) q in
  let q2 := addToHistory o "WAIT_FAILED" (Some agentId) (DError msg) q1 in
  settle (promise w) (Rejected msg) q2.

Definition superseded_message : string :=
  "Agent started waiting for new command, canceling previous wait".

Definition timeout_message (ms : nat) : string :=
  "Wait for command timed out after " ++ string_of_nat ms ++ "ms".

Definition cancelled_message : string := "Wait cancelled by external request".

Inductive WaitResult :=
| Returned (c : Command)     (* the async function returned the command *)
| Waiting (p : nat).         (* it returned the pending promise [p] *)

Definition waitForCommand (o : Oracle) (agentId : string) (timeout_ms : nat)
    (f : Filters) (q : CommandQueue) : WaitResult * CommandQueue :=
  match findMatchingPendingCommand f q with
  | Some c =>
      let q1 := with_pending (JsMap.delete (id c) (pendingCommands q)) q in
      let q2 := addToHistory o "COMMAND_RECEIVED" (Some agentId) (DCommand c) q1 in
      (Returned c, q2)
  | None =>
      let q1 := match JsMap.get agentId (waitingAgents q) with
                | Some existing => agent_reject o agentId existing superseded_message q
                | None => q
                end in
      let (p, q2) := new_promise agentId q1 in
      let (t, q3) := now o q2 in
      let w := {| promise := p; timeout := timeout_ms; wfilters := f; startedAt := t |} in
      let q4 := with_waiting (JsMap.set agentId w (waitingAgents q3)) q3 in
      let q5 := addToHistory o "WAIT_STARTED" (Some agentId) (DWait f timeout_ms) q4 in
      (Waiting p, emit (EvAgentWaiting agentId f) q5)
  end.

(** The timer callback set up by [waitForCommand] for [agentId]; it runs
    only while the promise is unsettled (otherwise it was cleared). *)
Definition timeoutFires (agentId : string) (w : Waiter) (q : CommandQueue) : CommandQueue :=
  let q1 := with_waiting (JsMap.delete agentId (waitingAgents q)) q in
  settle (promise w) (Rejected (timeout_message (timeout w))) q1.

Record SendResult := {
  delivered : bool;
  r_agentId : option string;
  command : Command
}.

Definition sendCommand (o : Oracle) (c : CommandInput) (q : CommandQueue)
    : SendResult * CommandQueue :=
  let (cid, q1) := match in_id c with
                   | Some i => if truthy_str i then (i, q) else generateCommandId o q
                   | None => generateCommandId o q
                   end in
  let (t, q2) := now o q1 in
  let full st := {| id := cid; type := in_type c; source := in_source c;
                    cpriority := in_priority c;
                    targetComponentIds := in_targetComponentIds c;
                    taskType := in_taskType c; timestamp := t; status := st |} in
  match findMatchingWaitingAgent (full "PENDING") q2 with
  | Some a =>
      match JsMap.get a (waitingAgents q2) with
      | Some w =>
          let q3 := agent_resolve o a w (full "DELIVERED") q2 in
          let q4 := addToHistory o "COMMAND_SENT" None (DSent (full "DELIVERED") a) q3 in
          ({| delivered := true; r_agentId := Some a; command := full "DELIVERED" |}, q4)
      | None => ({| delivered := false; r_agentId := None; command := full "PENDING" |}, q2)
      end
  | None =>
      let q3 := with_pending (JsMap.set cid (full "PENDING") (pendingCommands q2)) q2 in
      let q4 := addToHistory o "COMMAND_QUEUED" None (DCommand (full "PENDING")) q3 in
      ({| delivered := false; r_agentId := None; command := full "PENDING" |},
       emit (EvCommandQueued (full "PENDING")) q4)
  end.


Definition cancelCommand (o : Oracle) (commandId : string) (q : CommandQueue)
    : bool * CommandQueue :=
  match JsMap.get commandId (pendingCommands q) with
  | Some c =>
      let q1 := with_pending (JsMap.delete commandId (pendingCommands q)) q in
      (true, addToHistory o "COMMAND_CANCELLED" None (DCommand c) q1)
  | None => (false, q)
  end.

Definition cancelWait (o : Oracle) (agentId : string) (q : CommandQueue)
    : bool * CommandQueue :=
  match JsMap.get agentId (waitingAgents q) with
  | Some w => (true, agent_reject o agentId w cancelled_message q)
  | None => (false, q)
  end.

(** [commandHistory.slice(-limit)]; [slice(-0)] is the whole array. *)
Definition getHistory (limit : nat) (q : CommandQueue) : list HistoryEntry :=
  match limit with
  | 0 => commandHistory q
  | _ => skipn (length (commandHistory q) - limit) (commandHistory q)
  end.

Definition clearHistory (q : CommandQueue) : CommandQueue := with_history [] q.

(** One call into the queue, or one timer going off. *)
Inductive step (o : Oracle) : CommandQueue -> CommandQueue -> Prop :=
| step_wait agentId ms f q :
    step o q (snd (waitForCommand o agentId ms f q))
| step_send c q :
    step o q (snd (sendCommand o c q))
| step_cancelCommand cid q :
    step o q (snd (cancelCommand o cid q))
| step_cancelWait agentId q :
    step o q (snd (cancelWait o agentId q))
| step_timeout agentId w q :
    JsMap.get agentId (waitingAgents q) = Some w ->
    step o q (timeoutFires agentId w q)
| step_clearHistory q :
    step o q (clearHistory q).

Inductive reachable (o : Oracle) : CommandQueue -> Prop :=
| reach_empty : reachable o empty
| reach_step q q' : reachable o q -> step o q q' -> reachable o q'.

(** A wait is ACTIVE when its promise was handed out and is not settled. *)
Definition is_settled (p : nat) (q : CommandQueue) : bool :=
  existsb (fun x => Nat.eqb (fst x) p) (settled q).

Definition outcome_of (p : nat) (q : CommandQueue) : option Outcome :=
  option_map snd (find (fun x => Nat.eqb (fst x) p) (settled q)).

End Queue.

(** ** JS values and objects *)

(** JSON-like values.  [VJson v] is the string that [JSON.stringify(v)]
    returns: the journal and the snapshots keep entity states in that form,
    and [JSON.parse] gives [v] back.  Such a text is never the empty string,
    so it is truthy.  [undefined] is an absent key; where the source passes
    it as a value it behaves as [VNull] does. *)
#[warnings="-register-all"]
Inductive value :=
| VNull
| VBool (b : bool)
| VNum (q : Q)
| VStr (s : string)
| VArr (l : list value)
| VObj (fields : list (string * value))
| VJson (v : value).

Definition obj := list (string * value).

Definition get_or_null (k : string) (o : obj) : value :=
  match JsMap.get k o with Some v => v | None => VNull end.

(** [{...base, ...extra}] *)
Definition spread (base extra : obj) : obj :=
  fold_left (fun acc kv => JsMap.set (fst kv) (snd kv) acc) extra base.

Definition truthy (v : value) : bool :=
  match v with
  | VNull => false
  | VBool b => b
  | VNum q => negb (Qeq_bool q 0)
  | VStr s => truthy_str s
  | VArr _ | VObj _ | VJson _ => true
  end.

(** [a || b] *)
Definition js_or (a b : value) : value := if truthy a then a else b.

(** Cypher [=] on property values; lists and maps are never used as keys
    by the source and compare unequal here. *)
Definition cypher_eq (a b : value) : bool :=
  match a, b with
  | VBool x, VBool y => Bool.eqb x y
  | VNum x, VNum y => Qeq_bool x y
  | VStr x, VStr y => String.eqb x y
  | _, _ => false
  end.

(** Cypher orderability across types, ascending: maps, lists, strings,
    booleans, numbers, and null last. *)
Definition type_rank (v : option value) : nat :=
  match v with
  | Some (VObj _) => 0
  | Some (VArr _) => 1
  | Some (VStr _) | Some (VJson _) => 2
  | Some (VBool _) => 3
  | Some (VNum _) => 4
  | Some VNull | None => 5
  end.

Definition cypher_leb (a b : option value) : bool :=
  match a, b with
  | Some (VStr x), Some (VStr y) => String.leb x y
  | Some (VBool x), Some (VBool y) => implb x y
  | Some (VNum x), Some (VNum y) => Qle_bool x y
  | _, _ => Nat.leb (type_rank a) (type_rank b)
  end.

(** Stable insertion sort, the model of [ORDER BY]. *)
Section Sorting.
Context {A : Type} (leb : A -> A -> bool).

Fixpoint insert_sorted (x : A) (l : list A) : list A :=
  match l with
  | [] => [x]
  | y :: r => if leb x y then x :: y :: r else y :: insert_sorted x r
  end.

(** Elements are inserted from the right, so equal keys keep their order. *)
Definition order_by (l : list A) : list A := fold_right insert_sorted [] l.
End Sorting.

(** ** Errors and the state-and-exception monad of the store *)

Inductive Error :=
| ZodError (field : string)          (* [Schema.parse] failed on [field] *)
| Neo4jError (message : string)      (* the backend rejected a statement *)
| TypeError (message : string)       (* property access on null *)
| JsError (message : string).        (* [throw new Error(message)] *)

Inductive result (A : Type) :=
| Ok (a : A)
| Throw (e : Error).
Arguments Ok {A} a.
Arguments Throw {A} e.

(** ** The property graph held by Neo4j *)

Record Node := {
  nid : nat;                  (* identity of the node in the backend *)
  labels : list string;
  nprops : obj
}.

Record Edge := {
  etype : string;
  esrc : nat;
  etgt : nat;
  eprops : obj
}.

Record Graph := {
  nodes : list Node;
  edges : list Edge;
  next_nid : nat;
  (* labels whose [id] property is under a uniqueness constraint *)
  unique_id : list string
}.

Record World := {
  graph : Graph;
  ticks : nat               (* reads of the oracle so far *)
}.

Definition M (A : Type) : Type := World -> result A * World.

Definition ret {A} (a : A) : M A := fun w => (Ok a, w).
Definition throw {A} (e : Error) : M A := fun w => (Throw e, w).
Definition bind {A B} (m : M A) (k : A -> M B) : M B :=
  fun w => match m w with
           | (Ok a, w') => k a w'
           | (Throw e, w') => (Throw e, w')
           end.

Notation "x <- m ;; k" := (bind m (fun x => k))
  (at level 61, m at next level, right associativity).
Notation "m ;;; k" := (bind m (fun _ => k))
  (at level 61, right associativity).

(** [try { body } catch (e) { handler(e) }] *)
Definition try_catch {A} (body : M A) (handler : Error -> M A) : M A :=
  fun w => match body w with
           | (Ok a, w') => (Ok a, w')
           | (Throw e, w') => handler e w'
           end.

(** [for (const x of l) await f(x)] *)
Fixpoint for_each {A} (f : A -> M unit) (l : list A) : M unit :=
  match l with
  | [] => ret tt
  | x :: r => f x ;;; for_each f r
  end.

Definition get_graph : M Graph := fun w => (Ok (graph w), w).
Definition put_graph (g : Graph) : M unit :=
  fun w => (Ok tt, {| graph := g; ticks := ticks w |}).

(** [uuidv4()] *)
Definition uuidv4 (o : Oracle) : M string :=
  fun w => (Ok (uuid_at o (ticks w)), {| graph := graph w; ticks := S (ticks w) |}).

(** [new Date().toISOString()] *)
Definition toISOString_now (o : Oracle) : M string :=
  fun w => (Ok (time_at o (ticks w)), {| graph := graph w; ticks := S (ticks w) |}).

(** *** Cypher building blocks *)

Definition has_label (l : string) (n : Node) : bool :=
  existsb (String.eqb l) (labels n).

Definition prop (k : string) (n : Node) : value := get_or_null k (nprops n).

(** [(n:L {id: $id})] *)
Definition matches_id (l : string) (idv : value) (n : Node) : bool :=
  has_label l n && cypher_eq (prop "id" n) idv.

(** [SET n = $props]: null values are not stored. *)
Definition stored (p : obj) : obj :=
  filter (fun kv => match snd kv with VNull => false | _ => true end) p.

(** [SET n += $updates]: a null value removes the property. *)
Definition merge_props (old updates : obj) : obj := stored (spread old updates).

Definition violates_unique (g : Graph) (ls : list string) (p : obj) : bool :=
  existsb (fun l =>
    existsb (String.eqb l) (unique_id g) &&
    existsb (fun n => matches_id l (get_or_null "id" p) n) (nodes g)) ls.

(** The graph after [CREATE (n:L1:L2...) SET n = $props]. *)
Definition new_node (ls : list string) (p : obj) (g : Graph) : Node :=
  {| nid := next_nid g; labels := ls; nprops := stored p |}.

Definition add_node (ls : list string) (p : obj) (g : Graph) : Graph :=
  {| nodes := nodes g ++ [new_node ls p g]; edges := edges g;
     next_nid := S (next_nid g); unique_id := unique_id g |}.

(** [CREATE (n:L1:L2...) SET n = $props RETURN n] *)
Definition cypher_create (ls : list string) (p : obj) : M Node :=
  g <- get_graph ;;
  if violates_unique g ls (stored p)
  then throw (Neo4jError "Node already exists with this id")
  else put_graph (add_node ls p g) ;;; ret (new_node ls p g).

Definition set_node (sel : Node -> bool) (updates : obj) (n : Node) : Node :=
  if sel n
  then {| nid := nid n; labels := labels n; nprops := merge_props (nprops n) updates |}
  else n.

Definition set_nodes (sel : Node -> bool) (updates : obj) (g : Graph) : Graph :=
  {| nodes := map (set_node sel updates) (nodes g); edges := edges g;
     next_nid := next_nid g; unique_id := unique_id g |}.

(** [MATCH (n) WHERE sel(n) SET n += $updates RETURN n] *)
Definition cypher_set (sel : Node -> bool) (updates : obj) : M (list Node) :=
  g <- get_graph ;;
  put_graph (set_nodes sel updates g) ;;;
  ret (map (set_node sel updates) (filter sel (nodes g))).

(** [MATCH (n) WHERE sel(n) DETACH DELETE n] *)
Definition detach_delete (sel : Node -> bool) (g : Graph) : Graph :=
  let gone := map nid (filter sel (nodes g)) in
  let is_gone i := existsb (Nat.eqb i) gone in
  {| nodes := filter (fun n => negb (sel n)) (nodes g);
     edges := filter (fun e => negb (is_gone (esrc e) || is_gone (etgt e))) (edges g);
     next_nid := next_nid g; unique_id := unique_id g |}.

Definition cypher_detach_delete (sel : Node -> bool) : M unit :=
  g <- get_graph ;; put_graph (detach_delete sel g).

Definition new_edge (t : string) (p : obj) (ab : Node * Node) : Edge :=
  {| etype := t; esrc := nid (fst ab); etgt := nid (snd ab); eprops := stored p |}.

Definition matching_pairs (sa sb : Node -> bool) (g : Graph) : list (Node * Node) :=
  list_prod (filter sa (nodes g)) (filter sb (nodes g)).

Definition add_edges (sa sb : Node -> bool) (t : string) (p : obj) (g : Graph) : Graph :=
  {| nodes := nodes g;
     edges := edges g ++ map (new_edge t p) (matching_pairs sa sb g);
     next_nid := next_nid g; unique_id := unique_id g |}.

(** [MATCH (a) WHERE sa(a) MATCH (b) WHERE sb(b) CREATE (a)-[r:T]->(b)
    SET r = $props RETURN r, a, b]: one edge per matching pair. *)
Definition cypher_create_edges (sa sb : Node -> bool) (t : string) (p : obj)
    : M (list (Edge * Node * Node)) :=
  g <- get_graph ;;
  put_graph (add_edges sa sb t p g) ;;;
  ret (map (fun ab => (new_edge t p ab, fst ab, snd ab)) (matching_pairs sa sb g)).

Definition with_unique_id (ls : list string) (g : Graph) : Graph :=
  {| nodes := nodes g; edges := edges g; next_nid := next_nid g; unique_id := ls |}.

Definition node_of (g : Graph) (i : nat) : option Node :=
  find (fun n => Nat.eqb (nid n) i) (nodes g).

Definition lift {A} (r : result A) : M A := fun w => (r, w).

(** ** models.js *)

Module Models.

Definition ComponentType : list string :=
  ["FILE"; "FUNCTION"; "CLASS"; "MODULE"; "SYSTEM"; "INTERFACE"; "VARIABLE";
   "CONSTANT"; "REQUIREMENT"; "SPECIFICATION"; "FEATURE"; "USER_STORY";
   "ACCEPTANCE_CRITERIA"; "TEST_CASE"].

Definition RelationshipType : list string :=
  ["DEPENDS_ON"; "IMPLEMENTS"; "EXTENDS"; "CONTAINS"; "CALLS"; "IMPORTS";
   "EXPORTS"; "OVERRIDES"; "USES"; "CREATES";
   "SATISFIES"; "DERIVES_FROM"; "REFINES"; "TRACES_TO"; "VALIDATES";
   "VERIFIES"; "CONFLICTS_WITH"; "SUPPORTS"; "ALLOCATES_TO"; "REALIZES";
   "PRECEDES"; "FOLLOWS"; "CONCURRENT"].

Definition TaskStatus : list string :=
  ["TODO"; "IN_PROGRESS"; "DONE"; "BLOCKED"; "CANCELLED"].

Definition in_enum (e : list string) (s : string) : bool :=
  existsb (String.eqb s) e.

(** zod's [uuid()]: 8-4-4-4-12 hexadecimal digits. *)
Definition is_hex (c : ascii) : bool :=
  let n := nat_of_ascii c in
  (Nat.leb 48 n && Nat.leb n 57) || (Nat.leb 65 n && Nat.leb n 70)
  || (Nat.leb 97 n && Nat.leb n 102).

Fixpoint uuid_shape (pos : nat) (s : string) : bool :=
  match s with
  | EmptyString => Nat.eqb pos 36
  | String c r =>
      (if existsb (Nat.eqb pos) [8; 13; 18; 23]
       then Ascii.eqb c "-"%char else is_hex c)
      && uuid_shape (S pos) r
  end.

Definition is_uuid (s : string) : bool := uuid_shape 0 s.

(** Field checks; [None] is a zod issue on the field. *)

Definition req_string (k : string) (d : obj) : option string :=
  match JsMap.get k d with Some (VStr s) => Some s | _ => None end.

(** [z.string().uuid()] *)
Definition req_uuid (k : string) (d : obj) : option string :=
  match req_string k d with
  | Some s => if is_uuid s then Some s else None
  | None => None
  end.

(** [z.string().min(1)] *)
Definition req_nonempty (k : string) (d : obj) : option string :=
  match req_string k d with
  | Some s => if truthy_str s then Some s else None
  | None => None
  end.

(** [z.nativeEnum(E)] *)
Definition req_enum (e : list string) (k : string) (d : obj) : option string :=
  match req_string k d with
  | Some s => if in_enum e s then Some s else None
  | None => None
  end.

(** [z.string().optional()] *)
Definition opt_string (k : string) (d : obj) : option (option string) :=
  match JsMap.get k d with
  | None => Some None
  | Some (VStr s) => Some (Some s)
  | Some _ => None
  end.

Fixpoint all_strings (o : obj) : option (list (string * string)) :=
  match o with
  | [] => Some []
  | (k, VStr s) :: r => option_map (cons (k, s)) (all_strings r)
  | _ :: _ => None
  end.

(** [z.record(z.string()).default({})] *)
Definition record_of_strings (k : string) (d : obj) : option (list (string * string)) :=
  match JsMap.get k d with
  | None => Some []
  | Some (VObj o) => all_strings o
  | Some _ => None
  end.

Definition is_int (q : Q) : bool :=
  Z.eqb (Z.modulo (Qnum q) (Zpos (Qden q))) 0.

Definition in_range (lo hi q : Q) : bool := Qle_bool lo q && Qle_bool q hi.

(** [z.number().int().min(1).optional()] *)
Definition opt_timeOrder (k : string) (d : obj) : option (option Q) :=
  match JsMap.get k d with
  | None => Some None
  | Some (VNum q) => if is_int q && Qle_bool 1 q then Some (Some q) else None
  | Some _ => None
  end.

(** [z.number().min(lo).max(hi).optional()] *)
Definition opt_number_in (lo hi : Q) (k : string) (d : obj) : option (option Q) :=
  match JsMap.get k d with
  | None => Some None
  | Some (VNum q) => if in_range lo hi q then Some (Some q) else None
  | Some _ => None
  end.

(** [z.number().min(0).max(1).default(0)] *)
Definition progress_field (k : string) (d : obj) : option Q :=
  match JsMap.get k d with
  | None => Some 0%Q
  | Some (VNum q) => if in_range 0 1 q then Some q else None
  | Some _ => None
  end.

Fixpoint all_uuids (l : list value) : option (list string) :=
  match l with
  | [] => Some []
  | VStr s :: r => if is_uuid s then option_map (cons s) (all_uuids r) else None
  | _ :: _ => None
  end.

(** [z.array(z.string().uuid()).default([])] *)
Definition uuid_array (k : string) (d : obj) : option (list string) :=
  match JsMap.get k d with
  | None => Some []
  | Some (VArr l) => all_uuids l
  | Some _ => None
  end.

Definition issue {A} (k : string) (r : option A) : list string :=
  match r with Some _ => [] | None => [k] end.

Record Component := {
  id : string;
  type : string;
  name : string;
  description : option string;
  path : option string;
  codebase : option string;
  metadata : list (string * string)
}.

(** [new Component(data)], that is [ComponentSchema.parse(data)]; keys the
    schema does not name are stripped. *)
Definition parse_component (d : obj) : result Component :=
  let i := req_uuid "id" d in
  let t := req_enum ComponentType "type" d in
  let n := req_nonempty "name" d in
  let ds := opt_string "description" d in
  let pa := opt_string "path" d in
  let cb := opt_string "codebase" d in
  let md := record_of_strings "metadata" d in
  match i, t, n, ds, pa, cb, md with
  | Some i', Some t', Some n', Some ds', Some pa', Some cb', Some md' =>
      Ok {| id := i'; type := t'; name := n'; description := ds'; path := pa';
            codebase := cb'; metadata := md' |}
  | _, _, _, _, _, _, _ =>
      Throw (ZodError (String.concat "," (issue "id" i ++ issue "type" t ++ issue "name" n
               ++ issue "description" ds ++ issue "path" pa
               ++ issue "codebase" cb ++ issue "metadata" md)))
  end.

(** [x || ''] on an optional string *)
Definition or_empty (s : option string) : value :=
  match s with Some x => VStr x | None => VStr "" end.

Definition strings (m : list (string * string)) : obj :=
  map (fun kv => (fst kv, VStr (snd kv))) m.

(** [Component.toNode().properties] *)
Definition component_props (c : Component) : obj :=
  spread [("id", VStr (id c)); ("type", VStr (type c)); ("name", VStr (name c));
          ("description", or_empty (description c)); ("path", or_empty (path c));
          ("codebase", or_empty (codebase c))]
         (strings (metadata c)).

Record Relationship := {
  r_id : string;
  r_type : string;
  sourceId : string;
  targetId : string;
  details : list (string * string);
  timeOrder : option Q;
  probability : option Q;
  reasoning : option string
}.

(** [new Relationship(data)] *)
Definition parse_relationship (d : obj) : result Relationship :=
  let i := req_uuid "id" d in
  let t := req_enum RelationshipType "type" d in
  let s := req_uuid "sourceId" d in
  let g := req_uuid "targetId" d in
  let dt := record_of_strings "details" d in
  let tm := opt_timeOrder "timeOrder" d in
  let pr := opt_number_in 0 100 "probability" d in
  let rs := opt_string "reasoning" d in
  match i, t, s, g, dt, tm, pr, rs with
  | Some i', Some t', Some s', Some g', Some dt', Some tm', Some pr', Some rs' =>
      Ok {| r_id := i'; r_type := t'; sourceId := s'; targetId := g';
            details := dt'; timeOrder := tm'; probability := pr'; reasoning := rs' |}
  | _, _, _, _, _, _, _, _ =>
      Throw (ZodError (String.concat "," (issue "id" i ++ issue "type" t ++ issue "sourceId" s
               ++ issue "targetId" g ++ issue "details" dt
               ++ issue "timeOrder" tm ++ issue "probability" pr
               ++ issue "reasoning" rs)))
  end.

Definition set_if {A} (k : string) (f : A -> value) (x : option A) (o : obj) : obj :=
  match x with Some a => JsMap.set k (f a) o | None => o end.

(** [Relationship.toRelation().properties] *)
Definition relation_props (r : Relationship) : obj :=
  set_if "reasoning" VStr (reasoning r)
    (set_if "probability" VNum (probability r)
      (set_if "timeOrder" VNum (timeOrder r)
        (spread [("id", VStr (r_id r))] (strings (details r))))).

Record Task := {
  t_id : string;
  t_name : string;
  t_description : option string;
  status : string;
  progress : Q;
  t_codebase : option string;
  relatedComponentIds : list string;
  t_metadata : list (string * string)
}.

(** [new Task(data)] *)
Definition parse_task (d : obj) : result Task :=
  let i := req_uuid "id" d in
  let n := req_nonempty "name" d in
  let ds := opt_string "description" d in
  let st := req_enum TaskStatus "status" d in
  let pg := progress_field "progress" d in
  let cb := opt_string "codebase" d in
  let rc := uuid_array "relatedComponentIds" d in
  let md := record_of_strings "metadata" d in
  match i, n, ds, st, pg, cb, rc, md with
  | Some i', Some n', Some ds', Some st', Some pg', Some cb', Some rc', Some md' =>
      Ok {| t_id := i'; t_name := n'; t_description := ds'; status := st';
            progress := pg'; t_codebase := cb'; relatedComponentIds := rc';
            t_metadata := md' |}
  | _, _, _, _, _, _, _, _ =>
      Throw (ZodError (String.concat "," (issue "id" i ++ issue "name" n ++ issue "description" ds
               ++ issue "status" st ++ issue "progress" pg
               ++ issue "codebase" cb ++ issue "relatedComponentIds" rc
               ++ issue "metadata" md)))
  end.

(** [Task.toNode().properties] *)
Definition task_props (t : Task) : obj :=
  spread [("id", VStr (t_id t)); ("name", VStr (t_name t));
          ("description", or_empty (t_description t));
          ("status", VStr (status t)); ("progress", VNum (progress t));
          ("codebase", or_empty (t_codebase t))]
         (strings (t_metadata t)).

End Models.

(** ** history.js and database.js

    [GraphDatabase] and [ChangeHistory] hold references to each other; the
    functions are given in dependency order. *)

Module Db.
Import Models.

(** [data.id || uuidv4()] *)
Definition id_or_uuid (o : Oracle) (d : obj) : M value :=
  let i := get_or_null "id" d in
  if truthy i then ret i else (u <- uuidv4 o ;; ret (VStr u)).

(** A value used where the source reads properties off it: [null] throws,
    an object is itself, and any other value has none of the keys a schema
    names. *)
Definition as_object (v : value) : result obj :=
  match v with
  | VObj o => Ok o
  | VNull => Throw (TypeError "Cannot read properties of null")
  | _ => Ok []
  end.

(** *** ChangeHistory.recordChange *)

(** The object [recordChange] builds: the listed fields, overridden by
    whatever the metadata carries under the same keys. *)
Definition changeEvent (i t operation entityType : string)
    (entityId beforeState afterState : value) (metadata : obj) : obj :=
  spread
    [("id", VStr i);
     ("operation", VStr operation);
     ("entityType", VStr entityType);
     ("entityId", entityId);
     ("beforeState", VJson (js_or beforeState (VObj [])));
     ("afterState", VJson (js_or afterState (VObj [])));
     ("timestamp", VStr t);
     ("sessionId", js_or (get_or_null "sessionId" metadata) (VStr "anonymous"));
     ("userId", js_or (get_or_null "userId" metadata) (VStr "system"));
     ("source", js_or (get_or_null "source" metadata) (VStr "mcp-server"))]
    metadata.

Definition recordChange (o : Oracle) (operation entityType : string)
    (entityId beforeState afterState : value) (metadata : obj) : M obj :=
  i <- uuidv4 o ;;
  t <- toISOString_now o ;;
  let c := changeEvent i t operation entityType entityId beforeState afterState
             metadata in
  cypher_create ["ChangeEvent"] c ;;;
  ret c.

(** *** GraphDatabase *)

Definition has_duplicate_id (l : string) (g : Graph) : bool :=
  existsb (fun n =>
    has_label l n &&
    Nat.ltb 1 (length (filter (matches_id l (prop "id" n)) (nodes g)))) (nodes g).

(** [initializeSchema]: the four uniqueness constraints ([Comment] is in
    the later version of the file only); the indexes have no model. *)
Definition initializeSchema : M unit :=
  g <- get_graph ;;
  let ls := ["Component"; "Task"; "Comment"; "ChangeEvent"] in
  if existsb (fun l => has_duplicate_id l g) ls
  then throw (Neo4jError "Unable to create constraint")
  else put_graph (with_unique_id ls g).

Definition createComponent (o : Oracle) (componentData metadata : obj) : M obj :=
  i <- id_or_uuid o componentData ;;
  component <- lift (parse_component (JsMap.set "id" i componentData)) ;;
  n <- cypher_create ["Component"; type component] (component_props component) ;;
  let createdComponent := nprops n in
  (* Record change history *)
  recordChange o "CREATE_COMPONENT" "COMPONENT"
    (get_or_null "id" createdComponent) VNull (VObj createdComponent) metadata ;;;
  ret createdComponent.

Definition getComponent (i : value) : M (option obj) :=
  g <- get_graph ;;
  ret (option_map nprops (find (matches_id "Component" i) (nodes g))).

Definition updateComponent (i : value) (updates : obj) : M (option obj) :=
  ns <- cypher_set (matches_id "Component" i) updates ;;
  ret (option_map nprops (hd_error ns)).

Definition deleteComponent (i : value) : M bool :=
  cypher_detach_delete (matches_id "Component" i) ;;;
  ret true.

(** The body shared by [createRelationship] and the bulk variant. *)
Definition create_relationship_row (o : Oracle) (relationshipData : obj) : M (option obj) :=
  i <- id_or_uuid o relationshipData ;;
  relationship <- lift (parse_relationship (JsMap.set "id" i relationshipData)) ;;
  rs <- cypher_create_edges
          (matches_id "Component" (VStr (sourceId relationship)))
          (matches_id "Component" (VStr (targetId relationship)))
          (r_type relationship) (relation_props relationship) ;;
  ret (match rs with
       | [] => None
       | (r, s, t) :: _ =>
           Some (spread (eprops r)
                   [("sourceName", prop "name" s); ("targetName", prop "name" t)])
       end).

Definition createRelationship (o : Oracle) (relationshipData : obj) : M (option obj) :=
  create_relationship_row o relationshipData.

(** A record of the queries of [getComponentRelationships]: columns [r],
    [target] and, in the [UNION] query only, [direction]. *)
Record RelRecord := {
  r : Edge;
  target : Node;
  direction_col : option string
}.

(** [MATCH (c:Component {id: $id})-[r]->(target:Component)] *)
Definition outgoing_records (g : Graph) (i : value) (tag : option string) : list RelRecord :=
  flat_map (fun e =>
    match node_of g (esrc e), node_of g (etgt e) with
    | Some c, Some t =>
        if matches_id "Component" i c && has_label "Component" t
        then [{| r := e; target := t; direction_col := tag |}] else []
    | _, _ => []
    end) (edges g).

(** [MATCH (source:Component)-[r]->(c:Component {id: $id})] *)
Definition incoming_records (g : Graph) (i : value) (tag : option string) : list RelRecord :=
  flat_map (fun e =>
    match node_of g (esrc e), node_of g (etgt e) with
    | Some s, Some c =>
        if has_label "Component" s && matches_id "Component" i c
        then [{| r := e; target := s; direction_col := tag |}] else []
    | _, _ => []
    end) (edges g).

Definition relationship_records (g : Graph) (i : value) (direction : string)
    : list RelRecord :=
  if String.eqb direction "outgoing" then outgoing_records g i None
  else if String.eqb direction "incoming" then incoming_records g i None
  else outgoing_records g i (Some "outgoing") ++ incoming_records g i (Some "incoming").

Record RelRow := {
  relationship : obj;
  row_target : obj;
  row_direction : string
}.

(** [record.get('direction') || direction] *)
Definition record_direction (o : Oracle) (direction : string) (rc : RelRecord)
    : result string :=
  match direction_col rc with
  | Some d => Ok (if truthy_str d then d else direction)
  | None => if get_absent_throws o
            then Throw (Neo4jError "This record has no field with key 'direction'")
            else Ok direction
  end.

Fixpoint map_result {A B} (f : A -> result B) (l : list A) : result (list B) :=
  match l with
  | [] => Ok []
  | x :: rest =>
      match f x with
      | Ok y => match map_result f rest with
                | Ok ys => Ok (y :: ys)
                | Throw e => Throw e
                end
      | Throw e => Throw e
      end
  end.

Definition getComponentRelationships (o : Oracle) (componentId : value)
    (direction : string) : M (list RelRow) :=
  g <- get_graph ;;
  lift (map_result (fun rc =>
          match record_direction o direction rc with
          | Ok d => Ok {| relationship := eprops (r rc);
                          row_target := nprops (target rc);
                          row_direction := d |}
          | Throw e => Throw e
          end) (relationship_records g componentId direction)).

(** The body shared by [createTask] and the bulk variant. *)
Definition create_task_row (o : Oracle) (taskData : obj) : M obj :=
  i <- id_or_uuid o taskData ;;
  task <- lift (parse_task (JsMap.set "id" i taskData)) ;;
  n <- cypher_create ["Task"] (task_props task) ;;
  (* Link to related components if any *)
  match relatedComponentIds task with
  | [] => ret tt
  | ids =>
      cypher_create_edges
        (matches_id "Task" (VStr (t_id task)))
        (fun c => has_label "Component" c
                  && existsb (fun x => cypher_eq (prop "id" c) (VStr x)) ids)
        "RELATES_TO" [] ;;;
      ret tt
  end ;;;
  ret (nprops n).

Definition createTask (o : Oracle) (taskData : obj) : M obj :=
  create_task_row o taskData.

Definition updateTaskStatus (i status progress : value) : M (option obj) :=
  let updates := match progress with
                 | VNull => [("status", status)]
                 | p => [("status", status); ("progress", p)]
                 end in
  ns <- cypher_set (matches_id "Task" i) updates ;;
  ret (option_map nprops (hd_error ns)).

Definition getTask (i : value) : M (option obj) :=
  g <- get_graph ;;
  ret (option_map nprops (find (matches_id "Task" i) (nodes g))).

(** [session.beginTransaction()] ... [commit]/[rollback] *)
Definition transaction {A} (body : M A) : M A :=
  fun w => match body w with
           | (Ok a, w') => (Ok a, w')
           | (Throw e, w') => (Throw e, {| graph := graph w; ticks := ticks w' |})
           end.

Fixpoint map_m {A B} (f : A -> M B) (l : list A) : M (list B) :=
  match l with
  | [] => ret []
  | x :: rest => y <- f x ;; ys <- map_m f rest ;; ret (y :: ys)
  end.

(** Bulk operations *)
Definition createComponents (o : Oracle) (componentsData : list obj) (metadata : obj)
    : M (list obj) :=
  createdComponents <-
    transaction (map_m (fun componentData =>
      i <- id_or_uuid o componentData ;;
      component <- lift (parse_component (JsMap.set "id" i componentData)) ;;
      n <- cypher_create ["Component"; type component] (component_props component) ;;
      ret (nprops n)) componentsData) ;;
  (* Record change history for all created components *)
  for_each (fun component =>
    recordChange o "CREATE_COMPONENT_BULK" "COMPONENT"
      (get_or_null "id" component) VNull (VObj component)
      (spread metadata
         [("bulkOperation", VBool true);
          ("totalCount", VNum (inject_Z (Z.of_nat (length createdComponents))))]) ;;;
    ret tt) createdComponents ;;;
  ret createdComponents.

Definition somes {A} (l : list (option A)) : list A :=
  flat_map (fun x => match x with Some a => [a] | None => [] end) l.

Definition createRelationships (o : Oracle) (relationshipsData : list obj) : M (list obj) :=
  rs <- transaction (map_m (create_relationship_row o) relationshipsData) ;;
  ret (somes rs).

Definition createTasks (o : Oracle) (tasksData : list obj) : M (list obj) :=
  transaction (map_m (create_task_row o) tasksData).

(** Comment operations *)
Definition createComment (o : Oracle) (commentData : obj) : M obj :=
  commentId <- uuidv4 o ;;
  now <- toISOString_now o ;;
  let nodeId := get_or_null "nodeId" commentData in
  g <- get_graph ;;
  (* First verify that the target node exists *)
  if negb (existsb (fun n => cypher_eq (prop "id" n) nodeId) (nodes g))
  then throw (JsError "Node not found")
  else
    c <- cypher_create ["Comment"]
           [("id", VStr commentId);
            ("content", get_or_null "content" commentData);
            ("author", js_or (get_or_null "author" commentData) (VStr "system"));
            ("created", VStr now)] ;;
    cypher_create_edges (fun n => cypher_eq (prop "id" n) nodeId)
      (matches_id "Comment" (VStr commentId)) "HAS_COMMENT" [] ;;;
    ret (JsMap.set "nodeId" nodeId (nprops c)).

Definition updateComment (o : Oracle) (commentId : value) (updates : obj) : M (option obj) :=
  now <- toISOString_now o ;;
  ns <- cypher_set (matches_id "Comment" commentId)
          [("content", get_or_null "content" updates); ("updated", VStr now)] ;;
  ret (option_map nprops (hd_error ns)).

Definition deleteComment (commentId : value) : M bool :=
  cypher_detach_delete (matches_id "Comment" commentId) ;;;
  ret true.

Definition timestamp_desc (a b : Node) : bool :=
  cypher_leb (JsMap.get "created" (nprops b)) (JsMap.get "created" (nprops a)).

Definition getNodeComments (nodeId : value) (limit : nat) : M (list obj) :=
  g <- get_graph ;;
  let cs := flat_map (fun e =>
              match node_of g (esrc e), node_of g (etgt e) with
              | Some n, Some c =>
                  if String.eqb (etype e) "HAS_COMMENT" && has_label "Comment" c
                     && cypher_eq (prop "id" n) nodeId
                  then [c] else []
              | _, _ => []
              end) (edges g) in
  ret (map nprops (firstn limit (order_by timestamp_desc cs))).

(** *** ChangeHistory: reading the journal *)

(** [JSON.parse(v)].  Text written by [JSON.stringify] parses to what was
    written; any other string is parsed by [parse], the JSON grammar, which
    these definitions take as a parameter ([None]: a SyntaxError). *)
Definition JSON_parse (parse : string -> option value) (v : value) : result value :=
  match v with
  | VJson x => Ok x
  | VStr s => match parse s with
              | Some x => Ok x
              | None => Throw (JsError "SyntaxError")
              end
  | VNum q => Ok (VNum q)
  | VBool b => Ok (VBool b)
  | VNull => Ok VNull
  | VArr _ | VObj _ => Throw (JsError "SyntaxError")
  end.

(** [change.k ? JSON.parse(change.k) : null] *)
Definition parse_state (parse : string -> option value) (k : string) (change : obj)
    : result value :=
  let v := get_or_null k change in
  if truthy v then JSON_parse parse v else Ok VNull.

(** [{...change, beforeState: ..., afterState: ...}] *)
Definition decode (parse : string -> option value) (n : Node) : result obj :=
  let change := nprops n in
  match parse_state parse "beforeState" change with
  | Throw e => Throw e
  | Ok b =>
      match parse_state parse "afterState" change with
      | Throw e => Throw e
      | Ok a => Ok (JsMap.set "afterState" a (JsMap.set "beforeState" b change))
      end
  end.

Definition timestamp_of (n : Node) : option value := JsMap.get "timestamp" (nprops n).

(** [ORDER BY c.timestamp ASC] and [DESC] *)
Definition by_timestamp_asc (a b : Node) : bool :=
  cypher_leb (timestamp_of a) (timestamp_of b).
Definition by_timestamp_desc (a b : Node) : bool :=
  cypher_leb (timestamp_of b) (timestamp_of a).

(** The journal: the [ChangeEvent] nodes, in the order of their creation. *)
Definition journal (g : Graph) : list Node := filter (has_label "ChangeEvent") (nodes g).

Definition getEntityHistory (parse : string -> option value) (entityId : value)
    (limit : nat) : M (list obj) :=
  g <- get_graph ;;
  let cs := filter (fun c => cypher_eq (prop "entityId" c) entityId) (journal g) in
  lift (map_result (decode parse) (firstn limit (order_by by_timestamp_desc cs))).

Definition getRecentChanges (parse : string -> option value) (limit : nat)
    (operation : value) : M (list obj) :=
  g <- get_graph ;;
  let cs := if truthy operation
            then filter (fun c => cypher_eq (prop "operation" c) operation) (journal g)
            else journal g in
  lift (map_result (decode parse) (firstn limit (order_by by_timestamp_desc cs))).

(** [c.timestamp >= $startTime AND c.timestamp <= $endTime] with string
    bounds: a timestamp that is not a string compares to null. *)
Definition in_time_range (startTime endTime : string) (c : Node) : bool :=
  match timestamp_of c with
  | Some (VStr t) => String.leb startTime t && String.leb t endTime
  | _ => false
  end.

Definition changes_in_range (startTime endTime : string) (limit : nat) (g : Graph)
    : list Node :=
  firstn limit
    (order_by by_timestamp_asc (filter (in_time_range startTime endTime) (journal g))).

Definition getChangesByTimeRange (parse : string -> option value)
    (startTime endTime : string) (limit : nat) : M (list obj) :=
  g <- get_graph ;;
  lift (map_result (decode parse) (changes_in_range startTime endTime limit g)).

Definition getSessionChanges (parse : string -> option value) (sessionId : value)
    : M (list obj) :=
  g <- get_graph ;;
  let cs := filter (fun c => cypher_eq (prop "sessionId" c) sessionId) (journal g) in
  lift (map_result (decode parse) (order_by by_timestamp_asc cs)).

(** *** ChangeHistory: replay *)

Definition replayChange (o : Oracle) (change : obj) : M unit :=
  let afterState := get_or_null "afterState" change in
  let entityId := get_or_null "entityId" change in
  match get_or_null "operation" change with
  | VStr "CREATE_COMPONENT" =>
      d <- lift (as_object afterState) ;; createComponent o d [] ;;; ret tt
  | VStr "UPDATE_COMPONENT" =>
      match afterState with
      | VObj updates => updateComponent entityId updates ;;; ret tt
      | _ => throw (Neo4jError "Expected a map for SET +=")
      end
  | VStr "DELETE_COMPONENT" =>
      deleteComponent entityId ;;; ret tt
  | VStr "CREATE_TASK" =>
      d <- lift (as_object afterState) ;; createTask o d ;;; ret tt
  | VStr "UPDATE_TASK" =>
      d <- lift (as_object afterState) ;;
      updateTaskStatus entityId (get_or_null "status" d) (get_or_null "progress" d) ;;;
      ret tt
  | VStr "CREATE_RELATIONSHIP" =>
      d <- lift (as_object afterState) ;; createRelationship o d ;;; ret tt
  | _ => ret tt      (* console.warn: unknown operation type *)
  end.

(** A line of the replay log; the fields are the holes of its template. *)
Inductive LogLine :=
| Cleared
| ReplayedLine (operation entityType entityId : value)
| FailedLine (operation entityType entityId : value) (e : Error).

Inductive ReplayResult :=
| WouldReplay (count : nat) (targetTimestamp : string) (changes : list obj)
| Replayed (targetTimestamp : string) (replayedChanges : nat) (log : list LogLine).

Definition change_summary (c : obj) : obj :=
  [("timestamp", get_or_null "timestamp" c);
   ("operation", get_or_null "operation" c);
   ("entityType", get_or_null "entityType" c);
   ("entityId", get_or_null "entityId" c)].

Definition epoch : string := "1970-01-01T00:00:00.000Z".

Definition replay_one (o : Oracle) (change : obj) : M LogLine :=
  let op := get_or_null "operation" change in
  let ty := get_or_null "entityType" change in
  let ei := get_or_null "entityId" change in
  try_catch (replayChange o change ;;; ret (ReplayedLine op ty ei))
            (fun e => ret (FailedLine op ty ei e)).

Definition replayToTimestamp (o : Oracle) (parse : string -> option value)
    (targetTimestamp : string) (dryRun : bool) : M ReplayResult :=
  (* Get all changes up to the target timestamp *)
  changes <- getChangesByTimeRange parse epoch targetTimestamp 1000 ;;
  if dryRun
  then ret (WouldReplay (length changes) targetTimestamp (map change_summary changes))
  else
    (* Clear current state *)
    cypher_detach_delete (fun n => negb (has_label "ChangeEvent" n)) ;;;
    (* Replay changes in chronological order *)
    lines <- map_m (replay_one o) changes ;;
    ret (Replayed targetTimestamp (length changes) (Cleared :: lines)).

(** *** ChangeHistory: snapshots *)

Definition id_of_node (g : Graph) (i : nat) : value :=
  match node_of g i with Some n => prop "id" n | None => VNull end.

(** [MATCH ()-[r]->() WHERE type(r) <> "RELATES_TO" RETURN r, startNode(r).id, endNode(r).id] *)
Definition snapshot_relationships (g : Graph) : list value :=
  flat_map (fun e =>
    match node_of g (esrc e), node_of g (etgt e) with
    | Some s, Some t =>
        if negb (String.eqb (etype e) "RELATES_TO")
        then [VObj (JsMap.set "targetId" (prop "id" t)
                     (JsMap.set "sourceId" (prop "id" s)
                       (JsMap.set "type" (VStr (etype e)) (eprops e))))]
        else []
    | _, _ => []
    end) (edges g).

Definition snapshot_data (g : Graph) : value :=
  VObj [("components",
          VArr (map (fun n => VObj (nprops n)) (filter (has_label "Component") (nodes g))));
        ("tasks",
          VArr (map (fun n => VObj (nprops n)) (filter (has_label "Task") (nodes g))));
        ("relationships", VArr (snapshot_relationships g))].

Definition createSnapshot (o : Oracle) (snapshotName : string) (metadata : obj) : M obj :=
  i <- uuidv4 o ;;
  t <- toISOString_now o ;;
  let snapshot := spread [("id", VStr i); ("name", VStr snapshotName);
                          ("timestamp", VStr t)] metadata in
  (* Get all current entities *)
  g <- get_graph ;;
  let snapshot' := JsMap.set "data" (snapshot_data g) snapshot in
  (* Store snapshot *)
  cypher_create ["Snapshot"] (JsMap.set "data" (VJson (snapshot_data g)) snapshot') ;;;
  ret snapshot'.

Definition listSnapshots : M (list obj) :=
  g <- get_graph ;;
  ret (map (fun n => JsMap.delete "data" (nprops n))
         (order_by by_timestamp_desc (filter (has_label "Snapshot") (nodes g)))).

Inductive RestoreResult :=
| WouldRestore (name timestamp : value) (componentCount taskCount relationshipCount : nat)
| Restored (name timestamp : value)
    (restoredComponents restoredTasks restoredRelationships : nat).

(** [x.length] / [for (... of x)] on a value read from the payload *)
Definition array_of (v : value) : result (list value) :=
  match v with
  | VArr l => Ok l
  | _ => Throw (TypeError "not an array")
  end.

(** [restoreFromSnapshot] past the dry-run exit: [snapshot] is the stored
    record, [d] its parsed payload. *)
Definition restore_entities (o : Oracle) (snapshot d : obj) : M RestoreResult :=
  (* Clear current state (excluding change history and snapshots) *)
  cypher_detach_delete
    (fun n => negb (has_label "ChangeEvent" n || has_label "Snapshot" n)) ;;;
  (* Restore components *)
  cs <- lift (array_of (get_or_null "components" d)) ;;
  for_each (fun component =>
    c <- lift (as_object component) ;; createComponent o c [] ;;; ret tt) cs ;;;
  (* Restore tasks *)
  ts <- lift (array_of (get_or_null "tasks" d)) ;;
  for_each (fun task =>
    t <- lift (as_object task) ;; createTask o t ;;; ret tt) ts ;;;
  (* Restore relationships *)
  rs <- lift (array_of (get_or_null "relationships" d)) ;;
  for_each (fun relationship =>
    r <- lift (as_object relationship) ;; createRelationship o r ;;; ret tt) rs ;;;
  ret (Restored (get_or_null "name" snapshot) (get_or_null "timestamp" snapshot)
         (length cs) (length ts) (length rs)).

(** [JSON.parse(snapshot.data)], read as an object *)
Definition snapshot_payload (parse : string -> option value) (snapshot : obj)
    : result obj :=
  match JsMap.get "data" snapshot with
  | Some v => match JSON_parse parse v with
              | Ok data => as_object data
              | Throw e => Throw e
              end
  | None => Throw (JsError "SyntaxError")
  end.

Definition restoreFromSnapshot (o : Oracle) (parse : string -> option value)
    (snapshotId : value) (dryRun : bool) : M RestoreResult :=
  g <- get_graph ;;
  match find (matches_id "Snapshot" snapshotId) (nodes g) with
  | None => throw (JsError "Snapshot not found")
  | Some s =>
      let snapshot := nprops s in
      d <- lift (snapshot_payload parse snapshot) ;;
      if dryRun
      then
        cs <- lift (array_of (get_or_null "components" d)) ;;
        ts <- lift (array_of (get_or_null "tasks" d)) ;;
        rs <- lift (array_of (get_or_null "relationships" d)) ;;
        ret (WouldRestore (get_or_null "name" snapshot) (get_or_null "timestamp" snapshot)
               (length cs) (length ts) (length rs))
      else restore_entities o snapshot d
  end.

End Db.

(** ** The store as a state machine *)

Module Api.
Import Db.

(** The public operations of [GraphDatabase] and [ChangeHistory]. *)
Inductive Call :=
| InitializeSchema
| CreateComponent (componentData metadata : obj)
| UpdateComponent (id : value) (updates : obj)
| DeleteComponent (id : value)
| CreateRelationship (relationshipData : obj)
| CreateTask (taskData : obj)
| UpdateTaskStatus (id status progress : value)
| CreateComponents (componentsData : list obj) (metadata : obj)
| CreateRelationships (relationshipsData : list obj)
| CreateTasks (tasksData : list obj)
| CreateComment (commentData : obj)
| UpdateComment (commentId : value) (updates : obj)
| DeleteComment (commentId : value)
| RecordChange (operation entityType : string)
    (entityId beforeState afterState : value) (metadata : obj)
| CreateSnapshot (snapshotName : string) (metadata : obj)
| RestoreFromSnapshot (snapshotId : value) (dryRun : bool)
| ReplayToTimestamp (targetTimestamp : string) (dryRun : bool).

Definition after {A} (m : M A) (w : World) : World := snd (m w).

(** The world after a call, whether it returned or threw. *)
Definition exec (o : Oracle) (parse : string -> option value) (c : Call) : World -> World :=
  match c with
  | InitializeSchema => after initializeSchema
  | CreateComponent d md => after (createComponent o d md)
  | UpdateComponent i u => after (updateComponent i u)
  | DeleteComponent i => after (deleteComponent i)
  | CreateRelationship d => after (createRelationship o d)
  | CreateTask d => after (createTask o d)
  | UpdateTaskStatus i s p => after (updateTaskStatus i s p)
  | CreateComponents l md => after (createComponents o l md)
  | CreateRelationships l => after (createRelationships o l)
  | CreateTasks l => after (createTasks o l)
  | CreateComment d => after (createComment o d)
  | UpdateComment i u => after (updateComment o i u)
  | DeleteComment i => after (deleteComment i)
  | RecordChange op ty ei b a md => after (recordChange o op ty ei b a md)
  | CreateSnapshot n md => after (createSnapshot o n md)
  | RestoreFromSnapshot i dry => after (restoreFromSnapshot o parse i dry)
  | ReplayToTimestamp t dry => after (replayToTimestamp o parse t dry)
  end.

Definition exec_all (o : Oracle) (parse : string -> option value) (cs : list Call)
    (w : World) : World :=
  fold_left (fun w c => exec o parse c w) cs w.

(** A database that holds nothing. *)
Definition empty_world : World :=
  {| graph := {| nodes := []; edges := []; next_nid := 0; unique_id := [] |};
     ticks := 0 |}.

Inductive reachable (o : Oracle) (parse : string -> option value) : World -> Prop :=
| reach_empty : reachable o parse empty_world
| reach_call w c : reachable o parse w -> reachable o parse (exec o parse c w).

(** Entity sets of a graph. *)
Definition components (g : Graph) : list Node := filter (has_label "Component") (nodes g).
Definition tasks (g : Graph) : list Node := filter (has_label "Task") (nodes g).
Definition comments (g : Graph) : list Node := filter (has_label "Comment") (nodes g).
Definition snapshots (g : Graph) : list Node := filter (has_label "Snapshot") (nodes g).

End Api.

(** ** Concrete runs used by the examples below *)

Module Demo.

Fixpoint zeros (k : nat) : string :=
  match k with 0 => "" | S k' => String "0" (zeros k') end.

Definition pad (width : nat) (s : string) : string :=
  String.append (zeros (width - String.length s)) s.

(** A clock that advances by a millisecond per reading and a generator of
    well-formed identifiers. *)
Definition oracle : Oracle := {|
  time_at := fun n => ("2025-07-20T19:00:00." ++ pad 3 (string_of_nat n) ++ "Z")%string;
  uuid_at := fun n => ("00000000-0000-4000-8000-" ++ pad 12 (string_of_nat n))%string;
  get_absent_throws := true
|}.

Import Queue.

Definition cmd (i pri : string) (tt : option string) : CommandInput :=
  {| in_id := Some i; in_type := "EXECUTE_TASK"; in_source := Some "cli";
     in_priority := Some pri; in_targetComponentIds := None; in_taskType := tt |}.

(** Scenario S4: no waiters; LOW, URGENT, MEDIUM are sent in that order. *)
Definition s4_queue : CommandQueue :=
  snd (sendCommand oracle (cmd "C_med" "MEDIUM" None)
    (snd (sendCommand oracle (cmd "C_urgent" "URGENT" None)
      (snd (sendCommand oracle (cmd "C_low" "LOW" None) empty))))).


Definition only_tasks (tts : list string) : Filters :=
  {| taskTypes := Some tts; componentIds := None; priority := None |}.


(** Agent A waits for BUILD commands and nothing is pending. *)
Definition waiting_queue : CommandQueue :=
  snd (waitForCommand oracle "A" 3000 (only_tasks ["BUILD"]) empty).

End Demo.

Module DemoStore.
Import Db Api.

(** No raw string stands for JSON text in the examples. *)
Definition parse : string -> option value := fun _ => None.

Definition run (cs : list Call) : World := exec_all Demo.oracle parse cs empty_world.

Definition id_a : string := "aaaaaaaa-aaaa-4aaa-8aaa-aaaaaaaaaaaa".
Definition id_b : string := "bbbbbbbb-bbbb-4bbb-8bbb-bbbbbbbbbbbb".
Definition id_t : string := "cccccccc-cccc-4ccc-8ccc-cccccccccccc".

Definition file_a : obj :=
  [("id", VStr id_a); ("type", VStr "FILE"); ("name", VStr "a.js")].
Definition class_b : obj :=
  [("id", VStr id_b); ("type", VStr "CLASS"); ("name", VStr "K")].
Definition a_contains_b : obj :=
  [("type", VStr "CONTAINS"); ("sourceId", VStr id_a); ("targetId", VStr id_b)].
Definition task_t : obj :=
  [("id", VStr id_t); ("name", VStr "write tests"); ("status", VStr "TODO");
   ("progress", VNum (1 # 2)); ("relatedComponentIds", VArr [VStr id_a])].
Definition comment_on_a : obj :=
  [("nodeId", VStr id_a); ("content", VStr "hi"); ("author", VStr "u")].

(** Scenario S1: create, update, delete one component. *)
Definition s1_world : World :=
  run [InitializeSchema;
       CreateComponent file_a [];
       UpdateComponent (VStr id_a) [("description", VStr "root")];
       DeleteComponent (VStr id_a)].

(** Two components, an edge, a task on one of them, a comment. *)
Definition small_world : World :=
  run [InitializeSchema;
       CreateComponent file_a [];
       CreateComponent class_b [];
       CreateRelationship a_contains_b;
       CreateTask task_t;
       CreateComment comment_on_a].

(** The same, with a snapshot taken at the end. *)
Definition snapshot_world : World :=
  run [InitializeSchema;
       CreateComponent file_a [];
       CreateComponent class_b [];
       CreateRelationship a_contains_b;
       CreateTask task_t;
       CreateComment comment_on_a;
       CreateSnapshot "s" []].

(** The id the oracle gives to that snapshot. *)
Definition snapshot_id : value :=
  match snapshots (graph snapshot_world) with
  | s :: _ => prop "id" s
  | [] => VNull
  end.

(** One component and a snapshot of it. *)
Definition plain_world : World :=
  run [InitializeSchema; CreateComponent file_a []; CreateSnapshot "p" []].

Definition plain_snapshot_id : value :=
  match snapshots (graph plain_world) with
  | s :: _ => prop "id" s
  | [] => VNull
  end.

(** Two components, an edge and a task; a snapshot; then one component is
    deleted and the other one commented. *)
Definition comment_on_b : obj :=
  [("nodeId", VStr id_b); ("content", VStr "later"); ("author", VStr "u")].

Definition round_trip_start : World :=
  run [InitializeSchema;
       CreateComponent file_a [];
       CreateComponent class_b [];
       CreateRelationship a_contains_b;
       CreateTask task_t].

Definition round_trip_world : World :=
  run [InitializeSchema;
       CreateComponent file_a [];
       CreateComponent class_b [];
       CreateRelationship a_contains_b;
       CreateTask task_t;
       CreateSnapshot "r" [];
       DeleteComponent (VStr id_a);
       CreateComment comment_on_b].

Definition round_trip_snapshot : Node :=
  hd (new_node [] [] (graph empty_world)) (snapshots (graph round_trip_world)).

Definition round_trip_snapshot_id : value := prop "id" round_trip_snapshot.


End DemoStore.

(** ** command-presets.js, env-config.js, command-filter.js

    The command groups and presets, the configuration read from the
    environment, and the filter that decides which tool calls are let
    through. *)

Module Presets.

(** The own property names of [Object.prototype].  A lookup [o[k]] on a
    plain object that has no own key [k] finds, for these names, an
    inherited function or object, and [undefined] for every other name. *)
Definition object_prototype_keys : list string :=
  ["constructor"; "__defineGetter__"; "__defineSetter__"; "hasOwnProperty";
   "__lookupGetter__"; "__lookupSetter__"; "isPrototypeOf"; "propertyIsEnumerable";
   "toString"; "valueOf"; "__proto__"; "toLocaleString"].

Inductive Lookup (V : Type) :=
| Own (v : V)
| Inherited
| Absent.
Arguments Own {V} v.
Arguments Inherited {V}.
Arguments Absent {V}.

(** [o[k]] on an object literal *)
Definition lookup {V} (k : string) (o : list (string * V)) : Lookup V :=
  match JsMap.get k o with
  | Some v => Own v
  | None => if Queue.includes k object_prototype_keys then Inherited else Absent
  end.

(** Command groups organized by functionality *)
Definition COMMAND_GROUPS : list (string * list string) :=
  [("read",
     ["get_component"; "search_components"; "get_component_relationships";
      "get_dependency_tree"; "get_task"; "get_tasks"; "get_node_comments";
      "get_comment"; "get_codebase_overview"; "get_change_history";
      "list_snapshots"; "get_history_stats"; "get_waiting_agents";
      "get_pending_commands"; "get_command_history"]);
   ("components",
     ["create_component"; "create_components_bulk"; "update_component";
      "delete_component"; "get_component"; "search_components"]);
   ("tasks",
     ["create_task"; "create_tasks_bulk"; "get_task"; "get_tasks";
      "update_task_status"]);
   ("comments",
     ["create_node_comment"; "get_node_comments"; "update_comment";
      "delete_comment"; "get_comment"]);
   ("relationships",
     ["create_relationship"; "create_relationships_bulk";
      "get_component_relationships"; "get_dependency_tree"]);
   ("write",
     ["create_component"; "create_components_bulk"; "update_component";
      "delete_component"; "create_relationship"; "create_relationships_bulk";
      "create_task"; "create_tasks_bulk"; "update_task_status";
      "create_node_comment"; "update_comment"; "delete_comment"]);
   ("analysis",
     ["get_codebase_overview"; "get_dependency_tree"; "get_component_relationships";
      "search_components"; "get_change_history"; "get_history_stats"]);
   ("history",
     ["get_change_history"; "create_snapshot"; "list_snapshots"; "restore_snapshot";
      "replay_to_timestamp"; "get_history_stats"]);
   ("queue",
     ["wait_for_command"; "send_command"; "get_waiting_agents";
      "get_pending_commands"; "cancel_command"; "cancel_wait";
      "get_command_history"]);
   ("admin",
     ["delete_component"; "restore_snapshot"; "replay_to_timestamp";
      "cancel_command"; "cancel_wait"]);
   ("docs",
     ["create_node_comment"; "get_node_comments"; "update_comment"; "get_comment"]);
   ("bulk",
     ["create_components_bulk"; "create_relationships_bulk"; "create_tasks_bulk"]);
   ("linear",
     ["add_issue_relation"; "create_comment"; "create_issue"; "update_issue";
      "get_issue"; "list_issues"; "explore_cycle_issue"; "remove_issue_relation";
      "list_issue_relations"; "list_issue_comments"; "get_cycle";
      "get_cycle_issues"; "list_cycles"; "get_project"; "list_projects";
      "get_team"; "list_teams"; "get_user"; "list_users"; "get_workflow_state";
      "list_workflow_states"; "get_label"; "list_labels"; "execute_pipeline"])].

(** A preset; a field that an object does not have is [None]. *)
Record Preset := {
  description : option string;
  allowedGroups : option (list string);
  blockedGroups : option (list string);
  allowedCommands : option (list string);
  blockedCommands : option (list string)
}.

Definition preset (d : string) (ag bg ac bc : list string) : Preset :=
  {| description := Some d; allowedGroups := Some ag; blockedGroups := Some bg;
     allowedCommands := Some ac; blockedCommands := Some bc |}.

(** Predefined presets for different environments and use cases.  Nothing
    in the repository calls [createCustomPreset], the one function that
    adds to them. *)
Definition PRESETS : list (string * Preset) :=
  [("read-only",
     preset "Read-only access for analysis and reporting"
       ["read"; "analysis"] ["write"; "admin"] [] []);
   ("development",
     preset "Full access for development environment"
       ["read"; "write"; "components"; "tasks"; "relationships"; "comments";
        "analysis"; "history"; "queue"; "docs"; "bulk"] [] [] []);
   ("production",
     preset "Restricted access for production environment"
       ["read"; "analysis"; "comments"; "docs"] ["admin"; "bulk"]
       ["create_task"; "update_task_status"; "create_node_comment"]
       ["delete_component"; "restore_snapshot"; "replay_to_timestamp"]);
   ("analysis",
     preset "Analysis and reporting focused access"
       ["read"; "analysis"; "history"] ["write"; "admin"] [] []);
   ("documentation",
     preset "Documentation and commenting focused access"
       ["read"; "docs"; "comments"] ["admin"; "bulk"] ["create_task"] []);
   ("tasks",
     preset "Task management focused access"
       ["read"; "tasks"; "comments"] ["admin"; "components"; "relationships"] [] []);
   ("modeling",
     preset "Component and relationship modeling focused access"
       ["read"; "components"; "relationships"; "analysis"] ["admin"; "tasks"] [] []);
   ("linear",
     preset "Linear integration focused access"
       ["read"; "linear"; "comments"]
       ["admin"; "components"; "relationships"; "tasks"] [] []);
   ("queue",
     preset "Command queue management focused access"
       ["read"; "queue"] ["admin"; "write"] [] []);
   ("minimal",
     preset "Minimal access for testing purposes"
       ["read"] ["write"; "admin"; "bulk"] [] [])].

Definition getAvailableGroups : list string := JsMap.keys COMMAND_GROUPS.

Definition getAvailablePresets : list string := JsMap.keys PRESETS.

(** What [COMMAND_GROUPS[groupName] || []] evaluates to: the commands of a
    group, the empty array for an unknown name, or an inherited member of
    [Object.prototype], which is no array. *)
Inductive GroupCommands :=
| Commands (l : list string)
| NoArray.

Definition getGroupCommands (groupName : string) : GroupCommands :=
  match lookup groupName COMMAND_GROUPS with
  | Own l => Commands l
  | Inherited => NoArray
  | Absent => Commands []
  end.

(** [PRESETS[presetName] || null]; an inherited member of [Object.prototype]
    has none of the fields of a preset. *)
Definition getPreset (presetName : string) : option Preset :=
  match lookup presetName PRESETS with
  | Own p => Some p
  | Inherited => Some {| description := None; allowedGroups := None;
                         blockedGroups := None; allowedCommands := None;
                         blockedCommands := None |}
  | Absent => None
  end.

(** A JS [Set] of strings, in insertion order. *)
Definition set_add (x : string) (s : list string) : list string :=
  if Queue.includes x s then s else s ++ [x].

Definition set_delete (x : string) (s : list string) : list string :=
  filter (fun y => negb (String.eqb x y)) s.

Definition add_all (xs : list string) (s : list string) : list string :=
  fold_left (fun acc x => set_add x acc) xs s.

Definition delete_all (xs : list string) (s : list string) : list string :=
  fold_left (fun acc x => set_delete x acc) xs s.

Fixpoint commands_from (groupNames : list string) (commands : list string)
    : result (list string) :=
  match groupNames with
  | [] => Ok commands
  | groupName :: rest =>
      match getGroupCommands groupName with
      | Commands groupCommands => commands_from rest (add_all groupCommands commands)
      | NoArray => Throw (TypeError "groupCommands.forEach is not a function")
      end
  end.

(** Get all commands that belong to specified groups *)
Definition getCommandsFromGroups (groupNames : list string) : result (list string) :=
  commands_from groupNames [].

(** Check if a command belongs to any of the specified groups *)
Fixpoint isCommandInGroups (commandName : string) (groupNames : list string)
    : result bool :=
  match groupNames with
  | [] => Ok false
  | groupName :: rest =>
      match getGroupCommands groupName with
      | Commands l =>
          if Queue.includes commandName l then Ok true
          else isCommandInGroups commandName rest
      | NoArray => Throw (TypeError "getGroupCommands(...).includes is not a function")
      end
  end.

(** Get which groups a command belongs to *)
Definition getCommandGroups (commandName : string) : list string :=
  map fst (filter (fun gc => Queue.includes commandName (snd gc)) COMMAND_GROUPS).

Record Validation := {
  isValid : bool;
  errors : list string
}.

Definition unknown_groups (field : string) (groups : option (list string)) : list string :=
  match groups with
  | Some gs =>
      map (fun g => ("Unknown group in " ++ field ++ ": " ++ g)%string)
        (filter (fun g => negb (Queue.includes g getAvailableGroups)) gs)
  | None => []
  end.

(** Validate preset configuration; [None] is an argument that is no
    object. *)
Definition validatePreset (p : option Preset) : Validation :=
  match p with
  | None => {| isValid := false; errors := ["Preset must be an object"] |}
  | Some p =>
      let errors :=
        (match description p with
         | Some d => if truthy_str d then [] else ["Preset must have a description"]
         | None => ["Preset must have a description"]
         end)
        ++ unknown_groups "allowedGroups" (allowedGroups p)
        ++ unknown_groups "blockedGroups" (blockedGroups p) in
      {| isValid := Nat.eqb (length errors) 0; errors := errors |}
  end.

End Presets.

Module EnvConfig.

Record Config := {
  filterMode : string;
  preset : option string;
  allowedCommands : list string;
  blockedCommands : list string;
  allowedGroups : list string;
  blockedGroups : list string;
  warnUnknownFields : bool;
  strictMode : bool;
  debugFiltering : bool;
  validateConfig : bool
}.

(** [s.split(c)] for a separator of one character *)
Fixpoint split_on (c : ascii) (s : string) : list string :=
  match s with
  | EmptyString => [EmptyString]
  | String x r =>
      if Ascii.eqb x c then EmptyString :: split_on c r
      else match split_on c r with
           | h :: t => String x h :: t
           | [] => [String x EmptyString]
           end
  end.

Section Parse.
(** [String.prototype.trim], which these definitions take as a parameter. *)
Variable trim : string -> string.

(** Parse comma-separated environment variable values *)
Definition parseCommaSeparated (value : option string) : list string :=
  match value with
  | None => []
  | Some v =>
      if truthy_str v
      then filter truthy_str (map trim (split_on ","%char v))
      else []
  end.

Definition with_filterMode (m : string) (c : Config) : Config :=
  {| filterMode := m; preset := preset c;
     allowedCommands := allowedCommands c; blockedCommands := blockedCommands c;
     allowedGroups := allowedGroups c; blockedGroups := blockedGroups c;
     warnUnknownFields := warnUnknownFields c; strictMode := strictMode c;
     debugFiltering := debugFiltering c; validateConfig := validateConfig c |}.

Definition truthy_opt (s : option string) : bool :=
  match s with Some x => truthy_str x | None => false end.

(** Validate the configuration: the warnings aside, the filter mode is put
    right. *)
Definition validateConfiguration (config : Config) : Config :=
  let validFilterModes := ["whitelist"; "blacklist"; "preset"; "none"] in
  let c1 := if Queue.includes (filterMode config) validFilterModes
            then config else with_filterMode "whitelist" config in
  (* Validate preset mode requirements *)
  if String.eqb (filterMode c1) "preset" && negb (truthy_opt (preset c1))
  then with_filterMode "whitelist" c1
  else c1.

(** [process.env.NAME !== 'false'] and [process.env.NAME === 'true'] *)
Definition not_false (v : option string) : bool :=
  match v with Some s => negb (String.eqb s "false") | None => true end.
Definition is_true (v : option string) : bool :=
  match v with Some s => String.eqb s "true" | None => false end.

(** Load configuration from environment variables *)
Definition loadConfiguration (env : string -> option string) : Config :=
  let config :=
    {| filterMode := if truthy_opt (env "MCP_FILTER_MODE")
                     then match env "MCP_FILTER_MODE" with Some m => m | None => "" end
                     else "whitelist";
       preset := if truthy_opt (env "MCP_COMMAND_PRESET")
                 then env "MCP_COMMAND_PRESET" else None;
       allowedCommands := parseCommaSeparated (env "MCP_ALLOWED_COMMANDS");
       blockedCommands := parseCommaSeparated (env "MCP_BLOCKED_COMMANDS");
       allowedGroups := parseCommaSeparated (env "MCP_ALLOWED_GROUPS");
       blockedGroups := parseCommaSeparated (env "MCP_BLOCKED_GROUPS");
       warnUnknownFields := not_false (env "MCP_WARN_UNKNOWN_FIELDS");
       strictMode := is_true (env "MCP_STRICT_MODE");
       debugFiltering := is_true (env "MCP_DEBUG_FILTERING");
       validateConfig := not_false (env "MCP_VALIDATE_CONFIG") |} in
  if validateConfig config then validateConfiguration config else config.

End Parse.
End EnvConfig.

Module CommandFilter.
Import Presets EnvConfig.

(** The state of a [CommandFilterSystem]. *)
Record Filter := {
  config : Config;
  allowed : list string;         (* [this.allowedCommands], a [Set] *)
  denied : list string           (* [this.deniedCommands], a [Set] *)
}.

(** [cmds.forEach(cmd => { allowed.delete(cmd); denied.add(cmd) })] *)
Definition block (cmds : list string) (ad : list string * list string)
    : list string * list string :=
  (delete_all cmds (fst ad), add_all cmds (snd ad)).

Definition allow (cmds : list string) (ad : list string * list string)
    : list string * list string :=
  (add_all cmds (fst ad), snd ad).

(** The commands of the groups of a list that is consulted only when it is
    not empty. *)
Definition groups_if_any (groups : list string) : result (list string) :=
  match groups with
  | [] => Ok []
  | _ => getCommandsFromGroups groups
  end.

Definition groups_if_given (groups : option (list string)) : result (list string) :=
  match groups with
  | Some gs => getCommandsFromGroups gs
  | None => Ok []
  end.

Definition given (l : option (list string)) : list string :=
  match l with Some x => x | None => [] end.

(** Apply environment variable overrides to preset configuration *)
Definition applyEnvironmentOverrides (c : Config) (ad : list string * list string)
    : result (list string * list string) :=
  let ad1 := allow (allowedCommands c) ad in
  match groups_if_any (allowedGroups c) with
  | Throw e => Throw e
  | Ok groupCommands =>
      let ad2 := allow groupCommands ad1 in
      let ad3 := block (blockedCommands c) ad2 in
      match groups_if_any (blockedGroups c) with
      | Throw e => Throw e
      | Ok blockedGroupCommands => Ok (block blockedGroupCommands ad3)
      end
  end.

(** Apply preset-based filtering *)
Definition applyPresetFiltering (c : Config) (ad : list string * list string)
    : result (list string * list string) :=
  match (match EnvConfig.preset c with
         | Some name => getPreset name
         | None => getPreset "null"
         end) with
  | None => Ok ad
  | Some p =>
      match groups_if_given (Presets.allowedGroups p) with
      | Throw e => Throw e
      | Ok groupCommands =>
          let ad1 := allow groupCommands ad in
          let ad2 := allow (given (Presets.allowedCommands p)) ad1 in
          match groups_if_given (Presets.blockedGroups p) with
          | Throw e => Throw e
          | Ok blockedGroupCommands =>
              let ad3 := block blockedGroupCommands ad2 in
              let ad4 := block (given (Presets.blockedCommands p)) ad3 in
              applyEnvironmentOverrides c ad4
          end
      end
  end.

(** Apply whitelist filtering (only allow specified commands) *)
Definition applyWhitelistFiltering (c : Config) (ad : list string * list string)
    : result (list string * list string) :=
  let ad0 := ([], snd ad) in
  match groups_if_any (allowedGroups c) with
  | Throw e => Throw e
  | Ok groupCommands =>
      let ad1 := allow groupCommands ad0 in
      let ad2 := allow (allowedCommands c) ad1 in
      match groups_if_any (blockedGroups c) with
      | Throw e => Throw e
      | Ok blockedGroupCommands =>
          let ad3 := block blockedGroupCommands ad2 in
          Ok (block (blockedCommands c) ad3)
      end
  end.

(** Apply blacklist filtering (block specified commands, allow everything
    else) *)
Definition applyBlacklistFiltering (c : Config) (ad : list string * list string)
    : result (list string * list string) :=
  let ad0 := (fst ad, []) in
  match groups_if_any (blockedGroups c) with
  | Throw e => Throw e
  | Ok blockedGroupCommands =>
      let denied1 := add_all blockedGroupCommands (snd ad0) in
      Ok (fst ad0, add_all (blockedCommands c) denied1)
  end.

(** Build the allowed and denied command sets based on configuration *)
Definition buildCommandSets (c : Config) : result (list string * list string) :=
  let ad := ([], []) in
  if String.eqb (filterMode c) "none" then Ok ad
  else if String.eqb (filterMode c) "preset" then applyPresetFiltering c ad
  else if String.eqb (filterMode c) "whitelist" then applyWhitelistFiltering c ad
  else if String.eqb (filterMode c) "blacklist" then applyBlacklistFiltering c ad
  else applyWhitelistFiltering c ad.

(** [new CommandFilterSystem(configOverrides)] *)
Definition new (c : Config) : result Filter :=
  match buildCommandSets c with
  | Ok ad => Ok {| config := c; allowed := fst ad; denied := snd ad |}
  | Throw e => Throw e
  end.

(** Check if a command is allowed *)
Definition isCommandAllowed (f : Filter) (commandName : string) : bool :=
  if String.eqb (filterMode (config f)) "none" then true
  else if String.eqb (filterMode (config f)) "blacklist"
       then negb (Queue.includes commandName (denied f))
       else Queue.includes commandName (allowed f).

(** Get the reason why a command was allowed or denied *)
Definition getFilterReason (f : Filter) (commandName : string) (is_allowed : bool)
    : string :=
  let mode := filterMode (config f) in
  if String.eqb mode "none" then "No filtering enabled"
  else if is_allowed
  then if Queue.includes commandName (allowed f) then "Command explicitly allowed"
       else if String.eqb mode "blacklist" then "Command not in blacklist"
       else "Command allowed by default"
  else if Queue.includes commandName (denied f) then "Command explicitly denied"
       else if String.eqb mode "whitelist" || String.eqb mode "preset"
            then "Command not in whitelist"
            else "Command denied by default".

Record FilterResult := {
  commandName : string;
  r_allowed : bool;
  reason : string;
  commandGroups : list string;
  r_filterMode : string;
  warnings : list (list string)       (* the unknown fields of each warning *)
}.

(** What [validateCommand] does: it returns the filter result, or throws an
    [Error] with this message, the code [COMMAND_FILTERED] and the filter
    result. *)
Inductive Validated :=
| Returns (r : FilterResult)
| COMMAND_FILTERED (message : string) (filterResult : FilterResult).

Section Fields.
(** [s.length], which these definitions take as a parameter. *)
Variable js_length : string -> nat.

(** Check for unknown fields in command arguments; [args] are the keys of
    the argument object. *)
Definition checkUnknownFields (args : list string) : list string :=
  let commonFields := ["id"; "name"; "description"; "type"; "metadata"] in
  filter (fun field => negb (Queue.includes field commonFields)
                       && Nat.ltb 50 (js_length field)) args.

(** Filter a command and return result with details *)
Definition filterCommand (f : Filter) (name : string) (args : list string)
    : FilterResult :=
  let is_allowed := isCommandAllowed f name in
  {| commandName := name;
     r_allowed := is_allowed;
     reason := getFilterReason f name is_allowed;
     commandGroups := getCommandGroups name;
     r_filterMode := filterMode (config f);
     warnings := if warnUnknownFields (config f)
                 then match checkUnknownFields args with
                      | [] => []
                      | unknownFields => [unknownFields]
                      end
                 else [] |}.

(** Validate command against filter and throw error if not allowed *)
Definition validateCommand (f : Filter) (name : string) (args : list string)
    : Validated :=
  let r := filterCommand f name args in
  if r_allowed r then Returns r
  else COMMAND_FILTERED
         ("Command '" ++ name ++ "' is not allowed: " ++ reason r) r.

End Fields.
End CommandFilter.

(** Configurations of the test suite of the command filter. *)
Module DemoFilter.
Import EnvConfig CommandFilter.

Definition whitelist_config : Config :=
  {| filterMode := "whitelist"; preset := None;
     allowedCommands := ["create_task"]; blockedCommands := [];
     allowedGroups := ["read"]; blockedGroups := [];
     warnUnknownFields := false; strictMode := false;
     debugFiltering := false; validateConfig := false |}.

Definition blacklist_config : Config :=
  {| filterMode := "blacklist"; preset := None;
     allowedCommands := []; blockedCommands := ["create_task"];
     allowedGroups := []; blockedGroups := ["admin"];
     warnUnknownFields := false; strictMode := false;
     debugFiltering := false; validateConfig := false |}.

Definition override_config : Config :=
  {| filterMode := "preset"; preset := Some "read-only";
     allowedCommands := ["create_task"]; blockedCommands := ["get_component"];
     allowedGroups := []; blockedGroups := [];
     warnUnknownFields := false; strictMode := false;
     debugFiltering := false; validateConfig := false |}.

(** A preset that does not exist, with a command allowed by the
    environment. *)
Definition unknown_preset_config : Config :=
  {| filterMode := "preset"; preset := Some "readonly";
     allowedCommands := ["get_component"]; blockedCommands := [];
     allowedGroups := ["read"]; blockedGroups := [];
     warnUnknownFields := true; strictMode := false;
     debugFiltering := false; validateConfig := true |}.

(** The filter that [new] builds, or an empty one where it throws. *)
Definition built (c : Config) : Filter :=
  match new c with
  | Ok f => f
  | Throw _ => {| config := c; allowed := []; denied := [] |}
  end.

(** No variable is set. *)
Definition empty_env : string -> option string := fun _ => None.

End DemoFilter.

(** * Properties of the command broker *)

Module QueueProps.
Import Queue.





(** *** The waiter registry and the promises *)

Lemma get_delete_same {V} k (m : list (string * V)) : JsMap.get k (JsMap.delete k m) = None.
Proof.
  induction m as [|[k' v] m IH]; simpl; auto.
  destruct (String.eqb k k') eqn:E; simpl; auto. rewrite E. auto.
Qed.

Lemma get_delete_other {V} k k' (m : list (string * V)) :
  k <> k' -> JsMap.get k' (JsMap.delete k m) = JsMap.get k' m.
Proof.
  intros Hne. induction m as [|[k0 v] m IH]; simpl; auto.
  destruct (String.eqb k k0) eqn:E; simpl.
  - apply String.eqb_eq in E. subst k0.
    destruct (String.eqb k' k) eqn:E'; auto.
    apply String.eqb_eq in E'. congruence.
  - rewrite IH. reflexivity.
Qed.

Lemma get_set_same {V} k (v : V) m : JsMap.get k (JsMap.set k v m) = Some v.
Proof.
  induction m as [|[k0 v0] m IH]; simpl.
  - rewrite String.eqb_refl. reflexivity.
  - destruct (String.eqb k k0) eqn:E; simpl; rewrite E; auto.
Qed.

Lemma get_set_other {V} k k' (v : V) m :
  k <> k' -> JsMap.get k' (JsMap.set k v m) = JsMap.get k' m.
Proof.
  intros Hne. induction m as [|[k0 v0] m IH]; simpl.
  - destruct (String.eqb k' k) eqn:E; auto.
    apply String.eqb_eq in E. congruence.
  - destruct (String.eqb k k0) eqn:E; simpl.
    + apply String.eqb_eq in E. subst k0.
      destruct (String.eqb k' k) eqn:E'; auto.
      apply String.eqb_eq in E'. congruence.
    + rewrite IH. reflexivity.
Qed.

(** A wait is ACTIVE: promise [p] was handed to [agentId] and is unsettled. *)
Definition active (p : nat) (agentId : string) (q : CommandQueue) : Prop :=
  nth_error (waits q) p = Some agentId /\ is_settled p q = false.

Record Inv (q : CommandQueue) : Prop := {
  inv_registered : forall a w, JsMap.get a (waitingAgents q) = Some w ->
      active (promise w) a q;
  inv_active : forall p a, active p a q ->
      exists w, JsMap.get a (waitingAgents q) = Some w /\ promise w = p;
  inv_settled : forall p, is_settled p q = true -> p < length (waits q);
  inv_max : maxHistorySize q = 1000
}.

(** What [addToHistory] leaves alone. *)
Lemma addToHistory_frame o act ag d q :
  let q' := addToHistory o act ag d q in
  pendingCommands q' = pendingCommands q /\ waitingAgents q' = waitingAgents q /\
  waits q' = waits q /\ settled q' = settled q /\ maxHistorySize q' = maxHistorySize q.
Proof. unfold addToHistory, now. simpl. auto. Qed.

Lemma is_settled_addToHistory o act ag d q p :
  is_settled p (addToHistory o act ag d q) = is_settled p q.
Proof. reflexivity. Qed.

Lemma is_settled_settle p p' oc q :
  is_settled p' (settle p oc q) = is_settled p' q || Nat.eqb p p'.
Proof.
  unfold is_settled, settle. simpl.
  destruct (existsb (fun x => Nat.eqb (fst x) p) (settled q)) eqn:E.
  - destruct (Nat.eqb p p') eqn:E'.
    + apply Nat.eqb_eq in E'. subst. rewrite E. reflexivity.
    + rewrite orb_false_r. reflexivity.
  - rewrite existsb_app. simpl. rewrite orb_false_r. reflexivity.
Qed.

(** Removing an agent's entry and settling its promise keeps the invariant;
    this is what [resolve], [reject] and the timer do. *)
Lemma Inv_retire q q1 a w oc :
  Inv q -> JsMap.get a (waitingAgents q) = Some w ->
  waitingAgents q1 = JsMap.delete a (waitingAgents q) ->
  waits q1 = waits q -> settled q1 = settled q ->
  maxHistorySize q1 = maxHistorySize q ->
  Inv (settle (promise w) oc q1).
Proof.
  intros [Hr Ha Hs Hm] Hw E1 E2 E3 E4.
  destruct (Hr _ _ Hw) as [Hnth Hun].
  assert (Hset : forall p, is_settled p q1 = is_settled p q)
    by (intros p; unfold is_settled; rewrite E3; reflexivity).
  constructor; unfold active.
  - intros a' w' Hget. simpl in Hget. rewrite E1 in Hget.
    destruct (String.eqb a a') eqn:E.
    + apply String.eqb_eq in E. subst. rewrite get_delete_same in Hget. discriminate.
    + apply String.eqb_neq in E. rewrite get_delete_other in Hget by assumption.
      destruct (Hr _ _ Hget) as [Hn' Hu'].
      simpl. rewrite E2. split; [exact Hn'|].
      rewrite is_settled_settle, Hset, Hu'. simpl.
      apply Nat.eqb_neq. intros Heq. rewrite Heq in Hnth. congruence.
  - intros p a' [Hn Hu]. simpl in Hn. rewrite E2 in Hn.
    rewrite is_settled_settle, Hset in Hu.
    apply orb_false_iff in Hu. destruct Hu as [Hu Hne].
    destruct (Ha p a' (conj Hn Hu)) as (w' & Hget & Hp).
    exists w'. split; [|exact Hp]. simpl. rewrite E1.
    destruct (String.eqb a a') eqn:E.
    + apply String.eqb_eq in E. subst a'.
      rewrite Hw in Hget. injection Hget as <-.
      apply Nat.eqb_neq in Hne. congruence.
    + apply String.eqb_neq in E. rewrite get_delete_other by assumption. exact Hget.
  - intros p Hp. rewrite is_settled_settle, Hset in Hp. simpl. rewrite E2.
    apply orb_true_iff in Hp. destruct Hp as [Hp|Hp].
    + apply Hs. exact Hp.
    + apply Nat.eqb_eq in Hp. subst p.
      apply nth_error_Some. rewrite Hnth. discriminate.
  - simpl. rewrite E4. exact Hm.
Qed.

Lemma Inv_agent_reject o q a w msg :
  Inv q -> JsMap.get a (waitingAgents q) = Some w -> Inv (agent_reject o a w msg q).
Proof. intros HI Hw. unfold agent_reject. apply (Inv_retire q _ a w); auto. Qed.

Lemma Inv_agent_resolve o q a w c :
  Inv q -> JsMap.get a (waitingAgents q) = Some w -> Inv (agent_resolve o a w c q).
Proof. intros HI Hw. unfold agent_resolve. apply (Inv_retire q _ a w); auto. Qed.

(** States that differ in the queue, the history, the events and the
    oracle counter only. *)
Lemma Inv_frame q q' :
  waitingAgents q' = waitingAgents q -> waits q' = waits q ->
  settled q' = settled q -> maxHistorySize q' = maxHistorySize q ->
  Inv q -> Inv q'.
Proof.
  intros Hw Hp Hs Hm [Hr Ha Hst Hmx].
  unfold active, is_settled in *.
  constructor; unfold active, is_settled; rewrite ?Hw, ?Hp, ?Hs, ?Hm; auto.
Qed.

Lemma Inv_register q q' a w :
  Inv q -> JsMap.get a (waitingAgents q) = None ->
  waitingAgents q' = JsMap.set a w (waitingAgents q) ->
  waits q' = waits q ++ [a] -> settled q' = settled q ->
  maxHistorySize q' = maxHistorySize q ->
  promise w = length (waits q) ->
  Inv q'.
Proof.
  intros [Hr Ha Hs Hm] Hnone E1 E2 E3 E4 Hp.
  assert (Hset : forall p, is_settled p q' = is_settled p q)
    by (intros p; unfold is_settled; rewrite E3; reflexivity).
  assert (Hfresh : is_settled (length (waits q)) q = false).
  { destruct (is_settled (length (waits q)) q) eqn:E; auto.
    apply Hs in E. lia. }
  constructor; unfold active.
  - intros a' w' Hget. rewrite E1 in Hget. rewrite E2, Hset.
    destruct (String.eqb a a') eqn:E.
    + apply String.eqb_eq in E. subst a'. rewrite get_set_same in Hget.
      injection Hget as <-. rewrite Hp. split; [|exact Hfresh].
      rewrite nth_error_app2 by lia. rewrite Nat.sub_diag. reflexivity.
    + apply String.eqb_neq in E. rewrite get_set_other in Hget by assumption.
      destruct (Hr _ _ Hget) as [Hn Hu]. split; [|exact Hu].
      rewrite nth_error_app1; [exact Hn|].
      apply nth_error_Some. rewrite Hn. discriminate.
  - intros p a' [Hn Hu]. rewrite E2 in Hn. rewrite Hset in Hu. rewrite E1.
    destruct (Nat.lt_ge_cases p (length (waits q))) as [Hlt|Hge].
    + rewrite nth_error_app1 in Hn by assumption.
      destruct (Ha p a' (conj Hn Hu)) as (w' & Hget & Hpw).
      exists w'. split; [|exact Hpw].
      rewrite get_set_other; [exact Hget|].
      intros ->. congruence.
    + rewrite nth_error_app2 in Hn by assumption.
      destruct (p - length (waits q)) as [|k] eqn:Ek; simpl in Hn.
      * injection Hn as <-. exists w. rewrite get_set_same. split; [reflexivity|lia].
      * destruct k; discriminate.
  - intros p Hps. rewrite Hset in Hps. rewrite E2, length_app. simpl.
    apply Hs in Hps. lia.
  - rewrite E4. exact Hm.
Qed.

Lemma Inv_empty : Inv empty.
Proof.
  constructor; unfold active; simpl; try discriminate; auto.
  intros p a [H _]. destruct p; discriminate.
Qed.

Lemma Inv_waitForCommand o a ms f q :
  Inv q -> Inv (snd (waitForCommand o a ms f q)).
Proof.
  intros HI. unfold waitForCommand.
  destruct (findMatchingPendingCommand f q) as [c|].
  - simpl. eapply Inv_frame; [..|exact HI]; reflexivity.
  - set (q1 := match JsMap.get a (waitingAgents q) with
               | Some existing => agent_reject o a existing superseded_message q
               | None => q
               end).
    assert (H1 : Inv q1 /\ JsMap.get a (waitingAgents q1) = None).
    { subst q1. destruct (JsMap.get a (waitingAgents q)) as [w|] eqn:Hg.
      - split; [apply Inv_agent_reject; assumption|].
        simpl. apply get_delete_same.
      - auto. }
    destruct H1 as [HI1 Hnone].
    simpl.
    eapply (Inv_register q1 _ a); [exact HI1|exact Hnone|..]; reflexivity.
Qed.


Lemma Inv_sendCommand o c q : Inv q -> Inv (snd (sendCommand o c q)).
Proof.
  intros HI. unfold sendCommand.
  set (r := match in_id c with
            | Some i => if truthy_str i then (i, q) else generateCommandId o q
            | None => generateCommandId o q
            end).
  assert (Hr : Inv (snd r) /\ waitingAgents (snd r) = waitingAgents q).
  { subst r. destruct (in_id c) as [i|]; [destruct (truthy_str i)|]; simpl;
      (split; [|reflexivity]); try exact HI;
      apply (Inv_frame q); auto. }
  destruct r as [cid q1]. simpl in Hr. destruct Hr as [HI1 Hw1].
  cbn [now fst snd].
  set (q2 := with_reads (S (reads q1)) q1).
  assert (HI2 : Inv q2) by (eapply Inv_frame; [..|exact HI1]; reflexivity).
  match goal with |- context [findMatchingWaitingAgent ?cmd q2] =>
    destruct (findMatchingWaitingAgent cmd q2) as [a|] eqn:Hf end.
  - destruct (JsMap.get a (waitingAgents q2)) as [w|] eqn:Hg; simpl.
    + eapply Inv_frame; [..|apply (Inv_agent_resolve o q2 a w); eassumption]; reflexivity.
    + exact HI2.
  - simpl. eapply Inv_frame; [..|exact HI2]; reflexivity.
Qed.

Lemma Inv_step o q q' : step o q q' -> Inv q -> Inv q'.
Proof.
  intros Hs HI. destruct Hs.
  - apply Inv_waitForCommand; assumption.
  - apply Inv_sendCommand; assumption.
  - unfold cancelCommand. destruct (JsMap.get cid (pendingCommands q)); simpl; auto.
    eapply Inv_frame; [..|exact HI]; reflexivity.
  - unfold cancelWait. destruct (JsMap.get agentId (waitingAgents q)) eqn:Hg; simpl; auto.
    apply Inv_agent_reject; assumption.
  - unfold timeoutFires. apply (Inv_retire q _ agentId w); auto.
  - eapply Inv_frame; [..|exact HI]; reflexivity.
Qed.

Lemma reachable_Inv o q : reachable o q -> Inv q.
Proof.
  induction 1 as [|q q' _ IH Hs]; [apply Inv_empty|].
  eapply Inv_step; eassumption.
Qed.


(** *** The bounded history keeps its newest entries *)

Lemma addToHistory_last o act ag d q :
  1 <= maxHistorySize q ->
  exists l, commandHistory (addToHistory o act ag d q)
            = l ++ [{| h_timestamp := time_at o (reads q); action := act;
                       h_agentId := ag; data := d |}].
Proof.
  intros Hm. unfold addToHistory, now. simpl.
  set (e := {| h_timestamp := _ |}).
  destruct (Nat.ltb (maxHistorySize q) (length (commandHistory q ++ [e]))) eqn:E.
  - rewrite skipn_app. rewrite length_app in *. simpl in *.
    apply Nat.ltb_lt in E.
    replace (length (commandHistory q) + 1 - maxHistorySize q - length (commandHistory q))
      with 0 by lia.
    simpl. eauto.
  - eauto.
Qed.


Lemma outcome_of_settle p oc q :
  is_settled p q = false -> outcome_of p (settle p oc q) = Some oc.
Proof.
  unfold is_settled, outcome_of, settle. simpl. intros H. rewrite H.
  induction (settled q) as [|[p' o'] l IH]; simpl in *.
  - rewrite Nat.eqb_refl. reflexivity.
  - apply orb_false_iff in H. destruct H as [H1 H2]. rewrite H1. auto.
Qed.





End QueueProps.

(** * Further properties of the command broker *)

Module BrokerProps.
Import Queue QueueProps.

(** *** Entries of a [Map] after [set] and [delete] *)

Lemma in_set {V} k (v : V) m kv :
  In kv (JsMap.set k v m) -> kv = (k, v) \/ In kv m.
Proof.
  induction m as [|[k' v'] m IH]; simpl.
  - intros [<-|[]]. auto.
  - destruct (String.eqb k k') eqn:E; simpl.
    + apply String.eqb_eq in E. subst k'. intros [<-|H]; auto.
    + intros [<-|H]; auto. destruct (IH H); auto.
Qed.

Lemma in_delete {V} k (m : list (string * V)) kv :
  In kv (JsMap.delete k m) -> In kv m /\ fst kv <> k.
Proof.
  induction m as [|[k' v'] m IH]; simpl; [tauto|].
  destruct (String.eqb k k') eqn:E; simpl.
  - intros H. destruct (IH H). auto.
  - intros [<-|H].
    + split; auto. simpl. intros ->. rewrite String.eqb_refl in E. discriminate.
    + destruct (IH H). auto.
Qed.


Lemma in_values {V} (m : list (string * V)) v :
  In v (JsMap.values m) -> exists k, In (k, v) m.
Proof.
  unfold JsMap.values. intros H. apply in_map_iff in H.
  destruct H as ([k v'] & <- & H). eauto.
Qed.


(** The id and the time stamp that [sendCommand] gives to a command. *)
Definition sent_id (o : Oracle) (c : CommandInput) (q : CommandQueue) : string :=
  match in_id c with
  | Some i => if truthy_str i then i else uuid_at o (reads q)
  | None => uuid_at o (reads q)
  end.

(** *** What each operation does to the two maps *)

Ltac send_cases o c q :=
  unfold sendCommand;
  let r := fresh "r" in
  set (r := match in_id c with
            | Some i => if truthy_str i then (i, q) else generateCommandId o q
            | None => generateCommandId o q
            end);
  let Hr := fresh "Hr" in
  assert (Hr : fst r = sent_id o c q /\
               pendingCommands (snd r) = pendingCommands q /\
               waitingAgents (snd r) = waitingAgents q /\
               commandHistory (snd r) = commandHistory q /\
               maxHistorySize (snd r) = maxHistorySize q /\
               settled (snd r) = settled q /\ waits (snd r) = waits q)
    by (subst r; unfold sent_id; destruct (in_id c) as [i|];
        [destruct (truthy_str i)|]; simpl; auto 10);
  let cid := fresh "cid" in
  let q1 := fresh "q1" in
  destruct r as [cid q1]; cbn [fst snd] in Hr;
  destruct Hr as (Hcid & Hp1 & Hw1 & Hh1 & Hm1 & Hs1 & Hws1);
  cbn [now fst snd].








(** *** The bounded history *)

Definition hist_ok (q : CommandQueue) : Prop :=
  length (commandHistory q) <= maxHistorySize q.

Lemma hist_ok_addToHistory o act ag d q : hist_ok (addToHistory o act ag d q).
Proof.
  unfold hist_ok, addToHistory, now. cbn [commandHistory maxHistorySize with_history with_reads].
  set (h := commandHistory q ++ _).
  destruct (Nat.ltb (maxHistorySize q) (length h)) eqn:E.
  - apply Nat.ltb_lt in E. rewrite length_skipn. lia.
  - apply Nat.ltb_ge in E. exact E.
Qed.

Lemma hist_ok_frame q q' :
  commandHistory q' = commandHistory q -> maxHistorySize q' = maxHistorySize q ->
  hist_ok q -> hist_ok q'.
Proof. unfold hist_ok. intros -> ->. auto. Qed.

Lemma hist_ok_step o q q' : step o q q' -> hist_ok q -> hist_ok q'.
Proof.
  intros Hs Hb. destruct Hs.
  - unfold waitForCommand.
    destruct (findMatchingPendingCommand f q); cbn [snd].
    + apply hist_ok_addToHistory.
    + cbn [new_promise now fst snd].
      match goal with |- hist_ok (emit _ (addToHistory ?o ?a ?g ?d ?q0)) =>
        apply (hist_ok_frame (addToHistory o a g d q0));
          [reflexivity|reflexivity|apply hist_ok_addToHistory] end.
  - send_cases o c q.
    match goal with |- context [findMatchingWaitingAgent ?cmd ?q2] =>
      destruct (findMatchingWaitingAgent cmd q2) as [a|] end.
    + destruct (JsMap.get a _) as [w|]; cbn [snd].
      * apply hist_ok_addToHistory.
      * apply (hist_ok_frame q); auto.
    + cbn [snd].
      match goal with |- hist_ok (emit _ (addToHistory ?o ?a ?g ?d ?q0)) =>
        apply (hist_ok_frame (addToHistory o a g d q0));
          [reflexivity|reflexivity|apply hist_ok_addToHistory] end.
  - unfold cancelCommand. destruct (JsMap.get cid (pendingCommands q)); [|exact Hb].
    apply hist_ok_addToHistory.
  - unfold cancelWait. destruct (JsMap.get agentId (waitingAgents q)); [|exact Hb].
    cbn [snd]. unfold agent_reject.
    match goal with |- hist_ok (settle _ _ (addToHistory ?o ?a ?g ?d ?q0)) =>
      apply (hist_ok_frame (addToHistory o a g d q0));
        [reflexivity|reflexivity|apply hist_ok_addToHistory] end.
  - apply (hist_ok_frame q); auto.
  - unfold hist_ok. cbn. lia.
Qed.

Lemma reachable_hist_ok o q : reachable o q -> hist_ok q.
Proof.
  induction 1 as [|q q' _ IH Hs]; [unfold hist_ok; cbn; lia|].
  eapply hist_ok_step; eassumption.
Qed.

(** X2: the history is a bounded buffer.  In every reachable state it holds
    at most 1000 entries; recording one more appends it and, when the
    buffer is full, drops the oldest entry.  [getHistory(limit)] returns the
    newest [limit] entries, all of them when there are fewer, and the
    whole history when [limit] is 0. *)
Theorem X2_history_is_bounded_and_keeps_the_newest o q :
  reachable o q ->
  length (commandHistory q) <= 1000 /\
  (forall act ag d,
     commandHistory (addToHistory o act ag d q)
     = (if Nat.ltb (length (commandHistory q)) 1000
        then commandHistory q else tl (commandHistory q))
       ++ [{| h_timestamp := time_at o (reads q); action := act;
              h_agentId := ag; data := d |}]) /\
  (forall limit, 0 < limit ->
     length (getHistory limit q) = Nat.min limit (length (commandHistory q)) /\
     exists older, commandHistory q = older ++ getHistory limit q) /\
  getHistory 0 q = commandHistory q.
Proof.
  intros Hr.
  pose proof (reachable_hist_ok o q Hr) as Hb.
  pose proof (inv_max q (reachable_Inv o q Hr)) as Hm.
  unfold hist_ok in Hb. rewrite Hm in Hb.
  split; [exact Hb|]. split; [|split; [|reflexivity]].
  - intros act ag d. unfold addToHistory, now.
    cbn [commandHistory maxHistorySize with_history with_reads reads].
    rewrite Hm. rewrite length_app. cbn [length].
    destruct (Nat.ltb (length (commandHistory q)) 1000) eqn:E.
    + apply Nat.ltb_lt in E.
      destruct (Nat.ltb 1000 (length (commandHistory q) + 1)) eqn:E';
        [apply Nat.ltb_lt in E'; lia|reflexivity].
    + apply Nat.ltb_ge in E.
      assert (Hl : length (commandHistory q) = 1000) by lia.
      rewrite Hl. change (Nat.ltb 1000 (1000 + 1)) with true. cbv iota.
      replace (1000 + 1 - 1000) with 1 by lia.
      destruct (commandHistory q) as [|e h]; [discriminate|reflexivity].
  - intros limit Hl. unfold getHistory. destruct limit as [|n]; [lia|].
    split.
    + rewrite length_skipn. lia.
    + exists (firstn (length (commandHistory q) - S n) (commandHistory q)).
      symmetry. apply firstn_skipn.
Qed.

(** The theorem at the demo state of scenario S4, whose history holds the
    three COMMAND_QUEUED entries. *)
Lemma X2_history_witness :
  length (commandHistory Demo.s4_queue) <= 1000 /\
  length (getHistory 2 Demo.s4_queue) = 2.
Proof.
  destruct (X2_history_is_bounded_and_keeps_the_newest Demo.oracle Demo.s4_queue)
    as (Hb & _ & Hg & _).
  - repeat (eapply reach_step; [|apply step_send]). apply reach_empty.
  - split; [exact Hb|]. destruct (Hg 2) as [Hlen _]; [lia|]. exact Hlen.
Defined.

(** *** The two maps are maps *)

Lemma keys_delete {V} k (m : list (string * V)) k' :
  In k' (JsMap.keys (JsMap.delete k m)) -> In k' (JsMap.keys m).
Proof.
  unfold JsMap.keys. intros H. apply in_map_iff in H. destruct H as (kv & <- & H).
  apply in_delete in H. apply in_map. tauto.
Qed.

Lemma nodup_keys_delete {V} k (m : list (string * V)) :
  NoDup (JsMap.keys m) -> NoDup (JsMap.keys (JsMap.delete k m)).
Proof.
  induction m as [|[k' v'] m IH]; simpl; [auto|].
  intros H. inversion H as [|x l Hn Hd]; subst.
  destruct (String.eqb k k'); [auto|].
  simpl. constructor; [|auto]. intros Hin. apply Hn. eapply keys_delete. exact Hin.
Qed.

Lemma keys_set {V} k (v : V) m k' :
  In k' (JsMap.keys (JsMap.set k v m)) -> k' = k \/ In k' (JsMap.keys m).
Proof.
  unfold JsMap.keys. intros H. apply in_map_iff in H. destruct H as (kv & <- & H).
  apply in_set in H. destruct H as [->|H]; [auto|]. right. apply in_map. exact H.
Qed.

Lemma nodup_keys_set {V} k (v : V) m :
  NoDup (JsMap.keys m) -> NoDup (JsMap.keys (JsMap.set k v m)).
Proof.
  induction m as [|[k' v'] m IH]; simpl.
  - intros _. constructor; [simpl; tauto|constructor].
  - intros H. inversion H as [|x l Hn Hd]; subst.
    destruct (String.eqb k k') eqn:E; simpl.
    + constructor; assumption.
    + constructor; [|auto]. intros Hin. apply keys_set in Hin.
      destruct Hin as [->|Hin]; [|auto].
      rewrite String.eqb_refl in E. discriminate.
Qed.



(** Every pending command is filed under its own id, and no agent is
    registered twice. *)
Record MapsOk (q : CommandQueue) : Prop := {
  pending_keyed : forall k c, In (k, c) (pendingCommands q) -> id c = k;
  waiting_nodup : NoDup (JsMap.keys (waitingAgents q))
}.

Lemma MapsOk_sub q q' :
  (forall kc, In kc (pendingCommands q') -> In kc (pendingCommands q)) ->
  NoDup (JsMap.keys (waitingAgents q')) ->
  MapsOk q -> MapsOk q'.
Proof.
  intros Hp Hw [Hk _]. split; [|exact Hw]. intros k c H. apply Hk. apply Hp. exact H.
Qed.

Lemma MapsOk_step o q q' : step o q q' -> MapsOk q -> MapsOk q'.
Proof.
  intros Hs Hm. pose proof (waiting_nodup q Hm) as Hn. destruct Hs.
  - unfold waitForCommand.
    destruct (findMatchingPendingCommand f q) as [c|]; cbn [snd].
    + apply (MapsOk_sub q); auto. intros kc H. cbn in H. apply in_delete in H. tauto.
    + set (q1 := match JsMap.get agentId (waitingAgents q) with
                 | Some existing => agent_reject o agentId existing superseded_message q
                 | None => q
                 end).
      assert (H1 : pendingCommands q1 = pendingCommands q /\
                   NoDup (JsMap.keys (waitingAgents q1))).
      { subst q1. destruct (JsMap.get agentId (waitingAgents q)); [|auto].
        split; [reflexivity|]. cbn. apply nodup_keys_delete. exact Hn. }
      destruct H1 as [Hp1 Hn1].
      apply (MapsOk_sub q); auto.
      * intros kc H. cbn in H. rewrite Hp1 in H. exact H.
      * cbn. apply nodup_keys_set. exact Hn1.
  - send_cases o c q.
    match goal with |- context [findMatchingWaitingAgent ?cmd ?q2] =>
      destruct (findMatchingWaitingAgent cmd q2) as [a|] end.
    + destruct (JsMap.get a _) as [w|]; cbn [snd].
      * apply (MapsOk_sub q); auto.
        -- intros kc H. cbn in H. rewrite Hp1 in H. exact H.
        -- cbn. rewrite Hw1. apply nodup_keys_delete. exact Hn.
      * apply (MapsOk_sub q); auto.
        -- intros kc H. cbn in H. rewrite Hp1 in H. exact H.
        -- cbn. rewrite Hw1. exact Hn.
    + split.
      * cbn. intros k c' Hin. apply in_set in Hin. destruct Hin as [[= -> ->]|Hin].
        -- reflexivity.
        -- rewrite Hp1 in Hin. apply (pending_keyed q Hm). exact Hin.
      * cbn. rewrite Hw1. exact Hn.
  - unfold cancelCommand. destruct (JsMap.get cid (pendingCommands q)); [|exact Hm].
    cbn [snd]. apply (MapsOk_sub q); auto.
    intros kc H. cbn in H. apply in_delete in H. tauto.
  - unfold cancelWait. destruct (JsMap.get agentId (waitingAgents q)); [|exact Hm].
    cbn [snd]. apply (MapsOk_sub q); auto. cbn. apply nodup_keys_delete. exact Hn.
  - apply (MapsOk_sub q); auto. cbn. apply nodup_keys_delete. exact Hn.
  - apply (MapsOk_sub q); auto.
Qed.

Lemma reachable_MapsOk o q : reachable o q -> MapsOk q.
Proof.
  induction 1 as [|q q' _ IH Hs].
  - split; [intros k c []|constructor].
  - eapply MapsOk_step; eassumption.
Qed.

(** *** sendCommand *)








(** *** Cancelling *)

(** X6: [cancelCommand] removes exactly the pending command filed under the
    id: it returns true, no other pending command and no waiting agent
    changes, a COMMAND_CANCELLED entry closes the history, and no later
    wait returns a command with that id.  For an id that is not pending it
    returns false and changes nothing. *)
Theorem X6_cancelCommand_removes_exactly_that_command o cid q :
  reachable o q ->
  match JsMap.get cid (pendingCommands q) with
  | Some c =>
      let r := cancelCommand o cid q in
      fst r = true /\
      JsMap.get cid (pendingCommands (snd r)) = None /\
      (forall k, k <> cid ->
         JsMap.get k (pendingCommands (snd r)) = JsMap.get k (pendingCommands q)) /\
      waitingAgents (snd r) = waitingAgents q /\
      (exists l, commandHistory (snd r)
                 = l ++ [{| h_timestamp := time_at o (reads q);
                            action := "COMMAND_CANCELLED"; h_agentId := None;
                            data := DCommand c |}]) /\
      (forall a ms f c',
         fst (waitForCommand o a ms f (snd r)) = Returned c' -> id c' <> cid)
  | None => cancelCommand o cid q = (false, q)
  end.
Proof.
  intros Hr. pose proof (reachable_Inv o q Hr) as HI.
  pose proof (reachable_MapsOk o q Hr) as HM.
  unfold cancelCommand.
  destruct (JsMap.get cid (pendingCommands q)) as [c|] eqn:Hg; [|reflexivity].
  cbv zeta. cbn [fst snd].
  set (q0 := with_pending (JsMap.delete cid (pendingCommands q)) q).
  destruct (addToHistory_frame o "COMMAND_CANCELLED" None (DCommand c) q0)
    as (Hp & Hw & _).
  split; [reflexivity|]. rewrite Hp, Hw.
  split; [apply get_delete_same|].
  split; [intros k Hk; apply get_delete_other; congruence|].
  split; [reflexivity|]. split.
  - apply (addToHistory_last o "COMMAND_CANCELLED" None (DCommand c) q0).
    cbn. rewrite (inv_max q HI). lia.
  - intros a ms f c'. unfold waitForCommand.
    destruct (findMatchingPendingCommand f _) as [c0|] eqn:Hf.
    + cbn [fst]. intros [= ->].
      unfold findMatchingPendingCommand in Hf. rewrite Hp in Hf.
      apply find_some in Hf. destruct Hf as [Hin _].
      apply in_values in Hin. destruct Hin as [k Hin].
      cbn in Hin. apply in_delete in Hin. destruct Hin as [Hin Hk].
      rewrite (pending_keyed q HM k c' Hin). exact Hk.
    + destruct (JsMap.get a _); cbn; discriminate.
Qed.

(** The theorem at the demo state of scenario S4: the URGENT command is
    cancelled and the next two waits receive the other two commands. *)
Lemma X6_cancel_witness :
  fst (cancelCommand Demo.oracle "C_urgent" Demo.s4_queue) = true /\
  JsMap.get "C_urgent"
    (pendingCommands (snd (cancelCommand Demo.oracle "C_urgent" Demo.s4_queue))) = None.
Proof.
  assert (Hr : reachable Demo.oracle Demo.s4_queue)
    by (repeat (eapply reach_step; [|apply step_send]); apply reach_empty).
  pose proof (X6_cancelCommand_removes_exactly_that_command
                Demo.oracle "C_urgent" Demo.s4_queue Hr) as H.
  cbv zeta in H.
  change (JsMap.get "C_urgent" (pendingCommands Demo.s4_queue))
    with (Some (command (fst (sendCommand Demo.oracle (Demo.cmd "C_urgent" "URGENT" None)
                               (snd (sendCommand Demo.oracle (Demo.cmd "C_low" "LOW" None)
                                       empty)))))) in H.
  cbv iota in H. destruct H as (H1 & H2 & _). split; assumption.
Defined.

(** X7: [cancelWait] rejects the wait of a registered agent: it returns
    true, the agent's promise is rejected with the message "Wait cancelled
    by external request", the agent is no longer registered, the pending
    queue is as it was, and a WAIT_FAILED entry closes the history.  For an
    agent that is not waiting it returns false and changes nothing. *)
Theorem X7_cancelWait_rejects_the_registered_wait o a q :
  reachable o q ->
  match JsMap.get a (waitingAgents q) with
  | Some w =>
      let r := cancelWait o a q in
      fst r = true /\
      outcome_of (promise w) (snd r) = Some (Rejected "Wait cancelled by external request") /\
      JsMap.get a (waitingAgents (snd r)) = None /\
      (forall a', a' <> a ->
         JsMap.get a' (waitingAgents (snd r)) = JsMap.get a' (waitingAgents q)) /\
      pendingCommands (snd r) = pendingCommands q /\
      (exists l, commandHistory (snd r)
                 = l ++ [{| h_timestamp := time_at o (reads q);
                            action := "WAIT_FAILED"; h_agentId := Some a;
                            data := DError "Wait cancelled by external request" |}])
  | None => cancelWait o a q = (false, q)
  end.
Proof.
  intros Hr. pose proof (reachable_Inv o q Hr) as HI.
  unfold cancelWait.
  destruct (JsMap.get a (waitingAgents q)) as [w|] eqn:Hg; [|reflexivity].
  cbv zeta. cbn [fst snd]. unfold agent_reject.
  set (q0 := with_waiting (JsMap.delete a (waitingAgents q)) q).
  destruct (addToHistory_frame o "WAIT_FAILED" (Some a) (DError cancelled_message) q0)
    as (Hp & Hw & _ & Hs & _).
  split; [reflexivity|]. split; [|split; [|split; [|split]]].
  - apply outcome_of_settle.
    destruct (inv_registered q HI a w Hg) as [_ Hun]. exact Hun.
  - cbn [waitingAgents settle]. rewrite Hw. apply get_delete_same.
  - intros a' Ha. cbn [waitingAgents settle]. rewrite Hw.
    apply get_delete_other. congruence.
  - cbn [pendingCommands settle]. rewrite Hp. reflexivity.
  - cbn [commandHistory settle].
    apply (addToHistory_last o "WAIT_FAILED" (Some a) (DError cancelled_message) q0).
    cbn. rewrite (inv_max q HI). lia.
Qed.

(** The theorem at the demo state in which agent A waits. *)
Lemma X7_cancelWait_witness :
  outcome_of 0 (snd (cancelWait Demo.oracle "A" Demo.waiting_queue))
  = Some (Rejected "Wait cancelled by external request").
Proof.
  assert (Hr : reachable Demo.oracle Demo.waiting_queue).
  { eapply reach_step; [apply reach_empty|].
    apply (step_wait Demo.oracle "A" 3000 (Demo.only_tasks ["BUILD"]) empty). }
  pose proof (X7_cancelWait_rejects_the_registered_wait
                Demo.oracle "A" Demo.waiting_queue Hr) as H.
  cbv zeta in H.
  change (JsMap.get "A" (waitingAgents Demo.waiting_queue))
    with (Some {| promise := 0; timeout := 3000;
                  wfilters := Demo.only_tasks ["BUILD"];
                  startedAt := time_at Demo.oracle 0 |}) in H.
  cbv iota in H. destruct H as (_ & H & _). exact H.
Defined.

(** X8: when the timer of a registered wait goes off, the promise is
    rejected with the time-out message that names the delay the agent asked
    for, and the agent is no longer registered; unlike a cancelled or a
    superseded wait, a wait that times out leaves no entry in the history,
    which is as it was, as is the pending queue. *)
Theorem X8_timeout_rejects_and_records_nothing o a w q :
  reachable o q ->
  JsMap.get a (waitingAgents q) = Some w ->
  let q' := timeoutFires a w q in
  outcome_of (promise w) q'
    = Some (Rejected ("Wait for command timed out after "
                        ++ string_of_nat (timeout w) ++ "ms")) /\
  JsMap.get a (waitingAgents q') = None /\
  commandHistory q' = commandHistory q /\
  pendingCommands q' = pendingCommands q.
Proof.
  intros Hr Hg. pose proof (reachable_Inv o q Hr) as HI. cbv zeta.
  unfold timeoutFires. split; [|split; [|split]].
  - apply outcome_of_settle.
    destruct (inv_registered q HI a w Hg) as [_ Hun]. exact Hun.
  - cbn. apply get_delete_same.
  - reflexivity.
  - reflexivity.
Qed.

(** The theorem at the demo state in which agent A waits with a delay of
    3000 ms. *)
Lemma X8_timeout_witness :
  commandHistory
    (timeoutFires "A"
       {| promise := 0; timeout := 3000; wfilters := Demo.only_tasks ["BUILD"];
          startedAt := time_at Demo.oracle 0 |} Demo.waiting_queue)
  = commandHistory Demo.waiting_queue.
Proof.
  apply (X8_timeout_rejects_and_records_nothing Demo.oracle "A"
           {| promise := 0; timeout := 3000; wfilters := Demo.only_tasks ["BUILD"];
              startedAt := time_at Demo.oracle 0 |} Demo.waiting_queue).
  - eapply reach_step; [apply reach_empty|].
    apply (step_wait Demo.oracle "A" 3000 (Demo.only_tasks ["BUILD"]) empty).
  - reflexivity.
Defined.

(** *** Waiting agents and promises *)

(** X9: the registry of waiting agents and the unsettled promises are the
    same thing.  In every reachable state the promise of each registered
    agent was handed to that agent and is unsettled, and each promise that
    was handed out and is unsettled belongs to the agent registered under
    its name: no wait is settled twice and none is forgotten. *)
Theorem X9_registered_agents_are_the_unsettled_promises o q :
  reachable o q ->
  (forall a w, JsMap.get a (waitingAgents q) = Some w ->
     nth_error (waits q) (promise w) = Some a /\ is_settled (promise w) q = false) /\
  (forall p a, nth_error (waits q) p = Some a -> is_settled p q = false ->
     exists w, JsMap.get a (waitingAgents q) = Some w /\ promise w = p) /\
  (forall p, is_settled p q = true -> p < length (waits q)).
Proof.
  intros Hr. pose proof (reachable_Inv o q Hr) as HI.
  split; [|split].
  - intros a w Hg. exact (inv_registered q HI a w Hg).
  - intros p a Hn Hs. exact (inv_active q HI p a (conj Hn Hs)).
  - exact (inv_settled q HI).
Qed.

(** The theorem at the demo state in which agent A waits. *)
Lemma X9_registry_witness :
  exists w, JsMap.get "A" (waitingAgents Demo.waiting_queue) = Some w /\ promise w = 0.
Proof.
  assert (Hr : reachable Demo.oracle Demo.waiting_queue).
  { eapply reach_step; [apply reach_empty|].
    apply (step_wait Demo.oracle "A" 3000 (Demo.only_tasks ["BUILD"]) empty). }
  destruct (X9_registered_agents_are_the_unsettled_promises
              Demo.oracle Demo.waiting_queue Hr) as (_ & H & _).
  apply (H 0 "A"); vm_compute; reflexivity.
Defined.

(** *** Filters only narrow *)

Lemma priorityLevel_pos p : 1 <= priorityLevel p.
Proof.
  unfold priorityLevel. destruct p as [s|]; [|lia].
  repeat match goal with
         | |- context [match ?x with _ => _ end] => destruct x; try lia
         end.
Qed.

(** The three tests of [commandMatchesFilters]. *)
Definition taskTypes_ok (c : Command) (tts : option (list string)) : bool :=
  match nonEmptyList tts with
  | Some tts =>
      match taskType c with
      | Some t => truthy_str t && includes t tts
      | None => false
      end
  | None => true
  end.

Definition componentIds_ok (c : Command) (cids : option (list string)) : bool :=
  match nonEmptyList cids with
  | Some cids =>
      match targetComponentIds c with
      | Some tids => existsb (fun i => includes i cids) tids
      | None => false
      end
  | None => true
  end.

Definition priority_ok (c : Command) (p : option string) : bool :=
  match p with
  | Some p =>
      if truthy_str p
      then negb (Nat.ltb (priorityLevel (cpriority c)) (priorityLevel (Some p)))
      else true
  | None => true
  end.

Lemma commandMatchesFilters_tests c f :
  commandMatchesFilters c f
  = taskTypes_ok c (taskTypes f) && componentIds_ok c (componentIds f)
    && priority_ok c (priority f).
Proof.
  unfold commandMatchesFilters, taskTypes_ok, componentIds_ok, priority_ok.
  destruct (taskTypes f), (componentIds f), (priority f); reflexivity.
Qed.

(** X10: a filter set only narrows what an agent accepts.  A command that
    matches a filter set still matches it when the task-type filter is
    dropped, when the component filter is dropped, and when the minimum
    priority is replaced by one of the same or a lower level, where a
    name that is none of LOW, MEDIUM, HIGH and URGENT counts as LOW; the
    names of the members of [Object.prototype], which a lookup in the
    table of levels finds, are set aside. *)
Theorem X10_weaker_filters_accept_more c f :
  commandMatchesFilters c f = true ->
  commandMatchesFilters c
    {| taskTypes := None; componentIds := componentIds f; priority := priority f |} = true /\
  commandMatchesFilters c
    {| taskTypes := taskTypes f; componentIds := None; priority := priority f |} = true /\
  (forall p p', priority f = Some p ->
     ~ In p Presets.object_prototype_keys ->
     ~ In p' Presets.object_prototype_keys ->
     (forall cp, cpriority c = Some cp -> ~ In cp Presets.object_prototype_keys) ->
     priorityLevel (Some p') <= priorityLevel (Some p) ->
     commandMatchesFilters c
       {| taskTypes := taskTypes f; componentIds := componentIds f;
          priority := Some p' |} = true).
Proof.
  intros H. rewrite commandMatchesFilters_tests in H.
  apply andb_true_iff in H. destruct H as [H Hp].
  apply andb_true_iff in H. destruct H as [Ht Hc].
  rewrite !commandMatchesFilters_tests. cbn [taskTypes componentIds priority].
  split; [|split].
  - rewrite Hc, Hp. reflexivity.
  - rewrite Ht, Hp. reflexivity.
  - intros p p' Hpf _ _ _ Hle. rewrite commandMatchesFilters_tests.
    cbn [taskTypes componentIds priority]. rewrite Ht, Hc. rewrite Hpf in Hp.
    unfold priority_ok in *.
    destruct (truthy_str p'); [|reflexivity].
    apply negb_true_iff, Nat.ltb_ge.
    destruct (truthy_str p) eqn:Ep.
    + apply negb_true_iff, Nat.ltb_ge in Hp. lia.
    + assert (Hl : priorityLevel (Some p) = 1).
      { unfold truthy_str in Ep. destruct (String.eqb p "") eqn:E; [|discriminate].
        apply String.eqb_eq in E. subst p. reflexivity. }
      pose proof (priorityLevel_pos (cpriority c)). lia.
Qed.

(** The theorem at a HIGH command for task type BUILD and an agent that
    asks for BUILD commands of priority HIGH or more. *)
Lemma X10_filters_witness :
  commandMatchesFilters
    {| id := "c"; type := "EXECUTE_TASK"; source := None; cpriority := Some "HIGH";
       targetComponentIds := None; taskType := Some "BUILD"; timestamp := "";
       status := "PENDING" |}
    {| taskTypes := Some ["BUILD"]; componentIds := None; priority := Some "MEDIUM" |}
  = true.
Proof.
  destruct (X10_weaker_filters_accept_more
              {| id := "c"; type := "EXECUTE_TASK"; source := None;
                 cpriority := Some "HIGH"; targetComponentIds := None;
                 taskType := Some "BUILD"; timestamp := ""; status := "PENDING" |}
              {| taskTypes := Some ["BUILD"]; componentIds := None;
                 priority := Some "HIGH" |} eq_refl) as (_ & _ & H).
  apply (H "HIGH" "MEDIUM"); [reflexivity | | | |cbn; lia];
    try (intros cp [= <-]); intros K; cbn in K;
    repeat (destruct K as [K|K]; [discriminate K|]); exact K.
Defined.

End BrokerProps.

(** * The command filter: groups, presets, configuration *)

Module FilterProps.
Import Queue Presets EnvConfig CommandFilter.

(** ** Sets as duplicate-free lists *)

Lemma includes_In x l : includes x l = true <-> In x l.
Proof.
  unfold includes. rewrite existsb_exists. split.
  - intros (y & Hy & He). apply String.eqb_eq in He. now subst.
  - intros H. exists x. split; [exact H | apply String.eqb_refl].
Qed.

Lemma includes_not_In x l : includes x l = false <-> ~ In x l.
Proof.
  rewrite <- includes_In. destruct (includes x l).
  - split; [discriminate | intros H; exfalso; now apply H].
  - split; [intros _; discriminate | reflexivity].
Qed.

Lemma set_add_In x s y : In y (set_add x s) <-> y = x \/ In y s.
Proof.
  unfold set_add. destruct (includes x s) eqn:E.
  - apply includes_In in E. split; [now right | intros [-> | H]; assumption].
  - rewrite in_app_iff. simpl. split.
    + intros [H | [H | []]]; [now right | now left].
    + intros [H | H]; [right; left; now symmetry | now left].
Qed.

Lemma set_add_NoDup x s : NoDup s -> NoDup (set_add x s).
Proof.
  intros H. unfold set_add. destruct (includes x s) eqn:E; [exact H|].
  apply includes_not_In in E.
  apply NoDup_rev in H. rewrite <- (rev_involutive (s ++ [x])).
  apply NoDup_rev. rewrite rev_unit. constructor; [|exact H].
  now rewrite <- in_rev.
Qed.

Lemma add_all_In xs s y : In y (add_all xs s) <-> In y xs \/ In y s.
Proof.
  unfold add_all. revert s. induction xs as [|x xs IH]; intros s; simpl.
  - tauto.
  - rewrite IH, set_add_In. intuition congruence.
Qed.

Lemma add_all_NoDup xs s : NoDup s -> NoDup (add_all xs s).
Proof.
  unfold add_all. revert s. induction xs as [|x xs IH]; intros s H; simpl.
  - exact H.
  - apply IH, set_add_NoDup, H.
Qed.

Lemma set_delete_In x s y : In y (set_delete x s) <-> In y s /\ y <> x.
Proof.
  unfold set_delete. rewrite filter_In. split; intros [H1 H2]; split; try exact H1.
  - intros ->. now rewrite String.eqb_refl in H2.
  - apply Bool.negb_true_iff, String.eqb_neq. congruence.
Qed.

Lemma delete_all_In xs s y : In y (delete_all xs s) <-> In y s /\ ~ In y xs.
Proof.
  unfold delete_all. revert s. induction xs as [|x xs IH]; intros s; simpl.
  - tauto.
  - rewrite IH, set_delete_In. intuition congruence.
Qed.

Lemma delete_all_NoDup xs s : NoDup s -> NoDup (delete_all xs s).
Proof.
  unfold delete_all. revert s. induction xs as [|x xs IH]; intros s H; simpl.
  - exact H.
  - apply IH. unfold set_delete. apply NoDup_filter, H.
Qed.

(** ** Groups *)

(** [c] is one of the commands of the group named [g]. *)
Definition in_group (c g : string) : Prop :=
  exists l, JsMap.get g COMMAND_GROUPS = Some l /\ In c l.

Definition in_groups (c : string) (gs : list string) : Prop :=
  exists g, In g gs /\ in_group c g.

Lemma no_group_has_an_inherited_name g :
  includes g object_prototype_keys = true -> JsMap.get g COMMAND_GROUPS = None.
Proof.
  intros H. apply includes_In in H. unfold object_prototype_keys in H.
  repeat (destruct H as [<- | H]; [vm_compute; reflexivity|]). destruct H.
Qed.

Lemma no_preset_has_an_inherited_name g :
  includes g object_prototype_keys = true -> JsMap.get g PRESETS = None.
Proof.
  intros H. apply includes_In in H. unfold object_prototype_keys in H.
  repeat (destruct H as [<- | H]; [vm_compute; reflexivity|]). destruct H.
Qed.

Lemma getGroupCommands_cases g :
  (includes g object_prototype_keys = true /\ getGroupCommands g = NoArray) \/
  (includes g object_prototype_keys = false /\
   exists l, getGroupCommands g = Commands l /\ forall c, In c l <-> in_group c g).
Proof.
  unfold getGroupCommands, lookup, in_group.
  destruct (includes g object_prototype_keys) eqn:P.
  - left. rewrite (no_group_has_an_inherited_name g P). now split.
  - right. split; [reflexivity|].
    destruct (JsMap.get g COMMAND_GROUPS) as [l|].
    + exists l. split; [reflexivity|]. intros c. split.
      * intros H. exists l. now split.
      * intros (l' & [= <-] & H). exact H.
    + exists []. split; [reflexivity|]. intros c. split; [intros []|].
      intros (l' & [=] & _).
Qed.

Definition forEach_fails : Error :=
  TypeError "groupCommands.forEach is not a function".

Lemma commands_from_spec gs : forall acc,
  match commands_from gs acc with
  | Ok cmds =>
      (forall g, In g gs -> includes g object_prototype_keys = false) /\
      (NoDup acc -> NoDup cmds) /\
      (forall c, In c cmds <-> In c acc \/ in_groups c gs)
  | Throw e =>
      e = forEach_fails /\
      exists g, In g gs /\ includes g object_prototype_keys = true
  end.
Proof.
  induction gs as [|g gs IH]; intros acc; simpl.
  - split; [intros g []|]. split; [auto|]. intros c. split; [now left|].
    intros [H | (g & [] & _)]. exact H.
  - destruct (getGroupCommands_cases g) as [(P & E) | (P & l & E & Hl)]; rewrite E.
    + split; [reflexivity|]. exists g. split; [now left | exact P].
    + specialize (IH (add_all l acc)).
      destruct (commands_from gs (add_all l acc)) as [cmds | e].
      * destruct IH as (Hk & Hn & Hc). split; [|split].
        -- intros g' [<- | H]; [exact P | now apply Hk].
        -- intros H. apply Hn, add_all_NoDup, H.
        -- intros c. rewrite Hc, add_all_In, Hl. unfold in_groups. split.
           ++ intros [[H | H] | (g' & Hg & H)].
              ** right. exists g. split; [now left | exact H].
              ** now left.
              ** right. exists g'. split; [now right | exact H].
           ++ intros [H | (g' & [<- | Hg] & H)].
              ** left. now right.
              ** left. now left.
              ** right. exists g'. now split.
      * destruct IH as (-> & g' & Hg & Hp). split; [reflexivity|].
        exists g'. split; [now right | exact Hp].
Qed.

Lemma isCommandInGroups_spec c gs :
  (forall g, In g gs -> includes g object_prototype_keys = false) ->
  exists b, isCommandInGroups c gs = Ok b /\ (b = true <-> in_groups c gs).
Proof.
  induction gs as [|g gs IH]; intros Hk; simpl.
  - exists false. split; [reflexivity|]. split; [discriminate|].
    intros (g & [] & _).
  - destruct (getGroupCommands_cases g) as [(P & E) | (P & l & E & Hl)].
    + rewrite (Hk g (or_introl eq_refl)) in P. discriminate.
    + rewrite E. destruct (includes c l) eqn:I.
      * exists true. split; [reflexivity|]. split; [|reflexivity]. intros _.
        exists g. split; [now left|]. apply Hl, includes_In, I.
      * destruct IH as (b & Hb & Hi); [intros g' H; apply Hk; now right|].
        exists b. split; [exact Hb|]. rewrite Hi. unfold in_groups. split.
        -- intros (g' & Hg & H). exists g'. split; [now right | exact H].
        -- intros (g' & [<- | Hg] & H).
           ++ apply Hl, includes_In in H. congruence.
           ++ exists g'. now split.
Qed.

Lemma isCommandInGroups_true c gs :
  (forall g, In g gs -> includes g object_prototype_keys = false) ->
  (isCommandInGroups c gs = Ok true <-> in_groups c gs).
Proof.
  intros Hk. destruct (isCommandInGroups_spec c gs Hk) as (b & Hb & Hi).
  rewrite Hb, <- Hi. split; [now intros [= <-] | now intros ->].
Qed.

Fixpoint distinct (l : list string) : bool :=
  match l with
  | [] => true
  | x :: r => negb (includes x r) && distinct r
  end.

Lemma distinct_NoDup l : distinct l = true -> NoDup l.
Proof.
  induction l as [|x r IH]; simpl; intros H; constructor;
    apply andb_prop in H; destruct H as (H1 & H2).
  - apply includes_not_In, Bool.negb_true_iff, H1.
  - apply IH, H2.
Qed.

Lemma group_keys_distinct : NoDup (JsMap.keys COMMAND_GROUPS).
Proof. apply distinct_NoDup. vm_compute. reflexivity. Qed.

Lemma get_In_distinct {V} k (v : V) m :
  NoDup (JsMap.keys m) -> (JsMap.get k m = Some v <-> In (k, v) m).
Proof.
  induction m as [|[k' v'] m IH]; simpl; intros Hn.
  - split; [discriminate | intros []].
  - inversion Hn as [|? ? Hk Hn']; subst. destruct (String.eqb k k') eqn:E.
    + apply String.eqb_eq in E. subst k'. split.
      * intros [= <-]. now left.
      * intros [[= <-] | H]; [reflexivity|]. exfalso. apply Hk.
        unfold JsMap.keys. apply (in_map fst) in H. exact H.
    + apply String.eqb_neq in E. rewrite (IH Hn'). split.
      * intros H. now right.
      * intros [[= <- <-] | H]; [congruence | exact H].
Qed.

Lemma getCommandGroups_In c g : In g (getCommandGroups c) <-> in_group c g.
Proof.
  unfold getCommandGroups, in_group. rewrite in_map_iff. split.
  - intros ([g' l] & <- & H). apply filter_In in H. destruct H as (H & I).
    exists l. split; [|apply includes_In, I].
    apply get_In_distinct; [apply group_keys_distinct | exact H].
  - intros (l & H & I). exists (g, l). split; [reflexivity|].
    apply filter_In. split; [|apply includes_In, I].
    apply get_In_distinct in H; [exact H | apply group_keys_distinct].
Qed.

(** X23: [getCommandsFromGroups] throws a [TypeError] exactly when one of
    the group names is a member of [Object.prototype] (such as
    [constructor]); otherwise it returns, without duplicates, exactly the
    commands for which [isCommandInGroups] answers true, which are the
    commands that [getCommandGroups] places in one of the named groups.
    Unknown group names contribute nothing. *)
Theorem X23_group_queries_agree (groupNames : list string) :
  match getCommandsFromGroups groupNames with
  | Ok commands =>
      (forall g, In g groupNames -> includes g object_prototype_keys = false) /\
      NoDup commands /\
      forall c,
        (In c commands <-> isCommandInGroups c groupNames = Ok true) /\
        (In c commands <-> exists g, In g groupNames /\ In g (getCommandGroups c))
  | Throw e =>
      e = TypeError "groupCommands.forEach is not a function" /\
      exists g, In g groupNames /\ includes g object_prototype_keys = true
  end.
Proof.
  unfold getCommandsFromGroups.
  pose proof (commands_from_spec groupNames []) as H.
  destruct (commands_from groupNames []) as [cmds | e]; [|exact H].
  destruct H as (Hk & Hn & Hc). split; [exact Hk|]. split; [apply Hn; constructor|].
  intros c. rewrite Hc, (isCommandInGroups_true c groupNames Hk). split.
  - split; [intros [[] | H]; exact H | intros H; now right].
  - split.
    + intros [[] | (g & Hg & H)]. exists g. split; [exact Hg|].
      exact (proj2 (getCommandGroups_In c g) H).
    + intros (g & Hg & H). right. exists g. split; [exact Hg|].
      exact (proj1 (getCommandGroups_In c g) H).
Qed.

(** ** Building the command sets *)

Definition safe (gs : list string) : Prop :=
  forall g, In g gs -> includes g object_prototype_keys = false.

Definition unsafe (gs : list string) : Prop :=
  exists g, In g gs /\ includes g object_prototype_keys = true.

Lemma unsafe_not_safe gs : unsafe gs -> safe gs -> False.
Proof. intros (g & Hg & Hp) Hs. rewrite (Hs g Hg) in Hp. discriminate. Qed.

Lemma unsafe_app_l a b : unsafe a -> unsafe (a ++ b).
Proof. intros (g & Hg & Hp). exists g. split; [apply in_or_app; now left | exact Hp]. Qed.

Lemma unsafe_app_r a b : unsafe b -> unsafe (a ++ b).
Proof. intros (g & Hg & Hp). exists g. split; [apply in_or_app; now right | exact Hp]. Qed.

Lemma in_groups_nil c : ~ in_groups c [].
Proof. intros (g & [] & _). Qed.

Lemma groups_if_any_spec gs :
  match groups_if_any gs with
  | Ok l => safe gs /\ NoDup l /\ forall c, In c l <-> in_groups c gs
  | Throw e => e = forEach_fails /\ unsafe gs
  end.
Proof.
  destruct gs as [|g gs].
  - simpl. split; [intros g []|]. split; [constructor|]. intros c.
    split; [intros [] | intros H; exact (in_groups_nil c H)].
  - change (groups_if_any (g :: gs)) with (commands_from (g :: gs) []).
    pose proof (commands_from_spec (g :: gs) []) as H.
    destruct (commands_from (g :: gs) []) as [l|e]; [|exact H].
    destruct H as (Hk & Hn & Hc). split; [exact Hk|].
    split; [apply Hn; constructor|].
    intros c. rewrite Hc. split; [intros [[] | H]; exact H | intros H; now right].
Qed.

Lemma groups_if_given_spec gs :
  match groups_if_given gs with
  | Ok l => safe (given gs) /\ NoDup l /\ forall c, In c l <-> in_groups c (given gs)
  | Throw e => e = forEach_fails /\ unsafe (given gs)
  end.
Proof.
  destruct gs as [gs|]; simpl.
  - unfold getCommandsFromGroups.
    pose proof (commands_from_spec gs []) as H.
    destruct (commands_from gs []) as [l|e]; [|exact H].
    destruct H as (Hk & Hn & Hc). split; [exact Hk|].
    split; [apply Hn; constructor|].
    intros c. rewrite Hc. split; [intros [[] | H]; exact H | intros H; now right].
  - split; [intros g []|]. split; [constructor|]. intros c.
    split; [intros [] | intros H; exact (in_groups_nil c H)].
Qed.

(** The two sets hold exactly the commands of [A] and of [D]. *)
Definition holds (ad : list string * list string) (A D : string -> Prop) : Prop :=
  NoDup (fst ad) /\ NoDup (snd ad) /\
  (forall x, In x (fst ad) <-> A x) /\ (forall x, In x (snd ad) <-> D x).

Lemma holds_empty : holds ([], []) (fun _ => False) (fun _ => False).
Proof. repeat split; try constructor; intros []. Qed.

Lemma holds_allow cs ad A D :
  holds ad A D -> holds (allow cs ad) (fun x => In x cs \/ A x) D.
Proof.
  intros (N1 & N2 & HA & HD). unfold allow, holds. cbn [fst snd].
  split; [apply add_all_NoDup, N1|]. split; [exact N2|]. split; [|exact HD].
  intros x. now rewrite add_all_In, HA.
Qed.

Lemma holds_block cs ad A D :
  holds ad A D ->
  holds (block cs ad) (fun x => A x /\ ~ In x cs) (fun x => In x cs \/ D x).
Proof.
  intros (N1 & N2 & HA & HD). unfold block, holds. cbn [fst snd].
  split; [apply delete_all_NoDup, N1|]. split; [apply add_all_NoDup, N2|]. split.
  - intros x. now rewrite delete_all_In, HA.
  - intros x. now rewrite add_all_In, HD.
Qed.

Lemma holds_ext ad A D A' D' :
  holds ad A D -> (forall x, A x <-> A' x) -> (forall x, D x <-> D' x) ->
  holds ad A' D'.
Proof.
  intros (N1 & N2 & HA & HD) EA ED. repeat split; try assumption.
  - intros H. apply EA, HA, H.
  - intros H. apply HA, EA, H.
  - intros H. apply ED, HD, H.
  - intros H. apply HD, ED, H.
Qed.

Section Modes.
Variable c : Config.

(** What the lists of the configuration allow and block. *)
Definition env_allows (x : string) : Prop :=
  In x (allowedCommands c) \/ in_groups x (allowedGroups c).
Definition env_blocks (x : string) : Prop :=
  In x (blockedCommands c) \/ in_groups x (blockedGroups c).

Lemma applyWhitelistFiltering_spec ad D :
  holds ([], snd ad) (fun _ => False) D ->
  match applyWhitelistFiltering c ad with
  | Ok r => safe (allowedGroups c) /\ safe (blockedGroups c) /\
            holds r (fun x => env_allows x /\ ~ env_blocks x)
                    (fun x => D x \/ env_blocks x)
  | Throw e => e = forEach_fails /\ unsafe (allowedGroups c ++ blockedGroups c)
  end.
Proof.
  intros H0. unfold applyWhitelistFiltering.
  pose proof (groups_if_any_spec (allowedGroups c)) as Ha.
  destruct (groups_if_any (allowedGroups c)) as [la|e];
    [|destruct Ha as (-> & Ha); split; [reflexivity | apply unsafe_app_l, Ha]].
  destruct Ha as (Sa & _ & Ia).
  pose proof (groups_if_any_spec (blockedGroups c)) as Hb.
  destruct (groups_if_any (blockedGroups c)) as [lb|e];
    [|destruct Hb as (-> & Hb); split; [reflexivity | apply unsafe_app_r, Hb]].
  destruct Hb as (Sb & _ & Ib).
  split; [exact Sa|]. split; [exact Sb|].
  eapply holds_ext.
  - apply holds_block, holds_block, holds_allow, holds_allow, H0.
  - intros x. cbv beta. unfold env_allows, env_blocks. rewrite Ia, Ib. tauto.
  - intros x. cbv beta. unfold env_blocks. rewrite Ib. tauto.
Qed.

Lemma applyBlacklistFiltering_spec ad :
  match applyBlacklistFiltering c ad with
  | Ok r => safe (blockedGroups c) /\ fst r = fst ad /\ NoDup (snd r) /\
            forall x, In x (snd r) <-> env_blocks x
  | Throw e => e = forEach_fails /\ unsafe (blockedGroups c)
  end.
Proof.
  unfold applyBlacklistFiltering.
  pose proof (groups_if_any_spec (blockedGroups c)) as Hb.
  destruct (groups_if_any (blockedGroups c)) as [lb|e]; [|exact Hb].
  destruct Hb as (Sb & _ & Ib). cbn [fst snd].
  split; [exact Sb|]. split; [reflexivity|].
  split; [apply add_all_NoDup, add_all_NoDup; constructor|].
  intros x. unfold env_blocks. rewrite !add_all_In, Ib. simpl. tauto.
Qed.

Lemma applyEnvironmentOverrides_spec ad A D :
  holds ad A D ->
  match applyEnvironmentOverrides c ad with
  | Ok r => safe (allowedGroups c) /\ safe (blockedGroups c) /\
            holds r (fun x => (A x \/ env_allows x) /\ ~ env_blocks x)
                    (fun x => D x \/ env_blocks x)
  | Throw e => e = forEach_fails /\ unsafe (allowedGroups c ++ blockedGroups c)
  end.
Proof.
  intros H0. unfold applyEnvironmentOverrides.
  pose proof (groups_if_any_spec (allowedGroups c)) as Ha.
  destruct (groups_if_any (allowedGroups c)) as [la|e];
    [|destruct Ha as (-> & Ha); split; [reflexivity | apply unsafe_app_l, Ha]].
  destruct Ha as (Sa & _ & Ia).
  pose proof (groups_if_any_spec (blockedGroups c)) as Hb.
  destruct (groups_if_any (blockedGroups c)) as [lb|e];
    [|destruct Hb as (-> & Hb); split; [reflexivity | apply unsafe_app_r, Hb]].
  destruct Hb as (Sb & _ & Ib).
  split; [exact Sa|]. split; [exact Sb|].
  eapply holds_ext.
  - apply holds_block, holds_block, holds_allow, holds_allow, H0.
  - intros x. cbv beta. unfold env_allows, env_blocks. rewrite Ia, Ib. tauto.
  - intros x. cbv beta. unfold env_blocks. rewrite Ib. tauto.
Qed.

End Modes.

(** What a preset allows and blocks. *)
Definition preset_allows (p : Preset) (x : string) : Prop :=
  In x (given (Presets.allowedCommands p)) \/
  in_groups x (given (Presets.allowedGroups p)).
Definition preset_blocks (p : Preset) (x : string) : Prop :=
  In x (given (Presets.blockedCommands p)) \/
  in_groups x (given (Presets.blockedGroups p)).

Definition chosen_preset (c : Config) : option Preset :=
  match EnvConfig.preset c with
  | Some name => getPreset name
  | None => None
  end.

Lemma getPreset_null : getPreset "null" = None.
Proof. vm_compute. reflexivity. Qed.

Lemma applyPresetFiltering_unknown c ad :
  chosen_preset c = None -> applyPresetFiltering c ad = Ok ad.
Proof.
  unfold chosen_preset, applyPresetFiltering. destruct (EnvConfig.preset c).
  - intros ->. reflexivity.
  - intros _. rewrite getPreset_null. reflexivity.
Qed.

Lemma applyPresetFiltering_spec c p :
  chosen_preset c = Some p ->
  match applyPresetFiltering c ([], []) with
  | Ok r => safe (allowedGroups c) /\ safe (blockedGroups c) /\
            safe (given (Presets.allowedGroups p)) /\
            safe (given (Presets.blockedGroups p)) /\
            holds r (fun x => ((preset_allows p x /\ ~ preset_blocks p x)
                               \/ env_allows c x) /\ ~ env_blocks c x)
                    (fun x => preset_blocks p x \/ env_blocks c x)
  | Throw e => e = forEach_fails /\
               unsafe ((allowedGroups c ++ blockedGroups c) ++
                       given (Presets.allowedGroups p) ++
                       given (Presets.blockedGroups p))
  end.
Proof.
  unfold chosen_preset, applyPresetFiltering.
  destruct (EnvConfig.preset c) as [n|]; [|discriminate]. intros ->.
  pose proof (groups_if_given_spec (Presets.allowedGroups p)) as Ha.
  destruct (groups_if_given (Presets.allowedGroups p)) as [la|e];
    [|destruct Ha as (-> & Ha); split;
      [reflexivity | apply unsafe_app_r, unsafe_app_l, Ha]].
  destruct Ha as (Sa & _ & Ia).
  pose proof (groups_if_given_spec (Presets.blockedGroups p)) as Hb.
  destruct (groups_if_given (Presets.blockedGroups p)) as [lb|e];
    [|destruct Hb as (-> & Hb); split;
      [reflexivity | apply unsafe_app_r, unsafe_app_r, Hb]].
  destruct Hb as (Sb & _ & Ib).
  match goal with |- match applyEnvironmentOverrides c ?ad with _ => _ end =>
    assert (H4 : holds ad (fun x => preset_allows p x /\ ~ preset_blocks p x)
                          (fun x => preset_blocks p x))
  end.
  { eapply holds_ext.
    - apply holds_block, holds_block, holds_allow, holds_allow, holds_empty.
    - intros x. cbv beta. unfold preset_allows, preset_blocks.
      rewrite Ia, Ib. tauto.
    - intros x. cbv beta. unfold preset_blocks. rewrite Ib. tauto. }
  pose proof (applyEnvironmentOverrides_spec c _ _ _ H4) as He.
  match goal with |- match ?m with _ => _ end => destruct m as [r|e] end.
  - destruct He as (S1 & S2 & He). repeat (split; [assumption|]).
    eapply holds_ext; [exact He | |]; intros x; cbv beta; tauto.
  - destruct He as (-> & He). split; [reflexivity | apply unsafe_app_l, He].
Qed.

Definition presets_safe (p : Preset) : bool :=
  forallb (fun g => negb (includes g object_prototype_keys))
    (given (Presets.allowedGroups p) ++ given (Presets.blockedGroups p)).

Lemma get_In {V} k (v : V) m : JsMap.get k m = Some v -> In (k, v) m.
Proof.
  induction m as [|[k' v'] m IH]; simpl; [discriminate|].
  destruct (String.eqb k k') eqn:E.
  - apply String.eqb_eq in E. intros [= <-]. subst. now left.
  - intros H. right. apply IH, H.
Qed.

Lemma getPreset_cases n p :
  getPreset n = Some p ->
  In (n, p) PRESETS \/
  (Presets.allowedGroups p = None /\ Presets.blockedGroups p = None /\
   Presets.allowedCommands p = None /\ Presets.blockedCommands p = None /\
   Presets.description p = None).
Proof.
  unfold getPreset, lookup. destruct (JsMap.get n PRESETS) as [q|] eqn:E.
  - intros [= <-]. left. apply get_In, E.
  - destruct (includes n object_prototype_keys); [|discriminate].
    intros [= <-]. right. repeat split.
Qed.

Lemma getPreset_safe n p :
  getPreset n = Some p ->
  safe (given (Presets.allowedGroups p) ++ given (Presets.blockedGroups p)).
Proof.
  intros H. apply getPreset_cases in H. destruct H as [H | (-> & -> & _)].
  - assert (A : forallb (fun np => presets_safe (snd np)) PRESETS = true)
      by (vm_compute; reflexivity).
    rewrite forallb_forall in A. specialize (A _ H). cbn [snd] in A.
    unfold presets_safe in A. rewrite forallb_forall in A.
    intros g Hg. apply Bool.negb_true_iff, A, Hg.
  - intros g [].
Qed.

Lemma unsafe_app_inv a b : unsafe (a ++ b) -> unsafe a \/ unsafe b.
Proof.
  intros (g & Hg & Hp). apply in_app_or in Hg. destruct Hg as [Hg | Hg];
    [left | right]; exists g; now split.
Qed.

Lemma chosen_preset_safe c p :
  chosen_preset c = Some p ->
  safe (given (Presets.allowedGroups p) ++ given (Presets.blockedGroups p)).
Proof.
  unfold chosen_preset. destruct (EnvConfig.preset c) as [n|]; [|discriminate].
  apply getPreset_safe.
Qed.

(** ** The modes *)

Lemma build_none c : filterMode c = "none" -> buildCommandSets c = Ok ([], []).
Proof. intros H. unfold buildCommandSets. rewrite H. reflexivity. Qed.

Lemma build_preset c :
  filterMode c = "preset" ->
  buildCommandSets c = applyPresetFiltering c ([], []).
Proof. intros H. unfold buildCommandSets. rewrite H. reflexivity. Qed.

Lemma build_blacklist c :
  filterMode c = "blacklist" ->
  buildCommandSets c = applyBlacklistFiltering c ([], []).
Proof. intros H. unfold buildCommandSets. rewrite H. reflexivity. Qed.

Lemma build_whitelist c :
  filterMode c <> "none" -> filterMode c <> "preset" -> filterMode c <> "blacklist" ->
  buildCommandSets c = applyWhitelistFiltering c ([], []).
Proof.
  intros H1 H2 H3. unfold buildCommandSets.
  rewrite (proj2 (String.eqb_neq _ _) H1), (proj2 (String.eqb_neq _ _) H2),
    (proj2 (String.eqb_neq _ _) H3).
  destruct (String.eqb (filterMode c) "whitelist"); reflexivity.
Qed.

Lemma new_inv c f :
  new c = Ok f ->
  exists ad, buildCommandSets c = Ok ad /\
             f = {| config := c; allowed := fst ad; denied := snd ad |}.
Proof.
  unfold new. destruct (buildCommandSets c) as [ad|e]; [|discriminate].
  intros [= <-]. now exists ad.
Qed.

Lemma allowed_in_list_mode c a d name :
  filterMode c <> "none" -> filterMode c <> "blacklist" ->
  isCommandAllowed {| config := c; allowed := a; denied := d |} name
  = includes name a.
Proof.
  intros H1 H2. unfold isCommandAllowed. cbn [config allowed denied].
  now rewrite (proj2 (String.eqb_neq _ _) H1), (proj2 (String.eqb_neq _ _) H2).
Qed.

Lemma not_ok_true c gs :
  safe gs -> (isCommandInGroups c gs <> Ok true <-> ~ in_groups c gs).
Proof. intros Hs. now rewrite (isCommandInGroups_true c gs Hs). Qed.

Lemma includes_iff x l (P : Prop) :
  (In x l <-> P) -> (includes x l = true <-> P).
Proof. intros H. now rewrite includes_In. Qed.

Lemma whitelist_built c ad :
  filterMode c <> "none" -> filterMode c <> "preset" -> filterMode c <> "blacklist" ->
  buildCommandSets c = Ok ad ->
  safe (allowedGroups c) /\ safe (blockedGroups c) /\
  holds ad (fun x => env_allows c x /\ ~ env_blocks c x) (env_blocks c).
Proof.
  intros H1 H2 H3 Hb. rewrite (build_whitelist c H1 H2 H3) in Hb.
  pose proof (applyWhitelistFiltering_spec c ([], []) _ holds_empty) as H.
  rewrite Hb in H. destruct H as (Sa & Sb & H). split; [exact Sa|].
  split; [exact Sb|]. eapply holds_ext; [exact H | |]; intros x; cbv beta; tauto.
Qed.

(** X24: For a filter that the constructor has built: mode [none] lets
    every command through; in mode [blacklist] a command is refused exactly
    when it is a blocked command or in a blocked group, and the allow lists
    play no part; in mode [whitelist], and in any unrecognised mode, a
    command is let through exactly when it is an allowed command or in an
    allowed group and is neither a blocked command nor in a blocked group:
    blocking wins. *)
Theorem X24_list_modes_decide_by_the_lists (c : Config) (f : Filter) (name : string) :
  new c = Ok f ->
  (filterMode c = "none" -> isCommandAllowed f name = true) /\
  (filterMode c = "blacklist" ->
     (isCommandAllowed f name = false <->
      In name (blockedCommands c) \/
      isCommandInGroups name (blockedGroups c) = Ok true)) /\
  (filterMode c <> "none" -> filterMode c <> "blacklist" ->
   filterMode c <> "preset" ->
     (isCommandAllowed f name = true <->
      (In name (allowedCommands c) \/
       isCommandInGroups name (allowedGroups c) = Ok true) /\
      ~ In name (blockedCommands c) /\
      isCommandInGroups name (blockedGroups c) <> Ok true)).
Proof.
  intros Hnew. destruct (new_inv c f Hnew) as (ad & Hb & ->). split; [|split].
  - intros Hm. unfold isCommandAllowed. cbn [config]. rewrite Hm. reflexivity.
  - intros Hm. rewrite (build_blacklist c Hm) in Hb.
    pose proof (applyBlacklistFiltering_spec c ([], [])) as H.
    rewrite Hb in H. destruct H as (Sb & _ & _ & Hd).
    unfold isCommandAllowed. cbn [config allowed denied]. rewrite Hm.
    change (String.eqb "blacklist" "none") with false.
    change (String.eqb "blacklist" "blacklist") with true. cbv iota.
    rewrite Bool.negb_false_iff, includes_In, Hd. unfold env_blocks.
    now rewrite (isCommandInGroups_true name _ Sb).
  - intros H1 H2 H3.
    destruct (whitelist_built c ad H1 H3 H2 Hb) as (Sa & Sb & _ & _ & HA & _).
    rewrite (allowed_in_list_mode c _ _ name H1 H2), includes_In, HA.
    unfold env_allows, env_blocks.
    rewrite (isCommandInGroups_true name _ Sa), (not_ok_true name _ Sb). tauto.
Qed.

Lemma X24_whitelist_witness :
  isCommandAllowed (DemoFilter.built DemoFilter.whitelist_config) "create_task" = true <->
  (In "create_task" ["create_task"] \/
   isCommandInGroups "create_task" ["read"] = Ok true) /\
  ~ In "create_task" [] /\ isCommandInGroups "create_task" [] <> Ok true.
Proof.
  destruct (X24_list_modes_decide_by_the_lists DemoFilter.whitelist_config
              (DemoFilter.built DemoFilter.whitelist_config) "create_task")
    as (_ & _ & H); [vm_compute; reflexivity|].
  apply H; discriminate.
Defined.

(** X25: In mode [preset] with a preset that exists, a command is let
    through exactly when the preset allows it and does not block it, or the
    configuration's own lists allow it, and the configuration's own lists do
    not block it.  So the environment can re-allow what the preset blocks,
    and what the environment blocks stays blocked. *)
Theorem X25_environment_lists_override_the_preset
    (c : Config) (f : Filter) (presetName : string) (p : Preset) (name : string) :
  new c = Ok f ->
  filterMode c = "preset" ->
  EnvConfig.preset c = Some presetName ->
  getPreset presetName = Some p ->
  (isCommandAllowed f name = true <->
   (((In name (given (Presets.allowedCommands p)) \/
      isCommandInGroups name (given (Presets.allowedGroups p)) = Ok true) /\
     ~ In name (given (Presets.blockedCommands p)) /\
     isCommandInGroups name (given (Presets.blockedGroups p)) <> Ok true)
    \/ In name (allowedCommands c)
    \/ isCommandInGroups name (allowedGroups c) = Ok true) /\
   ~ In name (blockedCommands c) /\
   isCommandInGroups name (blockedGroups c) <> Ok true).
Proof.
  intros Hnew Hm Hn Hp. destruct (new_inv c f Hnew) as (ad & Hb & ->).
  rewrite (build_preset c Hm) in Hb.
  assert (Hc : chosen_preset c = Some p) by (unfold chosen_preset; now rewrite Hn).
  pose proof (applyPresetFiltering_spec c p Hc) as H. rewrite Hb in H.
  destruct H as (Sa & Sb & Pa & Pb & _ & _ & HA & _).
  rewrite allowed_in_list_mode, includes_In, HA
    by (rewrite Hm; discriminate).
  unfold preset_allows, preset_blocks, env_allows, env_blocks.
  rewrite (isCommandInGroups_true name _ Sa), (not_ok_true name _ Sb),
    (isCommandInGroups_true name _ Pa), (not_ok_true name _ Pb). tauto.
Qed.

Lemma X25_override_witness :
  isCommandAllowed (DemoFilter.built DemoFilter.override_config) "create_task" = true /\
  isCommandAllowed (DemoFilter.built DemoFilter.override_config) "get_component" <> true.
Proof.
  pose proof (fun p Hp name =>
    X25_environment_lists_override_the_preset DemoFilter.override_config
      (DemoFilter.built DemoFilter.override_config) "read-only" p name
      ltac:(vm_compute; reflexivity) eq_refl eq_refl Hp) as H.
  destruct (getPreset "read-only") as [p|] eqn:Hp; [|vm_compute in Hp; discriminate Hp].
  split.
  - apply (H p eq_refl). split; [|split].
    + right. left. left. reflexivity.
    + cbn. intros [[=] | []].
    + discriminate.
  - intros A. apply (H p eq_refl) in A. destruct A as (_ & A & _).
    apply A. left. reflexivity.
Defined.

(** X26: The filter fails closed.  In mode [preset] with a preset name
    that does not exist, and in mode [whitelist] (or an unrecognised mode)
    with no allowed command and no allowed group, a filter that the
    constructor has built lets no command through, and [validateCommand]
    throws [COMMAND_FILTERED] for every command.  With an unknown preset
    this holds whatever the configuration's own allow lists say. *)
Theorem X26_the_filter_fails_closed
    (js_length : string -> nat) (c : Config) (f : Filter)
    (name : string) (args : list string) :
  new c = Ok f ->
  filterMode c <> "none" -> filterMode c <> "blacklist" ->
  (if String.eqb (filterMode c) "preset"
   then chosen_preset c = None
   else allowedCommands c = [] /\ allowedGroups c = []) ->
  isCommandAllowed f name = false /\
  exists r,
    validateCommand js_length f name args
    = COMMAND_FILTERED ("Command '" ++ name ++ "' is not allowed: " ++ reason r) r /\
    r_allowed r = false /\ commandName r = name.
Proof.
  intros Hnew H1 H2 H. destruct (new_inv c f Hnew) as (ad & Hb & ->).
  assert (A : isCommandAllowed
                {| config := c; allowed := fst ad; denied := snd ad |} name = false).
  { rewrite (allowed_in_list_mode c _ _ name H1 H2).
    destruct (String.eqb (filterMode c) "preset") eqn:E.
    - apply String.eqb_eq in E. rewrite (build_preset c E) in Hb.
      rewrite (applyPresetFiltering_unknown c _ H) in Hb.
      injection Hb as <-. reflexivity.
    - apply String.eqb_neq in E. destruct H as (Hc & Hg).
      destruct (whitelist_built c ad H1 E H2 Hb) as (_ & _ & _ & _ & HA & _).
      apply includes_not_In. rewrite HA. unfold env_allows. rewrite Hc, Hg.
      intros ([[] | G] & _). exact (in_groups_nil name G). }
  split; [exact A|].
  exists (filterCommand js_length
            {| config := c; allowed := fst ad; denied := snd ad |} name args).
  unfold validateCommand.
  change (r_allowed (filterCommand js_length ?f name args))
    with (isCommandAllowed f name).
  rewrite A. repeat split.
Qed.

Lemma X26_default_environment_witness :
  isCommandAllowed
    (DemoFilter.built (loadConfiguration (fun s => s) DemoFilter.empty_env))
    "get_component" = false /\
  isCommandAllowed (DemoFilter.built DemoFilter.unknown_preset_config)
    "get_component" = false.
Proof.
  split.
  - apply (X26_the_filter_fails_closed String.length
             (loadConfiguration (fun s => s) DemoFilter.empty_env)
             (DemoFilter.built (loadConfiguration (fun s => s) DemoFilter.empty_env))
             "get_component" []);
      [vm_compute; reflexivity | discriminate | discriminate
      | vm_compute; split; reflexivity].
  - apply (X26_the_filter_fails_closed String.length
             DemoFilter.unknown_preset_config
             (DemoFilter.built DemoFilter.unknown_preset_config)
             "get_component" []);
      [vm_compute; reflexivity | discriminate | discriminate
      | vm_compute; reflexivity].
Defined.

(** ** Constructing a filter *)

Definition preset_valid (p : Preset) : bool :=
  isValid (validatePreset (Some p)) && Nat.eqb (length (errors (validatePreset (Some p)))) 0.

Lemma builtin_presets_valid n p :
  JsMap.get n PRESETS = Some p ->
  validatePreset (Some p) = {| isValid := true; errors := [] |}.
Proof.
  intros H. apply get_In in H.
  assert (A : forallb (fun np => preset_valid (snd np)) PRESETS = true)
    by (vm_compute; reflexivity).
  rewrite forallb_forall in A. specialize (A _ H). cbn [snd] in A.
  unfold preset_valid in A. apply andb_prop in A. destruct A as (A1 & A2).
  destruct (validatePreset (Some p)) as [v e]. cbn [isValid errors] in A1, A2.
  subst v. destruct e; [reflexivity | discriminate].
Qed.

Lemma unknown_groups_nil field gs :
  unknown_groups field gs = [] ->
  forall g, In g (given gs) -> In g getAvailableGroups.
Proof.
  destruct gs as [gs|]; unfold unknown_groups, given; [|intros _ g []].
  intros H g Hg. apply map_eq_nil in H.
  destruct (includes g getAvailableGroups) eqn:E;
    [exact (proj1 (includes_In g getAvailableGroups) E)|].
  assert (I : In g (filter (fun g => negb (includes g getAvailableGroups)) gs)).
  { apply filter_In. split; [exact Hg | now rewrite E]. }
  rewrite H in I. destruct I.
Qed.

Lemma known_groups_safe gs :
  (forall g, In g gs -> In g getAvailableGroups) -> safe gs.
Proof.
  intros H g Hg. specialize (H g Hg).
  destruct (includes g object_prototype_keys) eqn:P; [|reflexivity].
  apply no_group_has_an_inherited_name in P.
  unfold getAvailableGroups, JsMap.keys in H. apply in_map_iff in H.
  destruct H as ([g' l] & <- & H). cbn [fst] in P.
  assert (forall m : list (string * list string),
            In (g', l) m -> JsMap.get g' m <> None) as G.
  { induction m as [|[k v] m IH]; simpl; [intros []|].
    intros [[= -> ->] | I].
    - now rewrite String.eqb_refl.
    - destruct (String.eqb g' k); [discriminate | apply IH, I]. }
  exfalso. exact (G _ H P).
Qed.

(** X28: Constructing a filter throws only a [TypeError], and only when
    one of the configuration's own group names is a member of
    [Object.prototype]; otherwise the filter is built, for every mode and
    every preset name, and its two sets hold no duplicates.  The presets
    play no part in this: [validatePreset] accepts every built-in preset,
    and the groups of a preset that it accepts are resolved without an
    exception. *)
Theorem X28_construction_fails_only_on_inherited_group_names :
  (forall c : Config,
     match new c with
     | Ok f => config f = c /\ NoDup (allowed f) /\ NoDup (denied f)
     | Throw e =>
         e = TypeError "groupCommands.forEach is not a function" /\
         exists g, In g (allowedGroups c ++ blockedGroups c) /\
                   includes g object_prototype_keys = true
     end) /\
  (forall n p, JsMap.get n PRESETS = Some p ->
               validatePreset (Some p) = {| isValid := true; errors := [] |}) /\
  (forall p, isValid (validatePreset (Some p)) = true ->
             exists a b, getCommandsFromGroups (given (Presets.allowedGroups p)) = Ok a /\
                         getCommandsFromGroups (given (Presets.blockedGroups p)) = Ok b).
Proof.
  split; [|split].
  - intros c. unfold new.
    assert (E : forall ad, holds ad (fun _ => False) (fun _ => False) ->
                  NoDup (fst ad) /\ NoDup (snd ad)) by (intros ad (A & B & _); now split).
    destruct (String.eqb (filterMode c) "none") eqn:M1.
    { apply String.eqb_eq in M1. rewrite (build_none c M1). cbn [config allowed denied fst snd].
      split; [reflexivity|]. split; constructor. }
    apply String.eqb_neq in M1.
    destruct (String.eqb (filterMode c) "preset") eqn:M2.
    { apply String.eqb_eq in M2. rewrite (build_preset c M2).
      destruct (chosen_preset c) as [p|] eqn:Hc.
      - pose proof (applyPresetFiltering_spec c p Hc) as H.
        destruct (applyPresetFiltering c ([], [])) as [r|e].
        + destruct H as (_ & _ & _ & _ & N1 & N2 & _). cbn [config allowed denied].
          now repeat split.
        + destruct H as (-> & H). split; [reflexivity|].
          apply unsafe_app_inv in H. destruct H as [H | H]; [exact H|].
          exfalso. exact (unsafe_not_safe _ H (chosen_preset_safe c p Hc)).
      - rewrite (applyPresetFiltering_unknown c _ Hc). cbn [config allowed denied fst snd].
        split; [reflexivity|]. split; constructor. }
    apply String.eqb_neq in M2.
    destruct (String.eqb (filterMode c) "blacklist") eqn:M3.
    { apply String.eqb_eq in M3. rewrite (build_blacklist c M3).
      pose proof (applyBlacklistFiltering_spec c ([], [])) as H.
      destruct (applyBlacklistFiltering c ([], [])) as [r|e].
      - destruct H as (_ & Hf & N & _). cbn [config allowed denied].
        split; [reflexivity|]. split; [rewrite Hf; constructor | exact N].
      - destruct H as (-> & H). split; [reflexivity|]. apply unsafe_app_r, H. }
    apply String.eqb_neq in M3. rewrite (build_whitelist c M1 M2 M3).
    pose proof (applyWhitelistFiltering_spec c ([], []) _ holds_empty) as H.
    destruct (applyWhitelistFiltering c ([], [])) as [r|e].
    + destruct H as (_ & _ & N1 & N2 & _). cbn [config allowed denied].
      now repeat split.
    + exact H.
  - exact builtin_presets_valid.
  - intros p V. unfold validatePreset in V. cbn [isValid] in V.
    apply Nat.eqb_eq, length_zero_iff_nil in V.
    apply app_eq_nil in V. destruct V as (_ & V).
    apply app_eq_nil in V. destruct V as (Va & Vb).
    pose proof (known_groups_safe _ (unknown_groups_nil _ _ Va)) as Sa.
    pose proof (known_groups_safe _ (unknown_groups_nil _ _ Vb)) as Sb.
    unfold getCommandsFromGroups.
    pose proof (commands_from_spec (given (Presets.allowedGroups p)) []) as Ha.
    pose proof (commands_from_spec (given (Presets.blockedGroups p)) []) as Hb.
    destruct (commands_from (given (Presets.allowedGroups p)) []) as [a|e];
      [|destruct Ha as (_ & Ha); exfalso; exact (unsafe_not_safe _ Ha Sa)].
    destruct (commands_from (given (Presets.blockedGroups p)) []) as [b|e];
      [|destruct Hb as (_ & Hb); exfalso; exact (unsafe_not_safe _ Hb Sb)].
    exists a, b. now split.
Qed.

(** ** Reading the configuration *)

Definition comma_free (x : string) : Prop :=
  ~ In ","%char (list_ascii_of_string x).

Lemma split_on_free ch x :
  ~ In ch (list_ascii_of_string x) -> split_on ch x = [x].
Proof.
  induction x as [|a r IH]; simpl; intros H; [reflexivity|].
  destruct (Ascii.eqb a ch) eqn:E.
  - apply Ascii.eqb_eq in E. exfalso. apply H. now left.
  - rewrite IH; [reflexivity|]. intros I. apply H. now right.
Qed.

Lemma split_on_sep ch x rest :
  ~ In ch (list_ascii_of_string x) ->
  split_on ch (x ++ String ch rest)%string = x :: split_on ch rest.
Proof.
  induction x as [|a r IH]; simpl; intros H.
  - now rewrite Ascii.eqb_refl.
  - destruct (Ascii.eqb a ch) eqn:E.
    + apply Ascii.eqb_eq in E. exfalso. apply H. now left.
    + rewrite IH; [reflexivity|]. intros I. apply H. now right.
Qed.

Lemma split_on_concat items :
  items <> [] -> (forall x, In x items -> comma_free x) ->
  split_on ","%char (String.concat "," items) = items.
Proof.
  induction items as [|x r IH]; intros Hn Hf; [congruence|].
  destruct r as [|y r].
  - simpl. apply split_on_free, Hf. now left.
  - change (String.concat "," (x :: y :: r))
      with (x ++ String ","%char (String.concat "," (y :: r)))%string.
    rewrite split_on_sep by (apply Hf; now left).
    rewrite IH; [reflexivity | discriminate | intros z Hz; apply Hf; now right].
Qed.

Lemma concat_empty items :
  String.concat "," items = "" -> items = [] \/ items = [""].
Proof.
  destruct items as [|x [|y r]]; simpl.
  - now left.
  - intros ->. now right.
  - destruct x; discriminate.
Qed.

(** X27: [parseCommaSeparated] undoes joining with commas: for items that
    contain no comma, the parsed value of the joined string is the list of
    the trimmed items without the empty ones.  An unset variable gives the
    empty list, and no parsed list holds an empty string. *)
Theorem X27_parseCommaSeparated_splits_trims_and_drops_empties
    (trim : string -> string) (items : list string) :
  trim "" = "" ->
  (forall x, In x items -> ~ In ","%char (list_ascii_of_string x)) ->
  parseCommaSeparated trim (Some (String.concat "," items))
  = filter truthy_str (map trim items) /\
  parseCommaSeparated trim None = [] /\
  forall v, ~ In "" (parseCommaSeparated trim v).
Proof.
  intros Ht Hf. split; [|split].
  - unfold parseCommaSeparated.
    destruct (truthy_str (String.concat "," items)) eqn:E.
    + assert (Hn : items <> []) by (intros ->; discriminate E).
      now rewrite (split_on_concat items Hn Hf).
    + unfold truthy_str in E. apply Bool.negb_false_iff, String.eqb_eq in E.
      destruct (concat_empty items E) as [-> | ->]; [reflexivity|].
      simpl. now rewrite Ht.
  - reflexivity.
  - intros v. unfold parseCommaSeparated. destruct v as [v|]; [|intros []].
    destruct (truthy_str v); [|intros []].
    intros H. apply filter_In in H. destruct H as (_ & H). discriminate H.
Qed.

Lemma X27_parse_witness :
  parseCommaSeparated (fun s => s) (Some "read,,write")
  = ["read"; "write"].
Proof.
  apply (X27_parseCommaSeparated_splits_trims_and_drops_empties
           (fun s => s) ["read"; ""; "write"]).
  - reflexivity.
  - intros x [<- | [<- | [<- | []]]]; cbn; intuition discriminate.
Defined.

Lemma filterMode_with m c : filterMode (with_filterMode m c) = m.
Proof. reflexivity. Qed.

Lemma preset_with m c : EnvConfig.preset (with_filterMode m c) = EnvConfig.preset c.
Proof. reflexivity. Qed.

Lemma validateConfiguration_mode c :
  In (filterMode (validateConfiguration c)) ["whitelist"; "blacklist"; "preset"; "none"] /\
  (filterMode (validateConfiguration c) = "preset" ->
   filterMode c = "preset" /\ truthy_opt (EnvConfig.preset c) = true) /\
  (In (filterMode c) ["whitelist"; "blacklist"; "none"] ->
   validateConfiguration c = c) /\
  EnvConfig.preset (validateConfiguration c) = EnvConfig.preset c.
Proof.
  unfold validateConfiguration.
  destruct (includes (filterMode c) ["whitelist"; "blacklist"; "preset"; "none"]) eqn:I.
  - apply includes_In in I.
    destruct (String.eqb (filterMode c) "preset") eqn:E.
    + apply String.eqb_eq in E.
      destruct (truthy_opt (EnvConfig.preset c)) eqn:T; cbn [andb negb].
      * split; [exact I|]. split; [now split|]. split; reflexivity.
      * rewrite filterMode_with. split; [now left|]. split; [discriminate|].
        split; [|reflexivity]. rewrite E.
        intros [H | [H | [H | []]]]; discriminate H.
    + cbn [andb]. split; [exact I|]. apply String.eqb_neq in E.
      split; [intros H; contradiction|]. split; reflexivity.
  - apply includes_not_In in I. rewrite filterMode_with.
    change (String.eqb "whitelist" "preset") with false. cbn [andb].
    rewrite filterMode_with. split; [now left|]. split; [discriminate|].
    split; [|reflexivity].
    intros [H | [H | [H | []]]]; exfalso; apply I; rewrite <- H; cbn; tauto.
Qed.

(** X30: The configuration read from the environment: unless
    [MCP_VALIDATE_CONFIG] is [false], its filter mode is one of [whitelist],
    [blacklist], [preset] and [none], and it is [preset] only when
    [MCP_FILTER_MODE] is [preset] and [MCP_COMMAND_PRESET] is set and not
    empty; an unset, empty or unrecognised mode, and mode [preset] without a
    preset name, become [whitelist].  With [MCP_VALIDATE_CONFIG] set to
    [false] the mode is taken as it is written. *)
Theorem X30_loaded_configuration_has_a_known_mode
    (trim : string -> string) (env : string -> option string) :
  let c := loadConfiguration trim env in
  (env "MCP_VALIDATE_CONFIG" <> Some "false" ->
     In (filterMode c) ["whitelist"; "blacklist"; "preset"; "none"] /\
     (filterMode c = "preset" <->
      env "MCP_FILTER_MODE" = Some "preset" /\
      exists n, env "MCP_COMMAND_PRESET" = Some n /\ n <> "" /\
                EnvConfig.preset c = Some n) /\
     (forall m, env "MCP_FILTER_MODE" = Some m ->
                In m ["whitelist"; "blacklist"; "none"] -> filterMode c = m) /\
     (forall m, env "MCP_FILTER_MODE" = Some m ->
                ~ In m ["whitelist"; "blacklist"; "preset"; "none"] ->
                filterMode c = "whitelist")) /\
  (env "MCP_FILTER_MODE" = None -> filterMode c = "whitelist") /\
  (env "MCP_VALIDATE_CONFIG" = Some "false" ->
     forall m, env "MCP_FILTER_MODE" = Some m -> m <> "" -> filterMode c = m).
Proof.
  intros c. subst c. unfold loadConfiguration.
  set (c0 := {| filterMode := _ |}).
  assert (V : validateConfig c0 = not_false (env "MCP_VALIDATE_CONFIG")) by reflexivity.
  assert (M : filterMode c0 =
              if truthy_opt (env "MCP_FILTER_MODE")
              then match env "MCP_FILTER_MODE" with Some m => m | None => "" end
              else "whitelist") by reflexivity.
  assert (P : EnvConfig.preset c0 =
              if truthy_opt (env "MCP_COMMAND_PRESET")
              then env "MCP_COMMAND_PRESET" else None) by reflexivity.
  clearbody c0. rewrite V.
  destruct (validateConfiguration_mode c0) as (K1 & K2 & K3 & K4).
  split; [|split].
  - intros Hv.
    assert (N : not_false (env "MCP_VALIDATE_CONFIG") = true).
    { unfold not_false. destruct (env "MCP_VALIDATE_CONFIG") as [s|]; [|reflexivity].
      apply Bool.negb_true_iff, String.eqb_neq. congruence. }
    rewrite N. split; [exact K1|]. split; [|split].
    + split.
      * intros H. destruct (K2 H) as (H1 & H2). rewrite M in H1. rewrite P in H2.
        split.
        -- destruct (env "MCP_FILTER_MODE") as [m|]; cbn [truthy_opt] in H1.
           ++ destruct (truthy_str m); [now subst | discriminate].
           ++ discriminate.
        -- rewrite K4, P.
           destruct (env "MCP_COMMAND_PRESET") as [n|]; cbn [truthy_opt] in *.
           ++ destruct (truthy_str n) eqn:T; [|discriminate].
              exists n. split; [reflexivity|]. split; [|reflexivity].
              intros ->. discriminate T.
           ++ discriminate.
      * intros (Hm & n & Hn & Hne & _).
        assert (M' : filterMode c0 = "preset") by (rewrite M, Hm; reflexivity).
        assert (P' : truthy_opt (EnvConfig.preset c0) = true).
        { rewrite P, Hn. cbn [truthy_opt]. unfold truthy_str.
          rewrite (proj2 (String.eqb_neq n "") Hne). cbn [negb truthy_opt].
          unfold truthy_str. now rewrite (proj2 (String.eqb_neq n "") Hne). }
        unfold validateConfiguration. rewrite M'.
        change (includes "preset" ["whitelist"; "blacklist"; "preset"; "none"]) with true.
        cbv iota. rewrite M'.
        change (String.eqb "preset" "preset") with true.
        rewrite P'. cbn [andb negb]. exact M'.
    + intros m Hm Hin. rewrite K3; rewrite M, Hm; cbn [truthy_opt].
      * destruct Hin as [<- | [<- | [<- | []]]]; reflexivity.
      * destruct Hin as [<- | [<- | [<- | []]]]; cbn; tauto.
    + intros m Hm Hin.
      assert (I : includes (filterMode c0) ["whitelist"; "blacklist"; "preset"; "none"]
                  = false \/ filterMode c0 = "whitelist").
      { rewrite M, Hm. cbn [truthy_opt]. destruct (truthy_str m).
        - left. apply includes_not_In, Hin.
        - now right. }
      destruct I as [I | I].
      * unfold validateConfiguration. rewrite I. reflexivity.
      * rewrite K3; [exact I | rewrite I; now left].
  - intros Hm.
    assert (I : filterMode c0 = "whitelist") by (rewrite M, Hm; reflexivity).
    destruct (not_false (env "MCP_VALIDATE_CONFIG")).
    + rewrite K3; [exact I | rewrite I; now left].
    + exact I.
  - intros Hv m Hm Hne. rewrite Hv. unfold not_false.
    change (String.eqb "false" "false") with true. cbn [negb].
    rewrite M, Hm. cbn [truthy_opt]. unfold truthy_str.
    now rewrite (proj2 (String.eqb_neq m "") Hne).
Qed.

End FilterProps.

(** * Properties of the graph store *)

Module StoreProps.
Import Models Db Api.

(** ** Reasoning about the store monad

    [hoare P m Q]: running [m] keeps the graph property [P], whether [m]
    returns or throws, and a returned value satisfies [Q]. *)
Definition hoare {A} (P : Graph -> Prop) (m : M A) (Q : A -> Prop) : Prop :=
  forall w, P (graph w) ->
    P (graph (snd (m w))) /\ (forall a, fst (m w) = Ok a -> Q a).

Section Rules.
Context (P : Graph -> Prop).

Lemma hoare_ret {A} (a : A) (Q : A -> Prop) : Q a -> hoare P (ret a) Q.
Proof. intros Hq w Hp. simpl. split; [exact Hp|]. intros a' [= <-]. exact Hq. Qed.

Lemma hoare_throw {A} e (Q : A -> Prop) : hoare P (throw e) Q.
Proof. intros w Hp. simpl. split; [exact Hp|]. discriminate. Qed.

Lemma hoare_lift {A} (r : result A) (Q : A -> Prop) :
  (forall a, r = Ok a -> Q a) -> hoare P (lift r) Q.
Proof. intros Hq w Hp. simpl. split; [exact Hp|exact Hq]. Qed.

Lemma hoare_bind {A B} (m : M A) (k : A -> M B) (R : A -> Prop) (Q : B -> Prop) :
  hoare P m R -> (forall a, R a -> hoare P (k a) Q) -> hoare P (bind m k) Q.
Proof.
  intros Hm Hk w Hp. unfold bind.
  destruct (Hm w Hp) as [Hp' Hr].
  destruct (m w) as [[a|e] w']; simpl in *.
  - apply Hk; auto.
  - split; [exact Hp'|discriminate].
Qed.

Lemma hoare_weaken {A} (m : M A) (Q Q' : A -> Prop) :
  hoare P m Q -> (forall a, Q a -> Q' a) -> hoare P m Q'.
Proof. intros Hm Hq w Hp. destruct (Hm w Hp). split; auto. Qed.

Lemma hoare_get_graph : hoare P get_graph P.
Proof. intros w Hp. simpl. split; [exact Hp|]. intros g [= <-]. exact Hp. Qed.

Lemma hoare_put_graph g : P g -> hoare P (put_graph g) (fun _ => True).
Proof. intros Hg w _. simpl. auto. Qed.

Lemma hoare_uuidv4 o : hoare P (uuidv4 o) (fun _ => True).
Proof. intros w Hp. simpl. auto. Qed.

Lemma hoare_now o : hoare P (toISOString_now o) (fun _ => True).
Proof. intros w Hp. simpl. auto. Qed.

Lemma hoare_try_catch {A} (body : M A) (handler : Error -> M A) (R Q : A -> Prop) :
  hoare P body Q -> (forall e, hoare P (handler e) Q) -> hoare P (try_catch body handler) Q.
Proof.
  intros Hb Hh w Hp. unfold try_catch.
  destruct (Hb w Hp) as [Hp' Hq].
  destruct (body w) as [[a|e] w']; simpl in *.
  - split; auto.
  - apply Hh. exact Hp'.
Qed.

Lemma hoare_transaction {A} (body : M A) (Q : A -> Prop) :
  hoare P body Q -> hoare P (transaction body) Q.
Proof.
  intros Hb w Hp. unfold transaction.
  destruct (Hb w Hp) as [Hp' Hq].
  destruct (body w) as [[a|e] w']; simpl in *.
  - split; auto.
  - split; [exact Hp|discriminate].
Qed.

Lemma hoare_for_each {A} (f : A -> M unit) (l : list A) :
  (forall x, hoare P (f x) (fun _ => True)) -> hoare P (for_each f l) (fun _ => True).
Proof.
  intros Hf. induction l as [|x l IH]; simpl.
  - apply hoare_ret. exact I.
  - eapply hoare_bind; [apply Hf|]. intros _ _. exact IH.
Qed.

Lemma hoare_map_m {A B} (f : A -> M B) (l : list A) :
  (forall x, hoare P (f x) (fun _ => True)) -> hoare P (map_m f l) (fun _ => True).
Proof.
  intros Hf. induction l as [|x l IH]; simpl.
  - apply hoare_ret. exact I.
  - eapply hoare_bind; [apply Hf|]. intros y _.
    eapply hoare_bind; [exact IH|]. intros ys _.
    apply hoare_ret. exact I.
Qed.

Lemma hoare_create ls p :
  (forall g, P g -> P (add_node ls p g)) ->
  hoare P (cypher_create ls p) (fun _ => True).
Proof.
  intros H. unfold cypher_create.
  eapply hoare_bind; [apply hoare_get_graph|]. intros g Hg.
  destruct (violates_unique g ls (stored p)).
  - apply hoare_throw.
  - eapply hoare_bind; [apply hoare_put_graph; auto|]. intros _ _.
    apply hoare_ret. exact I.
Qed.

Lemma hoare_set sel u :
  (forall g, P g -> P (set_nodes sel u g)) ->
  hoare P (cypher_set sel u) (fun _ => True).
Proof.
  intros H. unfold cypher_set.
  eapply hoare_bind; [apply hoare_get_graph|]. intros g Hg.
  eapply hoare_bind; [apply hoare_put_graph; auto|]. intros _ _.
  apply hoare_ret. exact I.
Qed.

Lemma hoare_detach_delete sel :
  (forall g, P g -> P (detach_delete sel g)) ->
  hoare P (cypher_detach_delete sel) (fun _ => True).
Proof.
  intros H. unfold cypher_detach_delete.
  eapply hoare_bind; [apply hoare_get_graph|]. intros g Hg.
  apply hoare_put_graph; auto.
Qed.

Lemma hoare_create_edges sa sb t p :
  (forall g, P g -> P (add_edges sa sb t p g)) ->
  hoare P (cypher_create_edges sa sb t p) (fun _ => True).
Proof.
  intros H. unfold cypher_create_edges.
  eapply hoare_bind; [apply hoare_get_graph|]. intros g Hg.
  eapply hoare_bind; [apply hoare_put_graph; auto|]. intros _ _.
  apply hoare_ret. exact I.
Qed.
End Rules.

(** ** What the schemas let through *)

Lemma parse_component_type d c :
  parse_component d = Ok c -> in_enum ComponentType (type c) = true.
Proof.
  unfold parse_component.
  destruct (req_uuid "id" d); try discriminate.
  destruct (req_enum ComponentType "type" d) as [t|] eqn:Ht; try discriminate.
  destruct (req_nonempty "name" d); try discriminate.
  destruct (opt_string "description" d); try discriminate.
  destruct (opt_string "path" d); try discriminate.
  destruct (opt_string "codebase" d); try discriminate.
  destruct (record_of_strings "metadata" d); try discriminate.
  intros [= <-]. cbn [type].
  unfold req_enum in Ht. destruct (req_string "type" d) as [ty|]; try discriminate.
  destruct (in_enum ComponentType ty) eqn:E; congruence.
Qed.

Lemma parse_relationship_type d r :
  parse_relationship d = Ok r -> in_enum RelationshipType (r_type r) = true.
Proof.
  unfold parse_relationship.
  destruct (req_uuid "id" d); try discriminate.
  destruct (req_enum RelationshipType "type" d) as [t|] eqn:Ht; try discriminate.
  destruct (req_uuid "sourceId" d); try discriminate.
  destruct (req_uuid "targetId" d); try discriminate.
  destruct (record_of_strings "details" d); try discriminate.
  destruct (opt_timeOrder "timeOrder" d); try discriminate.
  destruct (opt_number_in 0 100 "probability" d); try discriminate.
  destruct (opt_string "reasoning" d); try discriminate.
  intros [= <-]. cbn [r_type].
  unfold req_enum in Ht. destruct (req_string "type" d) as [ty|]; try discriminate.
  destruct (in_enum RelationshipType ty) eqn:E; congruence.
Qed.

(** ** Graph properties that the operations keep *)

Definition schema_labels : list string := ["Component"; "Task"; "Comment"; "ChangeEvent"].

Definition clear_for_restore (n : Node) : bool :=
  negb (has_label "ChangeEvent" n || has_label "Snapshot" n).
Definition clear_for_replay (n : Node) : bool :=
  negb (has_label "ChangeEvent" n).

(** Each lemma of this section depends on the hypotheses about the
    statements its operation sends to the backend, and on no other. *)
Section StableOps.
Context (P : Graph -> Prop) (o : Oracle).

Hypothesis st_component : forall t p g, in_enum ComponentType t = true ->
    P g -> P (add_node ["Component"; t] p g).
Hypothesis st_task : forall p g, P g -> P (add_node ["Task"] p g).
Hypothesis st_comment : forall p g, P g -> P (add_node ["Comment"] p g).
Hypothesis st_change : forall p g, P g -> P (add_node ["ChangeEvent"] p g).
Hypothesis st_snapshot : forall p g, P g -> P (add_node ["Snapshot"] p g).
Hypothesis st_set : forall l i u g, In l ["Component"; "Task"; "Comment"] ->
    P g -> P (set_nodes (matches_id l i) u g).
Hypothesis st_delete : forall l i g, In l ["Component"; "Comment"] ->
    P g -> P (detach_delete (matches_id l i) g).
Hypothesis st_relationship : forall s t ty p g, in_enum RelationshipType ty = true ->
    P g -> P (add_edges (matches_id "Component" s) (matches_id "Component" t) ty p g).
Hypothesis st_relates_to : forall i sb p g,
    P g -> P (add_edges (matches_id "Task" i) sb "RELATES_TO" p g).
Hypothesis st_has_comment : forall sa i p g,
    P g -> P (add_edges sa (matches_id "Comment" i) "HAS_COMMENT" p g).
Hypothesis st_schema : forall g, P g -> P (with_unique_id schema_labels g).
Hypothesis st_clear_restore : forall g, P g -> P (detach_delete clear_for_restore g).
Hypothesis st_clear_replay : forall g, P g -> P (detach_delete clear_for_replay g).

Abbreviation keeps m := (hoare P m (fun _ => True)).

Lemma keeps_id_or_uuid d : keeps (id_or_uuid o d).
Proof.
  unfold id_or_uuid. destruct (truthy (get_or_null "id" d)).
  - apply hoare_ret. exact I.
  - eapply hoare_bind; [apply hoare_uuidv4|]. intros. apply hoare_ret. exact I.
Qed.

Lemma keeps_recordChange op ty ei b a md : keeps (recordChange o op ty ei b a md).
Proof.
  unfold recordChange.
  eapply hoare_bind; [apply hoare_uuidv4|]. intros i _.
  eapply hoare_bind; [apply hoare_now|]. intros t _.
  eapply hoare_bind; [apply hoare_create; intros; apply st_change; assumption|].
  intros _ _. apply hoare_ret. exact I.
Qed.

Lemma keeps_create_component_node d :
  keeps (i <- id_or_uuid o d ;;
         component <- lift (parse_component (JsMap.set "id" i d)) ;;
         n <- cypher_create ["Component"; type component] (component_props component) ;;
         ret (nprops n)).
Proof.
  eapply hoare_bind; [apply keeps_id_or_uuid|]. intros i _.
  eapply hoare_bind;
    [apply (hoare_lift P _ (fun c => in_enum ComponentType (type c) = true));
     intros c Hc; eapply parse_component_type; exact Hc|].
  intros c Hc.
  eapply hoare_bind;
    [apply hoare_create; intros; apply st_component; assumption|].
  intros n _. apply hoare_ret. exact I.
Qed.

Lemma keeps_createComponent d md : keeps (createComponent o d md).
Proof.
  unfold createComponent.
  eapply hoare_bind; [apply keeps_id_or_uuid|]. intros i _.
  eapply hoare_bind;
    [apply (hoare_lift P _ (fun c => in_enum ComponentType (type c) = true));
     intros c Hc; eapply parse_component_type; exact Hc|].
  intros c Hc.
  eapply hoare_bind;
    [apply hoare_create; intros; apply st_component; assumption|].
  intros n _.
  eapply hoare_bind; [apply keeps_recordChange|]. intros _ _.
  apply hoare_ret. exact I.
Qed.

Lemma keeps_updateComponent i u : keeps (updateComponent i u).
Proof.
  unfold updateComponent.
  eapply hoare_bind;
    [apply hoare_set; intros; apply st_set; simpl; auto|].
  intros. apply hoare_ret. exact I.
Qed.

Lemma keeps_deleteComponent i : keeps (deleteComponent i).
Proof.
  unfold deleteComponent.
  eapply hoare_bind;
    [apply hoare_detach_delete; intros; apply st_delete; simpl; auto|].
  intros. apply hoare_ret. exact I.
Qed.

Lemma keeps_create_relationship_row d : keeps (create_relationship_row o d).
Proof.
  unfold create_relationship_row.
  eapply hoare_bind; [apply keeps_id_or_uuid|]. intros i _.
  eapply hoare_bind;
    [apply (hoare_lift P _ (fun r => in_enum RelationshipType (r_type r) = true));
     intros r Hr; eapply parse_relationship_type; exact Hr|].
  intros r Hr.
  eapply hoare_bind;
    [apply hoare_create_edges; intros; apply st_relationship; assumption|].
  intros. apply hoare_ret. exact I.
Qed.

Lemma keeps_create_task_row d : keeps (create_task_row o d).
Proof.
  unfold create_task_row.
  eapply hoare_bind; [apply keeps_id_or_uuid|]. intros i _.
  eapply hoare_bind; [apply (hoare_lift P _ (fun _ => True)); auto|].
  intros t _.
  eapply hoare_bind;
    [apply hoare_create; intros; apply st_task; assumption|].
  intros n _.
  eapply (hoare_bind P _ _ (fun _ => True)); [|intros; apply hoare_ret; exact I].
  destruct (relatedComponentIds t).
  - apply hoare_ret. exact I.
  - eapply hoare_bind;
      [apply hoare_create_edges; intros; apply st_relates_to; assumption|].
    intros. apply hoare_ret. exact I.
Qed.

Lemma keeps_updateTaskStatus i s p : keeps (updateTaskStatus i s p).
Proof.
  unfold updateTaskStatus.
  eapply hoare_bind;
    [apply hoare_set; intros; apply st_set; simpl; auto|].
  intros. apply hoare_ret. exact I.
Qed.

Lemma keeps_createComponents l md : keeps (createComponents o l md).
Proof.
  unfold createComponents.
  eapply hoare_bind;
    [apply hoare_transaction; apply hoare_map_m; intros d;
     apply keeps_create_component_node|].
  intros created _.
  eapply (hoare_bind P _ _ (fun _ => True)); [|intros; apply hoare_ret; exact I].
  apply hoare_for_each. intros c.
  eapply hoare_bind; [apply keeps_recordChange|]. intros. apply hoare_ret. exact I.
Qed.

Lemma keeps_createRelationships l : keeps (createRelationships o l).
Proof.
  unfold createRelationships.
  eapply hoare_bind;
    [apply hoare_transaction; apply hoare_map_m; intros d;
     apply keeps_create_relationship_row|].
  intros. apply hoare_ret. exact I.
Qed.

Lemma keeps_createTasks l : keeps (createTasks o l).
Proof.
  unfold createTasks. apply hoare_transaction. apply hoare_map_m.
  intros d. apply keeps_create_task_row.
Qed.

Lemma keeps_createComment d : keeps (createComment o d).
Proof.
  unfold createComment.
  eapply hoare_bind; [apply hoare_uuidv4|]. intros cid _.
  eapply hoare_bind; [apply hoare_now|]. intros t _.
  eapply hoare_bind; [apply hoare_get_graph|]. intros g _.
  match goal with |- context [if ?c then _ else _] => destruct c end.
  - apply hoare_throw.
  - eapply hoare_bind;
      [apply hoare_create; intros; apply st_comment; assumption|].
    intros c _.
    eapply hoare_bind;
      [apply hoare_create_edges; intros; apply st_has_comment; assumption|].
    intros. apply hoare_ret. exact I.
Qed.

Lemma keeps_updateComment i u : keeps (updateComment o i u).
Proof.
  unfold updateComment.
  eapply hoare_bind; [apply hoare_now|]. intros t _.
  eapply hoare_bind;
    [apply hoare_set; intros; apply st_set; simpl; auto|].
  intros. apply hoare_ret. exact I.
Qed.

Lemma keeps_deleteComment i : keeps (deleteComment i).
Proof.
  unfold deleteComment.
  eapply hoare_bind;
    [apply hoare_detach_delete; intros; apply st_delete; simpl; auto|].
  intros. apply hoare_ret. exact I.
Qed.

Lemma keeps_initializeSchema : keeps initializeSchema.
Proof.
  unfold initializeSchema.
  eapply hoare_bind; [apply hoare_get_graph|]. intros g Hg.
  match goal with |- context [if ?c then _ else _] => destruct c end.
  - apply hoare_throw.
  - apply hoare_put_graph. apply st_schema. exact Hg.
Qed.

Lemma keeps_createSnapshot name md : keeps (createSnapshot o name md).
Proof.
  unfold createSnapshot.
  eapply hoare_bind; [apply hoare_uuidv4|]. intros i _.
  eapply hoare_bind; [apply hoare_now|]. intros t _.
  eapply hoare_bind; [apply hoare_get_graph|]. intros g _.
  eapply hoare_bind;
    [apply hoare_create; intros; apply st_snapshot; assumption|].
  intros. apply hoare_ret. exact I.
Qed.

Lemma keeps_replayChange change : keeps (replayChange o change).
Proof.
  unfold replayChange.
  assert (Hobj : forall v, hoare P (lift (as_object v)) (fun _ => True))
    by (intros; apply hoare_lift; auto).
  repeat match goal with
         | |- hoare _ (match ?x with _ => _ end) _ => destruct x
         | |- hoare _ (if ?x then _ else _) _ => destruct x
         end;
    try (apply hoare_ret; exact I);
    try apply hoare_throw;
    (eapply hoare_bind;
     [first [apply Hobj | apply keeps_updateComponent | apply keeps_deleteComponent]
     |intros]);
    try (apply hoare_ret; exact I);
    (eapply hoare_bind;
     [first [apply keeps_createComponent | apply keeps_create_task_row | apply keeps_updateTaskStatus
            | apply keeps_create_relationship_row]
     |intros; apply hoare_ret; exact I]).
Qed.

Lemma keeps_getChangesByTimeRange parse s e n : keeps (getChangesByTimeRange parse s e n).
Proof.
  unfold getChangesByTimeRange.
  eapply hoare_bind; [apply hoare_get_graph|]. intros. apply hoare_lift. auto.
Qed.

Lemma keeps_restore_entities snapshot d : keeps (restore_entities o snapshot d).
Proof.
  unfold restore_entities.
  assert (Hl : forall A (r : result A), hoare P (lift r) (fun _ => True))
    by (intros; apply hoare_lift; auto).
  eapply hoare_bind; [apply hoare_detach_delete; exact st_clear_restore|].
  intros _ _.
  eapply hoare_bind; [apply Hl|]. intros cs _.
  eapply hoare_bind;
    [apply hoare_for_each; intros x;
     eapply hoare_bind; [apply Hl|]; intros c _;
     eapply hoare_bind; [apply keeps_createComponent|];
     intros; apply hoare_ret; exact I|].
  intros _ _.
  eapply hoare_bind; [apply Hl|]. intros ts _.
  eapply hoare_bind;
    [apply hoare_for_each; intros x;
     eapply hoare_bind; [apply Hl|]; intros c _;
     eapply hoare_bind; [apply keeps_create_task_row|];
     intros; apply hoare_ret; exact I|].
  intros _ _.
  eapply hoare_bind; [apply Hl|]. intros rs _.
  eapply hoare_bind;
    [apply hoare_for_each; intros x;
     eapply hoare_bind; [apply Hl|]; intros c _;
     eapply hoare_bind; [apply keeps_create_relationship_row|];
     intros; apply hoare_ret; exact I|].
  intros _ _. apply hoare_ret. exact I.
Qed.

Lemma keeps_restoreFromSnapshot parse i dry :
  keeps (restoreFromSnapshot o parse i dry).
Proof.
  unfold restoreFromSnapshot.
  assert (Hl : forall A (r : result A), hoare P (lift r) (fun _ => True))
    by (intros; apply hoare_lift; auto).
  eapply hoare_bind; [apply hoare_get_graph|]. intros g _.
  destruct (find (matches_id "Snapshot" i) (nodes g)); [|apply hoare_throw].
  eapply hoare_bind; [apply Hl|]. intros d _.
  destruct dry.
  - eapply hoare_bind; [apply Hl|]. intros cs _.
    eapply hoare_bind; [apply Hl|]. intros ts _.
    eapply hoare_bind; [apply Hl|]. intros rs _.
    apply hoare_ret. exact I.
  - apply keeps_restore_entities.
Qed.

Lemma keeps_replayToTimestamp parse t dry :
  keeps (replayToTimestamp o parse t dry).
Proof.
  unfold replayToTimestamp.
  eapply hoare_bind; [apply keeps_getChangesByTimeRange|]. intros changes _.
  destruct dry.
  - apply hoare_ret. exact I.
  - eapply hoare_bind; [apply hoare_detach_delete; exact st_clear_replay|].
    intros _ _.
    eapply (hoare_bind P _ _ (fun _ => True)); [|intros; apply hoare_ret; exact I].
    apply hoare_map_m. intros c. unfold replay_one.
    apply (hoare_try_catch P _ _ (fun _ => True)).
    + eapply hoare_bind; [apply keeps_replayChange|]. intros. apply hoare_ret. exact I.
    + intros e. apply hoare_ret. exact I.
Qed.

(** A replay that only plans: nothing is cleared. *)
Lemma keeps_replay_dry_run parse t : keeps (replayToTimestamp o parse t true).
Proof.
  unfold replayToTimestamp.
  eapply hoare_bind; [apply keeps_getChangesByTimeRange|]. intros changes _.
  apply hoare_ret. exact I.
Qed.
End StableOps.

(** [P] is kept by every statement the store sends to the backend, the
    "clear current state" of a replay aside. *)
Record Stable (P : Graph -> Prop) : Prop := {
  st_component : forall t p g, in_enum ComponentType t = true ->
      P g -> P (add_node ["Component"; t] p g);
  st_task : forall p g, P g -> P (add_node ["Task"] p g);
  st_comment : forall p g, P g -> P (add_node ["Comment"] p g);
  st_change : forall p g, P g -> P (add_node ["ChangeEvent"] p g);
  st_snapshot : forall p g, P g -> P (add_node ["Snapshot"] p g);
  st_set : forall l i u g, In l ["Component"; "Task"; "Comment"] ->
      P g -> P (set_nodes (matches_id l i) u g);
  st_delete : forall l i g, In l ["Component"; "Comment"] ->
      P g -> P (detach_delete (matches_id l i) g);
  st_relationship : forall s t ty p g, in_enum RelationshipType ty = true ->
      P g -> P (add_edges (matches_id "Component" s) (matches_id "Component" t) ty p g);
  st_relates_to : forall i sb p g,
      P g -> P (add_edges (matches_id "Task" i) sb "RELATES_TO" p g);
  st_has_comment : forall sa i p g,
      P g -> P (add_edges sa (matches_id "Comment" i) "HAS_COMMENT" p g);
  st_schema : forall g, P g -> P (with_unique_id schema_labels g);
  st_clear_restore : forall g, P g -> P (detach_delete clear_for_restore g)
}.

(** Every call keeps a stable [P]; a replay that is not a dry run needs
    its clear statement to keep [P] as well. *)
Lemma stable_exec P o parse c w :
  Stable P ->
  (forall t, c = ReplayToTimestamp t false ->
     forall g, P g -> P (detach_delete clear_for_replay g)) ->
  P (graph w) -> P (graph (exec o parse c w)).
Proof.
  intros [H1 H2 H3 H4 H5 H6 H7 H8 H9 H10 H11 H12] Hrep Hp.
  destruct c; simpl; unfold after.
  - apply (keeps_initializeSchema P); assumption.
  - apply (keeps_createComponent P); assumption.
  - apply (keeps_updateComponent P); assumption.
  - apply (keeps_deleteComponent P); assumption.
  - apply (keeps_create_relationship_row P); assumption.
  - apply (keeps_create_task_row P); assumption.
  - apply (keeps_updateTaskStatus P); assumption.
  - apply (keeps_createComponents P); assumption.
  - apply (keeps_createRelationships P); assumption.
  - apply (keeps_createTasks P); assumption.
  - apply (keeps_createComment P); assumption.
  - apply (keeps_updateComment P); assumption.
  - apply (keeps_deleteComment P); assumption.
  - apply (keeps_recordChange P); assumption.
  - apply (keeps_createSnapshot P); assumption.
  - apply (keeps_restoreFromSnapshot P); assumption.
  - destruct dryRun.
    + apply (keeps_replay_dry_run P); assumption.
    + apply (keeps_replayToTimestamp P); try assumption. eapply Hrep. reflexivity.
Qed.

(** ** Well-formed graphs *)

(** The label sets the store gives to nodes. *)
Definition labels_ok (n : Node) : Prop :=
  (exists t, labels n = ["Component"; t] /\ in_enum ComponentType t = true) \/
  labels n = ["Task"] \/ labels n = ["Comment"] \/
  labels n = ["ChangeEvent"] \/ labels n = ["Snapshot"].

(** Edges end at nodes that were created, and the two internal kinds of
    edge never end, on their non-component side, at a component. *)
Definition edge_ok (g : Graph) (e : Edge) : Prop :=
  esrc e < next_nid g /\ etgt e < next_nid g /\
  (etype e = "HAS_COMMENT" ->
     forall n, In n (nodes g) -> nid n = etgt e -> has_label "Component" n = false) /\
  (etype e = "RELATES_TO" ->
     forall n, In n (nodes g) -> nid n = esrc e -> has_label "Component" n = false).

Record WF (g : Graph) : Prop := {
  wf_labels : forall n, In n (nodes g) -> labels_ok n;
  wf_nid : forall n, In n (nodes g) -> nid n < next_nid g;
  wf_nodup : NoDup (map nid (nodes g));
  wf_edges : forall e, In e (edges g) -> edge_ok g e;
  wf_unique : forall l, In l (unique_id g) -> In l schema_labels
}.

(** Turns a disjunction of boolean string tests into equations. *)
Ltac eqb_cases H :=
  repeat match type of H with
         | (_ || _) = true => apply orb_true_iff in H; destruct H as [H|H]
         | false = true => discriminate H
         | String.eqb _ _ = true => apply String.eqb_eq in H
         end.

Lemma has_label_reserved n l :
  labels_ok n -> In l ["Task"; "Comment"; "ChangeEvent"; "Snapshot"] ->
  has_label l n = true -> labels n = [l].
Proof.
  intros Hok Hl Hhas. unfold has_label in Hhas.
  destruct Hok as [(t & Hls & Ht)|[Hls|[Hls|[Hls|Hls]]]]; rewrite Hls in *;
    cbn [existsb] in Hhas; cbn [In] in Hl;
    repeat (destruct Hl as [<-|Hl]; [|]); try contradiction;
    eqb_cases Hhas; try discriminate; try reflexivity;
    subst t; vm_compute in Ht; discriminate.
Qed.

Lemma reserved_not_component n l :
  labels_ok n -> In l ["Task"; "Comment"; "ChangeEvent"; "Snapshot"] ->
  has_label l n = true -> has_label "Component" n = false.
Proof.
  intros Hok Hl Hhas. pose proof (has_label_reserved n l Hok Hl Hhas) as Hls.
  unfold has_label. rewrite Hls. simpl in Hl.
  repeat (destruct Hl as [<-|Hl]; [reflexivity|]). contradiction.
Qed.

Lemma nid_injective g a b :
  NoDup (map nid (nodes g)) -> In a (nodes g) -> In b (nodes g) ->
  nid a = nid b -> a = b.
Proof.
  generalize (nodes g). intros l. induction l as [|x l IH]; simpl; [contradiction|].
  intros Hnd [->|Ha] [->|Hb] Heq; auto; inversion Hnd; subst.
  - exfalso. apply H1. rewrite Heq. apply in_map. exact Hb.
  - exfalso. apply H1. rewrite <- Heq. apply in_map. exact Ha.
  - apply IH; auto.
Qed.

Lemma NoDup_map_filter {A B} (f : A -> B) (p : A -> bool) l :
  NoDup (map f l) -> NoDup (map f (filter p l)).
Proof.
  induction l as [|x l IH]; simpl; auto.
  intros Hnd. inversion Hnd; subst.
  destruct (p x); simpl; auto.
  constructor; auto.
  intros Hin. apply H1. apply in_map_iff in Hin. destruct Hin as (y & Hy & Hin).
  apply filter_In in Hin. rewrite <- Hy. apply in_map. tauto.
Qed.

Lemma set_node_nid sel u n : nid (set_node sel u n) = nid n.
Proof. unfold set_node. destruct (sel n); reflexivity. Qed.

Lemma set_node_labels sel u n : labels (set_node sel u n) = labels n.
Proof. unfold set_node. destruct (sel n); reflexivity. Qed.

Lemma set_node_has_label sel u l n : has_label l (set_node sel u n) = has_label l n.
Proof. unfold has_label. rewrite set_node_labels. reflexivity. Qed.

Lemma WF_add_node ls p g :
  labels_ok {| nid := 0; labels := ls; nprops := [] |} -> WF g -> WF (add_node ls p g).
Proof.
  intros Hls [Hl Hn Hd He Hu].
  constructor; simpl.
  - intros n Hin. apply in_app_or in Hin. destruct Hin as [Hin|[<-|[]]]; auto.
  - intros n Hin. apply in_app_or in Hin.
    destruct Hin as [Hin|[<-|[]]]; simpl; [apply Hn in Hin; lia|lia].
  - rewrite map_app. simpl. apply NoDup_app; [exact Hd| |].
    + repeat constructor. simpl. tauto.
    + intros a Ha. simpl. intros [<-|[]].
      apply in_map_iff in Ha. destruct Ha as (n & Hn' & Hin).
      apply Hn in Hin. lia.
  - intros e Hin. destruct (He e Hin) as (H1 & H2 & H3 & H4).
    split; [simpl; lia|]. split; [simpl; lia|]. split.
    + intros Ht n Hn' Heq. apply in_app_or in Hn'. destruct Hn' as [Hn'|[<-|[]]].
      * apply H3; auto.
      * simpl in Heq. lia.
    + intros Ht n Hn' Heq. apply in_app_or in Hn'. destruct Hn' as [Hn'|[<-|[]]].
      * apply H4; auto.
      * simpl in Heq. lia.
  - exact Hu.
Qed.

Lemma WF_set_nodes sel u g : WF g -> WF (set_nodes sel u g).
Proof.
  intros [Hl Hn Hd He Hu].
  constructor; simpl.
  - intros n Hin. apply in_map_iff in Hin. destruct Hin as (m & <- & Hin).
    specialize (Hl m Hin). unfold labels_ok in *. rewrite set_node_labels. exact Hl.
  - intros n Hin. apply in_map_iff in Hin. destruct Hin as (m & <- & Hin).
    rewrite set_node_nid. auto.
  - rewrite map_map.
    rewrite (map_ext _ nid); [exact Hd|]. intros; apply set_node_nid.
  - intros e Hin. destruct (He e Hin) as (H1 & H2 & H3 & H4).
    repeat split; simpl; auto.
    + intros Ht n Hn' Heq. apply in_map_iff in Hn'. destruct Hn' as (m & <- & Hm).
      rewrite set_node_has_label. rewrite set_node_nid in Heq. apply H3; auto.
    + intros Ht n Hn' Heq. apply in_map_iff in Hn'. destruct Hn' as (m & <- & Hm).
      rewrite set_node_has_label. rewrite set_node_nid in Heq. apply H4; auto.
  - exact Hu.
Qed.

Lemma WF_detach_delete sel g : WF g -> WF (detach_delete sel g).
Proof.
  intros [Hl Hn Hd He Hu].
  constructor; simpl.
  - intros n Hin. apply filter_In in Hin. apply Hl. tauto.
  - intros n Hin. apply filter_In in Hin. apply Hn. tauto.
  - apply NoDup_map_filter. exact Hd.
  - intros e Hin. apply filter_In in Hin. destruct Hin as [Hin _].
    destruct (He e Hin) as (H1 & H2 & H3 & H4).
    repeat split; simpl; auto.
    + intros Ht n Hn' Heq. apply filter_In in Hn'. apply H3; tauto.
    + intros Ht n Hn' Heq. apply filter_In in Hn'. apply H4; tauto.
  - exact Hu.
Qed.

(** New edges whose kind is not internal, or whose non-component end is
    not a component, keep the graph well formed. *)
Lemma WF_add_edges sa sb t p g :
  (t = "HAS_COMMENT" -> forall b, In b (nodes g) -> sb b = true ->
     has_label "Component" b = false) ->
  (t = "RELATES_TO" -> forall a, In a (nodes g) -> sa a = true ->
     has_label "Component" a = false) ->
  WF g -> WF (add_edges sa sb t p g).
Proof.
  intros Hc Hr HW. pose proof HW as [Hl Hn Hd He Hu].
  constructor; simpl; auto.
  intros e Hin. apply in_app_or in Hin. destruct Hin as [Hin|Hin].
  - destruct (He e Hin) as (H1 & H2 & H3 & H4). repeat split; auto.
  - apply in_map_iff in Hin. destruct Hin as ([a b] & <- & Hab).
    unfold matching_pairs in Hab. apply in_prod_iff in Hab.
    destruct Hab as [Ha Hb]. apply filter_In in Ha, Hb.
    destruct Ha as [Ha Hsa]. destruct Hb as [Hb Hsb].
    repeat split; simpl; auto.
    + intros Ht n Hn' Heq.
      rewrite (nid_injective g n b Hd Hn' Hb Heq). apply Hc; auto.
    + intros Ht n Hn' Heq.
      rewrite (nid_injective g n a Hd Hn' Ha Heq). apply Hr; auto.
Qed.

Lemma matches_id_has_label l i n : matches_id l i n = true -> has_label l n = true.
Proof. unfold matches_id. intros H. apply andb_true_iff in H. tauto. Qed.

Lemma WF_stable : Stable WF.
Proof.
  constructor.
  - intros t p g Ht. apply WF_add_node. left. exists t. auto.
  - intros p g. apply WF_add_node. unfold labels_ok. simpl. auto.
  - intros p g. apply WF_add_node. unfold labels_ok. simpl. auto.
  - intros p g. apply WF_add_node. unfold labels_ok. simpl. auto.
  - intros p g. apply WF_add_node. unfold labels_ok. simpl. auto 6.
  - intros. apply WF_set_nodes. assumption.
  - intros. apply WF_detach_delete. assumption.
  - intros s t ty p g Hty. apply WF_add_edges; intros ->; vm_compute in Hty; discriminate.
  - intros i sb p g HW. apply WF_add_edges; [discriminate| |exact HW].
    intros _ a Ha Hsa. apply (reserved_not_component a "Task").
    + apply (wf_labels g HW). exact Ha.
    + simpl. auto.
    + eapply matches_id_has_label. exact Hsa.
  - intros sa i p g HW. apply WF_add_edges; [|discriminate|exact HW].
    intros _ b Hb Hsb. apply (reserved_not_component b "Comment").
    + apply (wf_labels g HW). exact Hb.
    + simpl. auto.
    + eapply matches_id_has_label. exact Hsb.
  - intros g [Hl Hn Hd He Hu]. constructor; auto.
  - intros. apply WF_detach_delete. assumption.
Qed.

Lemma WF_empty : WF (graph empty_world).
Proof.
  constructor; simpl; try contradiction. constructor.
Qed.

Lemma reachable_WF o parse w : reachable o parse w -> WF (graph w).
Proof.
  induction 1 as [|w c _ IH]; [apply WF_empty|].
  apply stable_exec; auto using WF_stable.
  intros; apply WF_detach_delete; assumption.
Qed.

(** ** Journal and snapshot records stay *)

(** A fixed node is still in the graph. *)
Definition still_there (n : Node) (g : Graph) : Prop := In n (nodes g).

Lemma protected_not_matched n l i :
  labels n = ["ChangeEvent"] \/ labels n = ["Snapshot"] ->
  In l ["Component"; "Task"; "Comment"] -> matches_id l i n = false.
Proof.
  intros Hn Hl. unfold matches_id, has_label.
  simpl in Hl.
  destruct Hn as [-> | ->];
    repeat (destruct Hl as [<-|Hl]; [reflexivity|]); contradiction.
Qed.

Lemma still_there_stable n :
  labels n = ["ChangeEvent"] \/ labels n = ["Snapshot"] -> Stable (still_there n).
Proof.
  intros Hn. unfold still_there.
  constructor; simpl; intros; auto using in_or_app.
  - apply in_map_iff. exists n. split; [|assumption].
    unfold set_node. rewrite protected_not_matched; simpl; tauto.
  - apply filter_In. split; [assumption|].
    rewrite protected_not_matched; simpl in *; tauto.
  - apply filter_In. split; [assumption|].
    unfold clear_for_restore, has_label. destruct Hn as [-> | ->]; reflexivity.
Qed.


Lemma still_there_clear_for_replay n g :
  labels n = ["ChangeEvent"] ->
  still_there n g -> still_there n (detach_delete clear_for_replay g).
Proof.
  intros Hn Hin. unfold still_there in *. simpl. apply filter_In. split; [assumption|].
  unfold clear_for_replay, has_label. rewrite Hn. reflexivity.
Qed.


(** ** Relationship visibility (C8) *)

Lemma node_of_some g i n : node_of g i = Some n -> In n (nodes g) /\ nid n = i.
Proof.
  unfold node_of. intros H. apply find_some in H. destruct H as [Hin Heq].
  apply Nat.eqb_eq in Heq. auto.
Qed.

Lemma outgoing_records_inv g i tag rc :
  In rc (outgoing_records g i tag) ->
  exists c t, In (r rc) (edges g) /\
    In c (nodes g) /\ nid c = esrc (r rc) /\ has_label "Component" c = true /\
    In t (nodes g) /\ nid t = etgt (r rc) /\ has_label "Component" t = true.
Proof.
  unfold outgoing_records. intros H. apply in_flat_map in H.
  destruct H as (e & He & Hrc).
  destruct (node_of g (esrc e)) as [c|] eqn:Hc; [|contradiction].
  destruct (node_of g (etgt e)) as [t|] eqn:Ht; [|contradiction].
  destruct (matches_id "Component" i c && has_label "Component" t) eqn:Hm;
    [|contradiction].
  destruct Hrc as [<-|[]]. simpl.
  apply andb_true_iff in Hm. destruct Hm as [Hm1 Hm2].
  apply matches_id_has_label in Hm1.
  apply node_of_some in Hc, Ht.
  exists c, t. tauto.
Qed.

Lemma incoming_records_inv g i tag rc :
  In rc (incoming_records g i tag) ->
  exists c t, In (r rc) (edges g) /\
    In c (nodes g) /\ nid c = esrc (r rc) /\ has_label "Component" c = true /\
    In t (nodes g) /\ nid t = etgt (r rc) /\ has_label "Component" t = true.
Proof.
  unfold incoming_records. intros H. apply in_flat_map in H.
  destruct H as (e & He & Hrc).
  destruct (node_of g (esrc e)) as [c|] eqn:Hc; [|contradiction].
  destruct (node_of g (etgt e)) as [t|] eqn:Ht; [|contradiction].
  destruct (has_label "Component" c && matches_id "Component" i t) eqn:Hm;
    [|contradiction].
  destruct Hrc as [<-|[]]. simpl.
  apply andb_true_iff in Hm. destruct Hm as [Hm1 Hm2].
  apply matches_id_has_label in Hm2.
  apply node_of_some in Hc, Ht.
  exists c, t. tauto.
Qed.

Lemma relationship_records_inv g i direction rc :
  In rc (relationship_records g i direction) ->
  exists c t, In (r rc) (edges g) /\
    In c (nodes g) /\ nid c = esrc (r rc) /\ has_label "Component" c = true /\
    In t (nodes g) /\ nid t = etgt (r rc) /\ has_label "Component" t = true.
Proof.
  unfold relationship_records.
  destruct (String.eqb direction "outgoing"); [apply outgoing_records_inv|].
  destruct (String.eqb direction "incoming"); [apply incoming_records_inv|].
  intros H. apply in_app_or in H.
  destruct H; [eapply outgoing_records_inv|eapply incoming_records_inv]; eassumption.
Qed.

Lemma map_result_Forall2 {A B} (f : A -> result B) l ys :
  map_result f l = Ok ys -> Forall2 (fun x y => f x = Ok y) l ys.
Proof.
  revert ys. induction l as [|x l IH]; simpl; intros ys.
  - intros [= <-]. constructor.
  - destruct (f x) as [y|e] eqn:Hx; [|discriminate].
    destruct (map_result f l) as [ys'|e]; [|discriminate].
    intros [= <-]. constructor; auto.
Qed.

(** C8: in every state the store can reach, the queries of
    [getComponentRelationships] match no HAS_COMMENT and no RELATES_TO
    edge, for any component id and any direction; the rows the function
    returns are built from the matched records, one row each. *)
Theorem C8_relationships_exclude_internal_kinds :
  forall o parse w componentId direction,
    reachable o parse w ->
    (forall rc, In rc (relationship_records (graph w) componentId direction) ->
       etype (r rc) <> "HAS_COMMENT" /\ etype (r rc) <> "RELATES_TO") /\
    (forall rows, fst (getComponentRelationships o componentId direction w) = Ok rows ->
       Forall2 (fun rc row => relationship row = eprops (r rc)
                              /\ row_target row = nprops (target rc))
         (relationship_records (graph w) componentId direction) rows).
Proof.
  intros o parse w i direction Hr.
  pose proof (reachable_WF o parse w Hr) as HW.
  split.
  - intros rc Hrc.
    destruct (relationship_records_inv _ _ _ _ Hrc)
      as (c & t & He & Hc & Hcn & Hcl & Ht & Htn & Htl).
    destruct (wf_edges _ HW _ He) as (_ & _ & Hcom & Hrel).
    split; intros Hty.
    + rewrite (Hcom Hty t Ht Htn) in Htl. discriminate.
    + rewrite (Hrel Hty c Hc Hcn) in Hcl. discriminate.
  - intros rows Hrows. unfold getComponentRelationships, bind, get_graph, lift in Hrows.
    simpl in Hrows. apply map_result_Forall2 in Hrows.
    eapply Forall2_impl; [|exact Hrows].
    intros rc row H. simpl in H.
    destruct (record_direction o direction rc); [|discriminate].
    injection H as <-. auto.
Qed.

Lemma reachable_exec_all o parse cs w :
  reachable o parse w -> reachable o parse (exec_all o parse cs w).
Proof.
  revert w. induction cs as [|c cs IH]; simpl; intros w Hr; [exact Hr|].
  apply IH. constructor. exact Hr.
Qed.

Lemma reachable_run cs : reachable Demo.oracle DemoStore.parse (DemoStore.run cs).
Proof. apply reachable_exec_all. constructor. Qed.

(** The theorem at the demo graph, which holds a CONTAINS, a RELATES_TO and
    a HAS_COMMENT edge at component [id_a]. *)
Lemma C8_relationships_witness :
  reachable Demo.oracle DemoStore.parse DemoStore.small_world /\
  forall rc, In rc (relationship_records (graph DemoStore.small_world)
                      (VStr DemoStore.id_a) "both") ->
    etype (r rc) <> "HAS_COMMENT" /\ etype (r rc) <> "RELATES_TO".
Proof.
  assert (H : reachable Demo.oracle DemoStore.parse DemoStore.small_world)
    by (apply reachable_run).
  split; [exact H|].
  apply (C8_relationships_exclude_internal_kinds
           Demo.oracle DemoStore.parse DemoStore.small_world
           (VStr DemoStore.id_a) "both" H).
Defined.

(** ** Restore and replay keep the journal (C3) *)

Lemma label_of_protected g n l :
  WF g -> In n (nodes g) -> In l ["ChangeEvent"; "Snapshot"] ->
  has_label l n = true -> labels n = [l].
Proof.
  intros HW Hin Hl Hhas.
  apply has_label_reserved; [apply (wf_labels g HW); exact Hin| |exact Hhas].
  cbn [In] in *. tauto.
Qed.

(** C3 (amended): from every state the store can reach,
    [restoreFromSnapshot(id, false)] leaves every ChangeEvent and every
    Snapshot node in the graph as it was, and [replayToTimestamp(t, false)]
    leaves every ChangeEvent node in the graph as it was. *)
Theorem C3_restore_keeps_records_replay_keeps_journal :
  forall o parse w n snapshotId targetTimestamp,
    reachable o parse w ->
    In n (nodes (graph w)) ->
    (has_label "ChangeEvent" n = true \/ has_label "Snapshot" n = true ->
       In n (nodes (graph (after (restoreFromSnapshot o parse snapshotId false) w)))) /\
    (has_label "ChangeEvent" n = true ->
       In n (nodes (graph (after (replayToTimestamp o parse targetTimestamp false) w)))).
Proof.
  intros o parse w n sid t Hr Hin.
  pose proof (reachable_WF o parse w Hr) as HW.
  split.
  - intros Hl.
    assert (Hn : labels n = ["ChangeEvent"] \/ labels n = ["Snapshot"]).
    { destruct Hl as [Hl|Hl]; [left|right];
        apply (label_of_protected (graph w)); simpl; auto. }
    apply (stable_exec (still_there n) o parse (RestoreFromSnapshot sid false) w);
      [apply still_there_stable; exact Hn|discriminate|exact Hin].
  - intros Hl.
    assert (Hn : labels n = ["ChangeEvent"])
      by (apply (label_of_protected (graph w)); simpl; auto).
    apply (stable_exec (still_there n) o parse (ReplayToTimestamp t false) w);
      [apply still_there_stable; auto| |exact Hin].
    intros _ _ g. apply still_there_clear_for_replay. exact Hn.
Qed.

Lemma in_filter_first {A} (p : A -> bool) l x rest :
  filter p l = x :: rest -> In x l /\ p x = true.
Proof.
  intros H. apply filter_In. rewrite H. left. reflexivity.
Qed.

(** The theorem at the demo graph with its snapshot: the first journal
    entry survives the restore of that snapshot and a replay. *)
Lemma C3_restore_replay_witness :
  (reachable Demo.oracle DemoStore.parse DemoStore.snapshot_world /\
   In (hd (new_node [] [] (graph empty_world)) (journal (graph DemoStore.snapshot_world)))
      (nodes (graph DemoStore.snapshot_world))) /\
  (In (hd (new_node [] [] (graph empty_world)) (journal (graph DemoStore.snapshot_world)))
      (nodes (graph (after (restoreFromSnapshot Demo.oracle DemoStore.parse
                              DemoStore.snapshot_id false) DemoStore.snapshot_world))) /\
   In (hd (new_node [] [] (graph empty_world)) (journal (graph DemoStore.snapshot_world)))
      (nodes (graph (after (replayToTimestamp Demo.oracle DemoStore.parse
                              "2026-01-01T00:00:00.000Z" false) DemoStore.snapshot_world)))).
Proof.
  assert (Hr : reachable Demo.oracle DemoStore.parse DemoStore.snapshot_world)
    by (apply reachable_run).
  assert (Hin : In (hd (new_node [] [] (graph empty_world))
                      (journal (graph DemoStore.snapshot_world)))
                   (nodes (graph DemoStore.snapshot_world)))
    by (vm_compute; tauto).
  split; [split; assumption|].
  destruct (C3_restore_keeps_records_replay_keeps_journal
              Demo.oracle DemoStore.parse DemoStore.snapshot_world _
              DemoStore.snapshot_id "2026-01-01T00:00:00.000Z" Hr Hin) as [H1 H2].
  split; [apply H1; left; reflexivity|apply H2; reflexivity].
Defined.

(** C3, as stated, fails for replay: the demo graph holds a Snapshot node,
    and after [replayToTimestamp(t, false)] it holds none. *)
Lemma C3_counterexample_replay_deletes_snapshots :
  length (snapshots (graph DemoStore.snapshot_world)) = 1 /\
  snapshots (graph (after (replayToTimestamp Demo.oracle DemoStore.parse
                             "2026-01-01T00:00:00.000Z" false) DemoStore.snapshot_world))
  = [].
Proof. vm_compute. split; reflexivity. Qed.

(** ** Which mutations are journaled (C1) *)

Definition journal_at_most (k : nat) (g : Graph) : Prop := length (journal g) <= k.

Lemma filter_map_set_node l sel u ns :
  filter (has_label l) (map (set_node sel u) ns)
  = map (set_node sel u) (filter (has_label l) ns).
Proof.
  induction ns as [|n ns IH]; simpl; auto.
  rewrite set_node_has_label. destruct (has_label l n); simpl; congruence.
Qed.

Lemma filter_filter_length {A} (p q : A -> bool) l :
  length (filter p (filter q l)) <= length (filter p l).
Proof.
  induction l as [|x l IH]; simpl; auto.
  destruct (q x); simpl; destruct (p x); simpl; lia.
Qed.

Lemma journal_at_most_set k sel u g :
  journal_at_most k g -> journal_at_most k (set_nodes sel u g).
Proof.
  unfold journal_at_most, journal. simpl. rewrite filter_map_set_node, length_map. auto.
Qed.

Lemma journal_at_most_delete k sel g :
  journal_at_most k g -> journal_at_most k (detach_delete sel g).
Proof.
  unfold journal_at_most, journal. simpl. intros H.
  eapply Nat.le_trans; [apply filter_filter_length|exact H].
Qed.

Lemma journal_at_most_add_node k ls p g :
  existsb (String.eqb "ChangeEvent") ls = false ->
  journal_at_most k g -> journal_at_most k (add_node ls p g).
Proof.
  unfold journal_at_most, journal. simpl. intros Hls H.
  rewrite filter_app. simpl. unfold has_label at 2. simpl. rewrite Hls.
  rewrite app_nil_r. exact H.
Qed.

(** C1 fails on the code: of the single-entity mutations only
    [createComponent] calls [recordChange].  For every state of the store,
    [updateComponent], [deleteComponent], [createRelationship],
    [createTask] and [updateTaskStatus] leave the journal no longer than it
    was; and in scenario S1 (create, update, delete one component, each of
    them committed) the journal and the entity history hold the
    CREATE_COMPONENT entry alone. *)
Theorem C1_only_createComponent_is_journaled :
  (forall o w i u d s p,
     let before := length (journal (graph w)) in
     length (journal (graph (after (updateComponent i u) w))) <= before /\
     length (journal (graph (after (deleteComponent i) w))) <= before /\
     length (journal (graph (after (createRelationship o d) w))) <= before /\
     length (journal (graph (after (createTask o d) w))) <= before /\
     length (journal (graph (after (updateTaskStatus i s p) w))) <= before) /\
  (let w1 := DemoStore.run [InitializeSchema; CreateComponent DemoStore.file_a []] in
   let r2 := updateComponent (VStr DemoStore.id_a) [("description", VStr "root")] w1 in
   let r3 := deleteComponent (VStr DemoStore.id_a) (snd r2) in
   match fst (getComponent (VStr DemoStore.id_a) (snd r2)) with
   | Ok (Some c) => get_or_null "description" c = VStr "root"
   | _ => False
   end /\
   fst r3 = Ok true /\
   fst (getComponent (VStr DemoStore.id_a) (snd r3)) = Ok None /\
   snd r3 = DemoStore.s1_world /\
   map (prop "operation") (journal (graph (snd r3))) = [VStr "CREATE_COMPONENT"] /\
   match fst (getEntityHistory DemoStore.parse (VStr DemoStore.id_a) 50 (snd r3)) with
   | Ok h => map (get_or_null "operation") h = [VStr "CREATE_COMPONENT"]
   | Throw _ => False
   end).
Proof.
  split.
  - intros o w i u d s p before.
    assert (H0 : journal_at_most before (graph w)) by apply Nat.le_refl.
    repeat split.
    + apply (keeps_updateComponent (journal_at_most before)); auto.
      intros; apply journal_at_most_set; assumption.
    + apply (keeps_deleteComponent (journal_at_most before)); auto.
      intros; apply journal_at_most_delete; assumption.
    + apply (keeps_create_relationship_row (journal_at_most before) o); auto.
    + apply (keeps_create_task_row (journal_at_most before) o); auto.
      intros; apply journal_at_most_add_node; auto.
    + apply (keeps_updateTaskStatus (journal_at_most before)); auto.
      intros; apply journal_at_most_set; assumption.
  - vm_compute. repeat split; reflexivity.
Qed.

(** ** Validation of tasks (C7) *)

(** What holds of C7: [createTask] validates before it touches the graph.
    A status outside the enumeration or a progress outside [0,1] makes
    [new Task] throw, and the graph is as it was. *)
Lemma createTask_rejects_invalid o d w :
  (forall s, JsMap.get "status" d = Some (VStr s) -> in_enum TaskStatus s = false) \/
  (exists q, JsMap.get "progress" d = Some (VNum q) /\ in_range 0 1 q = false) ->
  (exists e, fst (createTask o d w) = Throw (ZodError e)) /\
  graph (snd (createTask o d w)) = graph w.
Proof.
  intros Hbad.
  assert (Hparse : forall i, exists e, parse_task (JsMap.set "id" i d) = Throw (ZodError e)).
  { intros i. unfold parse_task.
    assert (Hs : forall k, k <> "id" ->
              JsMap.get k (JsMap.set "id" i d) = JsMap.get k d)
      by (intros k Hk; apply QueueProps.get_set_other; congruence).
    destruct Hbad as [Hst|(q & Hq & Hr)].
    - assert (E : req_enum TaskStatus "status" (JsMap.set "id" i d) = None).
      { unfold req_enum, req_string. rewrite Hs by discriminate.
        destruct (JsMap.get "status" d) as [[| | |s| | |]|] eqn:Eg; auto.
        rewrite (Hst s eq_refl). reflexivity. }
      rewrite E.
      destruct (req_uuid "id" _), (req_nonempty "name" _), (opt_string "description" _),
        (progress_field "progress" _); eauto.
    - assert (E : progress_field "progress" (JsMap.set "id" i d) = None).
      { unfold progress_field. rewrite Hs by discriminate. rewrite Hq, Hr. reflexivity. }
      rewrite E.
      destruct (req_uuid "id" _), (req_nonempty "name" _), (opt_string "description" _),
        (req_enum TaskStatus "status" _); eauto. }
  unfold createTask, create_task_row, bind, id_or_uuid, lift.
  destruct (truthy (get_or_null "id" d)); simpl.
  - destruct (Hparse (get_or_null "id" d)) as [e ->]. simpl. eauto.
  - destruct (Hparse (VStr (uuid_at o (ticks w)))) as [e ->]. simpl. eauto.
Qed.

(** C7 fails on the code for [updateTaskStatus], which validates nothing:
    it returns for every status and every progress; and on the demo graph,
    whose task was created with status TODO and progress 1/2, the call with
    status "BOGUS" and progress 5 returns the task with these values, and
    the stored task carries them afterwards. *)
Theorem C7_updateTaskStatus_accepts_invalid_values :
  (forall i s p w, exists r, fst (updateTaskStatus i s p w) = Ok r) /\
  let r := updateTaskStatus (VStr DemoStore.id_t) (VStr "BOGUS") (VNum 5)
             DemoStore.small_world in
  in_enum TaskStatus "BOGUS" = false /\
  in_range 0 1 5 = false /\
  match fst (getTask (VStr DemoStore.id_t) DemoStore.small_world) with
  | Ok (Some t) => get_or_null "status" t = VStr "TODO" /\
                   get_or_null "progress" t = VNum (1 # 2)
  | _ => False
  end /\
  (exists t, fst r = Ok (Some t) /\
             get_or_null "status" t = VStr "BOGUS" /\ get_or_null "progress" t = VNum 5) /\
  match fst (getTask (VStr DemoStore.id_t) (snd r)) with
  | Ok (Some t) => get_or_null "status" t = VStr "BOGUS" /\
                   get_or_null "progress" t = VNum 5
  | _ => False
  end.
Proof.
  split; [intros i s p w; eexists; reflexivity|].
  vm_compute. repeat split; try reflexivity.
  eexists. repeat split; reflexivity.
Qed.

(** ** Before and after states as read back (C9) *)

Lemma get_stored_cons_other k k' v b :
  k <> k' -> get_or_null k (stored ((k', v) :: b)) = get_or_null k (stored b).
Proof.
  intros Hne. apply String.eqb_neq in Hne. unfold get_or_null.
  cbn [stored filter snd]. destruct v; cbn [JsMap.get]; rewrite ?Hne; reflexivity.
Qed.

Lemma get_stored_cons_same k v b :
  v <> VNull -> get_or_null k (stored ((k, v) :: b)) = v.
Proof.
  intros Hv. unfold get_or_null. cbn [stored filter snd].
  destruct v; try congruence; cbn [JsMap.get]; rewrite String.eqb_refl; reflexivity.
Qed.

Lemma get_stored_set_other k k' v b :
  k <> k' ->
  get_or_null k (stored (JsMap.set k' v b)) = get_or_null k (stored b).
Proof.
  intros Hne. apply String.eqb_neq in Hne. unfold get_or_null.
  induction b as [|[k0 v0] b IH]; cbn [JsMap.set stored filter snd].
  - destruct v; cbn [JsMap.get]; rewrite ?Hne; reflexivity.
  - destruct (String.eqb k' k0) eqn:E; cbn [stored filter snd].
    + apply String.eqb_eq in E. subst k0.
      destruct v, v0; cbn [JsMap.get]; rewrite ?Hne; reflexivity.
    + fold (stored (JsMap.set k' v b)). fold (stored b).
      destruct v0; cbn [JsMap.get]; try exact IH;
        destruct (String.eqb k k0); auto.
Qed.

Lemma get_stored_spread k m : forall b,
  JsMap.get k m = None ->
  get_or_null k (stored (spread b m)) = get_or_null k (stored b).
Proof.
  induction m as [|[k' v] m IH]; intros b Hm; [reflexivity|].
  cbn [JsMap.get] in Hm. destruct (String.eqb k k') eqn:E; [discriminate|].
  unfold spread. cbn [fold_left fst snd]. fold (spread (JsMap.set k' v b) m).
  rewrite IH by exact Hm. apply get_stored_set_other.
  apply String.eqb_neq. exact E.
Qed.

(** What [recordChange] does to the graph: it adds one ChangeEvent node,
    or, when the backend rejects the node, nothing. *)
Lemma recordChange_run o op ty ei b a md w :
  let c := changeEvent (uuid_at o (ticks w)) (time_at o (S (ticks w))) op ty ei b a md in
  let w2 := {| graph := graph w; ticks := S (S (ticks w)) |} in
  recordChange o op ty ei b a md w =
  if violates_unique (graph w) ["ChangeEvent"] (stored c)
  then (Throw (Neo4jError "Node already exists with this id"), w2)
  else (Ok c, {| graph := add_node ["ChangeEvent"] c (graph w);
                 ticks := S (S (ticks w)) |}).
Proof.
  intros c w2. unfold recordChange, bind, uuidv4, toISOString_now.
  cbn [fst snd graph ticks]. fold c.
  unfold cypher_create, bind, get_graph. cbn [fst snd graph ticks].
  destruct (violates_unique (graph w) ["ChangeEvent"] (stored c)); reflexivity.
Qed.

(** An entry recorded with a null [beforeState], by a caller that does not
    override the field through the metadata, is read back with the empty
    object in its place. *)
Lemma null_beforeState_reads_back_as_empty_object o parse op ty ei a md w n :
  JsMap.get "beforeState" md = None ->
  In n (journal (graph (after (recordChange o op ty ei VNull a md) w))) ->
  ~ In n (journal (graph w)) ->
  parse_state parse "beforeState" (nprops n) = Ok (VObj []).
Proof.
  intros Hmd Hin Hnew.
  unfold after in Hin. rewrite recordChange_run in Hin.
  match type of Hin with context [violates_unique ?g ?ls ?p] =>
    destruct (violates_unique g ls p) end; cbn [snd graph] in Hin; [contradiction|].
  unfold journal, add_node in Hin. cbn [nodes] in Hin. rewrite filter_app in Hin.
  apply in_app_or in Hin. destruct Hin as [Hin|Hin]; [contradiction|].
  apply filter_In in Hin. destruct Hin as [[<-|[]] _].
  unfold parse_state, new_node, changeEvent. cbn [nprops].
  rewrite get_stored_spread by exact Hmd.
  rewrite !get_stored_cons_other by discriminate.
  rewrite get_stored_cons_same by discriminate.
  reflexivity.
Qed.

(** C9 fails on the code: [recordChange] stores [JSON.stringify(state ||
    {})], so a null state is stored as the text of the empty object, which
    is truthy and parses to the empty object.  The CREATE_COMPONENT entry of
    scenario S1 is read back by [getEntityHistory] and by
    [getRecentChanges] with [beforeState] the empty object, not null; and a
    DELETE_COMPONENT entry recorded with a null [afterState] is read back
    with [afterState] the empty object. *)
Theorem C9_null_states_read_back_as_empty_objects :
  (match fst (getEntityHistory DemoStore.parse (VStr DemoStore.id_a) 50 DemoStore.s1_world) with
   | Ok [c] => get_or_null "operation" c = VStr "CREATE_COMPONENT" /\
               JsMap.get "beforeState" c = Some (VObj [])
   | _ => False
   end) /\
  (match fst (getRecentChanges DemoStore.parse 100 VNull DemoStore.s1_world) with
   | Ok [c] => get_or_null "operation" c = VStr "CREATE_COMPONENT" /\
               JsMap.get "beforeState" c = Some (VObj [])
   | _ => False
   end) /\
  (let w := after (recordChange Demo.oracle "DELETE_COMPONENT" "COMPONENT"
                     (VStr DemoStore.id_b) (VObj DemoStore.class_b) VNull [])
                  DemoStore.s1_world in
   match fst (getEntityHistory DemoStore.parse (VStr DemoStore.id_b) 50 w) with
   | Ok [c] => get_or_null "operation" c = VStr "DELETE_COMPONENT" /\
               JsMap.get "afterState" c = Some (VObj [])
   | _ => False
   end).
Proof. vm_compute. repeat split; reflexivity. Qed.

(** ** Which entries a replay considers (C5) *)

Section OrderBy.
Context {A : Type} (leb : A -> A -> bool).
Hypothesis leb_total : forall a b, leb a b = true \/ leb b a = true.

Lemma insert_sorted_perm x l : Permutation (insert_sorted leb x l) (x :: l).
Proof.
  induction l as [|y l IH]; simpl; [reflexivity|].
  destruct (leb x y); [reflexivity|].
  rewrite IH. apply perm_swap.
Qed.

Lemma order_by_perm l : Permutation (order_by leb l) l.
Proof.
  induction l as [|x l IH]; simpl; [constructor|].
  rewrite insert_sorted_perm. constructor. exact IH.
Qed.

Lemma insert_sorted_sorted x l :
  Sorted (fun a b => leb a b = true) l ->
  Sorted (fun a b => leb a b = true) (insert_sorted leb x l).
Proof.
  induction l as [|y l IH]; simpl; intros Hs.
  - repeat constructor.
  - destruct (leb x y) eqn:E.
    + constructor; [exact Hs|]. constructor. exact E.
    + inversion Hs as [|? ? Hs' Hhd]; subst.
      constructor; [apply IH; exact Hs'|].
      assert (Hyx : leb y x = true)
        by (destruct (leb_total x y) as [H|H]; congruence).
      destruct l as [|z l]; simpl.
      * constructor. exact Hyx.
      * destruct (leb x z); constructor; auto.
        inversion Hhd; assumption.
Qed.

Lemma order_by_sorted l : Sorted (fun a b => leb a b = true) (order_by leb l).
Proof.
  induction l as [|x l IH]; simpl; [constructor|].
  apply insert_sorted_sorted. exact IH.
Qed.
End OrderBy.

Lemma Qle_bool_total x y : Qle_bool x y = true \/ Qle_bool y x = true.
Proof.
  destruct (Qlt_le_dec x y) as [H|H].
  - left. apply Qle_bool_iff. apply Qlt_le_weak. exact H.
  - right. apply Qle_bool_iff. exact H.
Qed.

Lemma cypher_leb_total a b : cypher_leb a b = true \/ cypher_leb b a = true.
Proof.
  destruct a as [[| x | x | x | x | x | x]|], b as [[| y | y | y | y | y | y]|];
    cbn; auto.
  - destruct x, y; cbn; auto.
  - apply Qle_bool_total.
  - apply String.leb_total.
Qed.



(** [decode] touches the two state fields only. *)
Lemma decode_other_fields parse c d k :
  decode parse c = Ok d -> k <> "beforeState" -> k <> "afterState" ->
  get_or_null k d = get_or_null k (nprops c).
Proof.
  unfold decode. intros H Hb Ha.
  destruct (parse_state parse "beforeState" (nprops c)); [|discriminate].
  destruct (parse_state parse "afterState" (nprops c)); [|discriminate].
  injection H as <-. unfold get_or_null.
  rewrite !QueueProps.get_set_other by congruence. reflexivity.
Qed.






Lemma getChangesByTimeRange_run parse s e n w :
  getChangesByTimeRange parse s e n w
  = (map_result (decode parse) (changes_in_range s e n (graph w)), w).
Proof. reflexivity. Qed.




(** ** The effect of a restore (C4, C10)

    [triple P m Q E]: from a graph satisfying [P], [m] either returns [a]
    in a graph satisfying [Q a], or throws in a graph satisfying [E]. *)
Definition triple {A} (P : Graph -> Prop) (m : M A)
    (Q : A -> Graph -> Prop) (E : Graph -> Prop) : Prop :=
  forall w, P (graph w) ->
    match m w with
    | (Ok a, w') => Q a (graph w')
    | (Throw _, w') => E (graph w')
    end.

Lemma triple_bind {A B} P (m : M A) (k : A -> M B) R Q E :
  triple P m R E -> (forall a, triple (R a) (k a) Q E) -> triple P (bind m k) Q E.
Proof.
  intros Hm Hk w Hp. unfold bind. specialize (Hm w Hp).
  destruct (m w) as [[a|e] w']; [apply Hk; exact Hm|exact Hm].
Qed.

Lemma triple_ret {A} P (a : A) (Q : A -> Graph -> Prop) E :
  (forall g, P g -> Q a g) -> triple P (ret a) Q E.
Proof. intros H w Hp. simpl. auto. Qed.

Lemma triple_lift {A} P (r : result A) (Q : A -> Graph -> Prop) (E : Graph -> Prop) :
  (forall a g, r = Ok a -> P g -> Q a g) ->
  (forall e g, r = Throw e -> P g -> E g) ->
  triple P (lift r) Q E.
Proof. intros Hq He w Hp. unfold lift. destruct r; eauto. Qed.

Lemma triple_uuidv4 P o (Q : string -> Graph -> Prop) E :
  (forall s g, P g -> Q s g) -> triple P (uuidv4 o) Q E.
Proof. intros H w Hp. simpl. auto. Qed.

Lemma triple_now P o (Q : string -> Graph -> Prop) E :
  (forall s g, P g -> Q s g) -> triple P (toISOString_now o) Q E.
Proof. intros H w Hp. simpl. auto. Qed.

Lemma triple_id_or_uuid P o d (Q : value -> Graph -> Prop) E :
  (forall i g, P g ->
     i = get_or_null "id" d \/ truthy (get_or_null "id" d) = false -> Q i g) ->
  triple P (id_or_uuid o d) Q E.
Proof.
  intros H w Hp. unfold id_or_uuid.
  destruct (truthy (get_or_null "id" d)) eqn:Et; simpl; auto.
Qed.

Lemma triple_create P ls p (Q : Node -> Graph -> Prop) (E : Graph -> Prop) :
  (forall g, P g -> violates_unique g ls (stored p) = true -> E g) ->
  (forall g, P g -> violates_unique g ls (stored p) = false ->
     Q (new_node ls p g) (add_node ls p g)) ->
  triple P (cypher_create ls p) Q E.
Proof.
  intros He Hq w Hp. unfold cypher_create, bind, get_graph. cbn [fst snd].
  destruct (violates_unique (graph w) ls (stored p)) eqn:Ev; simpl; auto.
Qed.

Lemma triple_create_edges P sa sb t p (Q : list (Edge * Node * Node) -> Graph -> Prop) E :
  (forall g, P g ->
     Q (map (fun ab => (new_edge t p ab, fst ab, snd ab)) (matching_pairs sa sb g))
       (add_edges sa sb t p g)) ->
  triple P (cypher_create_edges sa sb t p) Q E.
Proof. intros Hq w Hp. unfold cypher_create_edges, bind, get_graph. simpl. auto. Qed.

Lemma triple_of_hoare {A} P (m : M A) (E : Graph -> Prop) :
  hoare P m (fun _ => True) -> (forall g, P g -> E g) ->
  triple P m (fun _ g => P g) E.
Proof.
  intros Hm He w Hp. destruct (Hm w Hp) as [Hp' _].
  destruct (m w) as [[a|e] w']; simpl in *; auto.
Qed.

Lemma triple_conseq {A} (P P' : Graph -> Prop) (m : M A) (Q Q' : A -> Graph -> Prop)
    (E E' : Graph -> Prop) :
  triple P m Q E -> (forall g, P' g -> P g) ->
  (forall a g, Q a g -> Q' a g) -> (forall g, E g -> E' g) ->
  triple P' m Q' E'.
Proof.
  intros Hm Hp Hq He w Hw. specialize (Hm w (Hp _ Hw)).
  destruct (m w) as [[a|e] w']; auto.
Qed.

(** *** How the entity sets change *)

Lemma filter_label_add_node l ls p g :
  filter (has_label l) (nodes (add_node ls p g))
  = filter (has_label l) (nodes g)
    ++ (if existsb (String.eqb l) ls then [new_node ls p g] else []).
Proof.
  unfold add_node. cbn [nodes]. rewrite filter_app. cbn [filter].
  unfold has_label at 2. cbn [labels new_node]. destruct (existsb (String.eqb l) ls); reflexivity.
Qed.

Lemma component_label_only t l :
  in_enum ComponentType t = true ->
  In l ["Task"; "Comment"; "ChangeEvent"; "Snapshot"] ->
  existsb (String.eqb l) ["Component"; t] = false.
Proof.
  intros Ht Hl.
  destruct (existsb (String.eqb l) ["Component"; t]) eqn:E; [|reflexivity].
  assert (Hok : labels_ok {| nid := 0; labels := ["Component"; t]; nprops := [] |})
    by (left; exists t; auto).
  pose proof (has_label_reserved _ l Hok Hl E) as H. cbn [labels] in H.
  discriminate.
Qed.

(** The state of a restore in progress: journal [J], components [C],
    tasks [T], and no comment. *)
Definition St (J C T : list Node) (g : Graph) : Prop :=
  WF g /\ journal g = J /\ components g = C /\ tasks g = T /\ comments g = [].

Lemma component_label_first t : existsb (String.eqb "Component") ["Component"; t] = true.
Proof. cbn [existsb]. rewrite String.eqb_refl. reflexivity. Qed.

Lemma St_add_component J C T t p g :
  in_enum ComponentType t = true -> St J C T g ->
  St J (C ++ [new_node ["Component"; t] p g]) T (add_node ["Component"; t] p g).
Proof.
  intros Ht (HW & HJ & HC & HT & HM).
  unfold St, journal, components, tasks, comments in *.
  rewrite !filter_label_add_node.
  rewrite (component_label_only t "ChangeEvent"), (component_label_only t "Task"),
    (component_label_only t "Comment"), component_label_first
    by (try exact Ht; cbn [In]; auto 6).
  rewrite !app_nil_r.
  split; [apply (st_component WF WF_stable); assumption|].
  split; [exact HJ|]. split; [congruence|]. split; [exact HT|exact HM].
Qed.

Lemma St_add_task J C T p g :
  St J C T g -> St J C (T ++ [new_node ["Task"] p g]) (add_node ["Task"] p g).
Proof.
  intros (HW & HJ & HC & HT & HM).
  unfold St, journal, components, tasks, comments in *.
  rewrite !filter_label_add_node.
  change (existsb (String.eqb "ChangeEvent") ["Task"]) with false.
  change (existsb (String.eqb "Component") ["Task"]) with false.
  change (existsb (String.eqb "Comment") ["Task"]) with false.
  change (existsb (String.eqb "Task") ["Task"]) with true.
  rewrite !app_nil_r.
  split; [apply (st_task WF WF_stable); assumption|].
  split; [exact HJ|]. split; [exact HC|]. split; [congruence|exact HM].
Qed.

Lemma St_add_change J C T p g :
  St J C T g -> St (J ++ [new_node ["ChangeEvent"] p g]) C T (add_node ["ChangeEvent"] p g).
Proof.
  intros (HW & HJ & HC & HT & HM).
  unfold St, journal, components, tasks, comments in *.
  rewrite !filter_label_add_node.
  change (existsb (String.eqb "ChangeEvent") ["ChangeEvent"]) with true.
  change (existsb (String.eqb "Component") ["ChangeEvent"]) with false.
  change (existsb (String.eqb "Comment") ["ChangeEvent"]) with false.
  change (existsb (String.eqb "Task") ["ChangeEvent"]) with false.
  rewrite !app_nil_r.
  split; [apply (st_change WF WF_stable); assumption|].
  split; [congruence|]. split; [exact HC|]. split; [exact HT|exact HM].
Qed.

Lemma St_add_edges J C T sa sb t p g :
  WF (add_edges sa sb t p g) -> St J C T g -> St J C T (add_edges sa sb t p g).
Proof.
  intros HW' (HW & HJ & HC & HT & HM).
  split; [exact HW'|]. split; [exact HJ|]. split; [exact HC|]. split; [exact HT|exact HM].
Qed.

Lemma filter_filter_nil {A} (p q : A -> bool) l :
  (forall x, In x l -> q x = true -> p x = false) -> filter p (filter q l) = [].
Proof.
  induction l as [|x l IH]; intros H; cbn [filter]; [reflexivity|].
  destruct (q x) eqn:Eq; cbn [filter].
  - rewrite (H x (or_introl eq_refl) Eq). apply IH. intros; apply H; cbn [In]; auto.
  - apply IH. intros; apply H; cbn [In]; auto.
Qed.

Lemma filter_filter_same {A} (p q : A -> bool) l :
  (forall x, p x = true -> q x = true) -> filter p (filter q l) = filter p l.
Proof.
  intros H. induction l as [|x l IH]; cbn [filter]; [reflexivity|].
  destruct (q x) eqn:Eq; cbn [filter].
  - rewrite IH. reflexivity.
  - destruct (p x) eqn:Ep; [|exact IH].
    rewrite (H x Ep) in Eq. discriminate.
Qed.

Lemma kept_is_no_entity g n l :
  WF g -> In n (nodes g) -> negb (clear_for_restore n) = true ->
  In l ["Component"; "Task"; "Comment"] -> has_label l n = false.
Proof.
  intros HW Hin Hk Hl. unfold clear_for_restore in Hk. rewrite negb_involutive in Hk.
  assert (Hls : labels n = ["ChangeEvent"] \/ labels n = ["Snapshot"]).
  { apply orb_true_iff in Hk. destruct Hk as [Hk|Hk]; [left|right];
      apply (label_of_protected g); cbn [In]; auto. }
  unfold has_label. cbn [In] in Hl.
  destruct Hls as [-> | ->];
    repeat (destruct Hl as [<-|Hl]; [reflexivity|]); contradiction.
Qed.

(** After the clear of a restore only journal and snapshot nodes are left. *)
Lemma St_after_clear g :
  WF g -> St (journal g) [] [] (detach_delete clear_for_restore g).
Proof.
  intros HW.
  assert (Hnone : forall l, In l ["Component"; "Task"; "Comment"] ->
            filter (has_label l)
              (filter (fun n => negb (clear_for_restore n)) (nodes g)) = []).
  { intros l Hl. apply filter_filter_nil. intros n Hin Hk.
    eapply kept_is_no_entity; eassumption. }
  split; [apply WF_detach_delete; exact HW|].
  unfold journal, components, tasks, comments, detach_delete. cbn [nodes].
  split; [|repeat split; apply Hnone; cbn [In]; auto].
  apply filter_filter_same. intros n Hn. unfold clear_for_restore.
  rewrite Hn. reflexivity.
Qed.

(** *** One component, one task, one relationship *)

(** Node [n] is what [createComponent] builds from the object [d]. *)
Definition component_from (d : obj) (n : Node) : Prop :=
  exists i c,
    (i = get_or_null "id" d \/ truthy (get_or_null "id" d) = false) /\
    parse_component (JsMap.set "id" i d) = Ok c /\
    labels n = ["Component"; type c] /\
    nprops n = stored (component_props c).

(** Node [n] is what [createTask] builds from the object [d]. *)
Definition task_from (d : obj) (n : Node) : Prop :=
  exists i t,
    (i = get_or_null "id" d \/ truthy (get_or_null "id" d) = false) /\
    parse_task (JsMap.set "id" i d) = Ok t /\
    labels n = ["Task"] /\
    nprops n = stored (task_props t).

(** Journal entry [ce] is the CREATE_COMPONENT entry of component node [n],
    recorded without metadata. *)
Definition create_entry_of (n ce : Node) : Prop :=
  labels ce = ["ChangeEvent"] /\
  exists i t,
    nprops ce = stored (changeEvent i t "CREATE_COMPONENT" "COMPONENT"
                          (get_or_null "id" (nprops n)) VNull (VObj (nprops n)) []).

Lemma triple_recordChange P o op ty ei b a md (Q : obj -> Graph -> Prop) E :
  (forall g, P g -> E g) ->
  (forall g i t, P g ->
     let c := changeEvent i t op ty ei b a md in
     Q c (add_node ["ChangeEvent"] c g)) ->
  triple P (recordChange o op ty ei b a md) Q E.
Proof.
  intros He Hq w Hp. rewrite recordChange_run.
  destruct (violates_unique _ _ _); cbn [graph]; auto.
Qed.

Lemma createComponent_effect o d J C T :
  triple (St J C T) (createComponent o d [])
    (fun p g => exists n ce,
       St (J ++ [ce]) (C ++ [n]) T g /\ nprops n = p /\
       component_from d n /\ create_entry_of n ce)
    (fun g => WF g /\ journal g = J).
Proof.
  unfold createComponent.
  eapply triple_bind.
  { apply (triple_id_or_uuid _ _ _
       (fun i g => St J C T g /\
          (i = get_or_null "id" d \/ truthy (get_or_null "id" d) = false))).
    auto. }
  intros i.
  eapply triple_bind.
  { apply (triple_lift _ _
       (fun c g => St J C T g /\
          (i = get_or_null "id" d \/ truthy (get_or_null "id" d) = false) /\
          parse_component (JsMap.set "id" i d) = Ok c)).
    - intros c g Hc [HS Hi]. auto.
    - intros e g _ [(HW & HJ & _) _]. auto. }
  intros c.
  eapply triple_bind.
  { apply (triple_create _ _ _
       (fun n g => St J (C ++ [n]) T g /\ component_from d n)).
    - intros g [(HW & HJ & _) _] _. auto.
    - intros g (HS & Hi & Hc) _. split.
      + apply St_add_component; [eapply parse_component_type; exact Hc|exact HS].
      + exists i, c. auto. }
  intros n.
  eapply triple_bind.
  { apply (triple_recordChange _ _ _ _ _ _ _ _
       (fun ce g => exists e, St (J ++ [e]) (C ++ [n]) T g /\
                              component_from d n /\ create_entry_of n e)).
    - intros g [(HW & HJ & _) _]. auto.
    - intros g u t [HS Hn] ce. eexists. split; [apply St_add_change; exact HS|].
      split; [exact Hn|]. split; [reflexivity|]. exists u, t. reflexivity. }
  intros ce. apply triple_ret.
  intros g (e & HS & Hn & He). exists n, e. auto.
Qed.

Lemma St_relates_to J C T i sb p g :
  St J C T g -> St J C T (add_edges (matches_id "Task" i) sb "RELATES_TO" p g).
Proof.
  intros HS. apply St_add_edges; [|exact HS].
  apply (st_relates_to WF WF_stable). apply HS.
Qed.

Lemma create_task_effect o d J C T :
  triple (St J C T) (create_task_row o d)
    (fun p g => exists n, St J C (T ++ [n]) g /\ task_from d n)
    (fun g => WF g /\ journal g = J).
Proof.
  assert (HE : forall T' g, St J C T' g -> WF g /\ journal g = J)
    by (intros T' g (HW & HJ & _); auto).
  unfold create_task_row.
  eapply triple_bind.
  { apply (triple_id_or_uuid _ _ _
       (fun i g => St J C T g /\
          (i = get_or_null "id" d \/ truthy (get_or_null "id" d) = false))).
    auto. }
  intros i.
  eapply triple_bind.
  { apply (triple_lift _ _
       (fun t g => St J C T g /\
          (i = get_or_null "id" d \/ truthy (get_or_null "id" d) = false) /\
          parse_task (JsMap.set "id" i d) = Ok t)).
    - intros t g Ht [HS Hi]. auto.
    - intros e g _ [HS _]. eauto. }
  intros t.
  eapply triple_bind.
  { apply (triple_create _ _ _
       (fun n g => St J C (T ++ [n]) g /\ task_from d n)).
    - intros g [HS _] _. eauto.
    - intros g (HS & Hi & Ht) _. split.
      + apply St_add_task. exact HS.
      + exists i, t. auto. }
  intros n.
  eapply triple_bind; [|intros u; apply triple_ret; intros g H; exists n; exact H].
  destruct (relatedComponentIds t).
  - apply triple_ret. auto.
  - eapply triple_bind; [|intros u; apply triple_ret; intros g H; exact H].
    apply triple_create_edges. intros g [HS Hn]. split; [|exact Hn].
    apply St_relates_to. exact HS.
Qed.

Lemma St_stable_relationship J C T s t ty p g :
  in_enum RelationshipType ty = true -> St J C T g ->
  St J C T (add_edges (matches_id "Component" s) (matches_id "Component" t) ty p g).
Proof.
  intros Hty HS. apply St_add_edges; [|exact HS].
  apply (st_relationship WF WF_stable); [exact Hty|apply HS].
Qed.

Lemma create_relationship_effect o d J C T :
  triple (St J C T) (create_relationship_row o d)
    (fun _ g => St J C T g) (fun g => WF g /\ journal g = J).
Proof.
  apply triple_of_hoare.
  - apply keeps_create_relationship_row. intros. apply St_stable_relationship; assumption.
  - intros g (HW & HJ & _). auto.
Qed.

(** *** The three loops of a restore *)

Lemma triple_exists_pre {A X} (P : X -> Graph -> Prop) (m : M A) Q E :
  (forall x, triple (P x) m Q E) -> triple (fun g => exists x, P x g) m Q E.
Proof. intros H w [x Hx]. exact (H x w Hx). Qed.

Lemma triple_assume {A} (F : Prop) P (m : M A) Q E :
  (F -> triple P m Q E) -> triple (fun g => P g /\ F) m Q E.
Proof. intros H w [Hp Hf]. exact (H Hf w Hp). Qed.

(** Payload value [v] became component node [n]. *)
Definition component_of (v : value) (n : Node) : Prop :=
  exists d, as_object v = Ok d /\ component_from d n.

(** Payload value [v] became task node [n]. *)
Definition task_of (v : value) (n : Node) : Prop :=
  exists d, as_object v = Ok d /\ task_from d n.

(** Journal entry [ce] records the creation of the component that payload
    value [v] became. *)
Definition entry_of (v : value) (ce : Node) : Prop :=
  exists n, component_of v n /\ create_entry_of n ce.

Lemma restore_component_effect o v J C T :
  triple (St J C T)
    (c <- lift (as_object v) ;; createComponent o c [] ;;; ret tt)
    (fun _ g => exists ce n,
       St (J ++ [ce]) (C ++ [n]) T g /\ component_of v n /\ entry_of v ce)
    (fun g => WF g /\ journal g = J).
Proof.
  eapply triple_bind.
  { apply (triple_lift _ _ (fun d g => St J C T g /\ as_object v = Ok d)).
    - auto.
    - intros e g _ (HW & HJ & _). auto. }
  intros d. apply triple_assume. intros Hd.
  eapply triple_bind; [apply (createComponent_effect o d J C T)|].
  intros p. apply triple_ret.
  intros g (n & ce & HS & _ & Hn & He).
  assert (Hc : component_of v n) by (exists d; auto).
  exists ce, n. split; [exact HS|]. split; [exact Hc|].
  exists n. auto.
Qed.

Lemma restore_components_effect o cs : forall J C T,
  triple (St J C T)
    (for_each (fun component =>
       c <- lift (as_object component) ;; createComponent o c [] ;;; ret tt) cs)
    (fun _ g => exists ces ns,
       St (J ++ ces) (C ++ ns) T g /\
       Forall2 entry_of cs ces /\ Forall2 component_of cs ns)
    (fun g => WF g /\ exists k ces,
       journal g = J ++ ces /\ Forall2 entry_of (firstn k cs) ces).
Proof.
  induction cs as [|v cs IH]; intros J C T; cbn [for_each].
  - apply triple_ret. intros g HS. exists [], []. rewrite !app_nil_r. auto.
  - apply (triple_bind _ _ _
             (fun _ g => exists ce n, St (J ++ [ce]) (C ++ [n]) T g /\
                                      component_of v n /\ entry_of v ce)).
    { eapply triple_conseq;
        [apply (restore_component_effect o v J C T)|auto|intros a g H; exact H|].
      intros g [HW HJ]. split; [exact HW|].
      exists 0, []. rewrite app_nil_r. split; [exact HJ|constructor]. }
    intros u w (ce & n & HS & Hn & He).
    generalize (IH (J ++ [ce]) (C ++ [n]) T w HS).
    destruct (for_each _ cs w) as [[a|e] w'].
    + intros (ces & ns & HS' & Hes & Hns).
      exists (ce :: ces), (n :: ns).
      rewrite <- !app_assoc in HS'.
      split; [exact HS'|]. split; constructor; assumption.
    + intros (HW & k & ces & HJ & Hes). split; [exact HW|].
      exists (S k), (ce :: ces). rewrite HJ, <- app_assoc.
      split; [reflexivity|]. cbn [firstn]. constructor; assumption.
Qed.

Lemma restore_tasks_effect o ts : forall J C T,
  triple (St J C T)
    (for_each (fun task => t <- lift (as_object task) ;; createTask o t ;;; ret tt) ts)
    (fun _ g => exists ns, St J C (T ++ ns) g /\ Forall2 task_of ts ns)
    (fun g => WF g /\ journal g = J).
Proof.
  induction ts as [|v ts IH]; intros J C T; cbn [for_each].
  - apply triple_ret. intros g HS. exists []. rewrite app_nil_r. auto.
  - apply (triple_bind _ _ _
             (fun _ g => exists n, St J C (T ++ [n]) g /\ task_of v n)).
    { eapply triple_bind.
      { apply (triple_lift _ _ (fun d g => St J C T g /\ as_object v = Ok d)).
        - auto.
        - intros e g _ (HW & HJ & _). auto. }
      intros d. apply triple_assume. intros Hd.
      eapply triple_bind; [apply (create_task_effect o d J C T)|].
      intros p. apply triple_ret.
      intros g (n & HS & Hn).
      exists n. split; [exact HS|]. exists d. auto. }
    intros u w (n & HS & Hn).
    generalize (IH J C (T ++ [n]) w HS).
    destruct (for_each _ ts w) as [[a|e] w'].
    + intros (ns & HS' & Hns). exists (n :: ns).
      rewrite <- app_assoc in HS'. split; [exact HS'|constructor; assumption].
    + auto.
Qed.

Lemma restore_relationships_effect o rs : forall J C T,
  triple (St J C T)
    (for_each (fun relationship =>
       r <- lift (as_object relationship) ;; createRelationship o r ;;; ret tt) rs)
    (fun _ g => St J C T g)
    (fun g => WF g /\ journal g = J).
Proof.
  intros J C T. apply (triple_conseq (St J C T) _ _ (fun _ g => St J C T g) _
                         (fun g => WF g /\ journal g = J)); auto.
  apply triple_of_hoare.
  - apply hoare_for_each. intros v.
    eapply hoare_bind; [apply hoare_lift; intros; exact I|]. intros d _.
    eapply hoare_bind; [|intros; apply hoare_ret; exact I].
    apply keeps_create_relationship_row.
    intros. apply St_stable_relationship; assumption.
  - intros g (HW & HJ & _). auto.
Qed.

(** The restore proper, on a payload whose components are the array [cs]:
    when it returns, the journal has grown by one CREATE_COMPONENT entry per
    element of [cs], the components and tasks are those built from the
    payload, and there is no comment; when it throws, the journal has grown
    by the entries of the components restored until then. *)
Lemma restore_entities_effect o snapshot d cs J :
  get_or_null "components" d = VArr cs ->
  triple (fun g => WF g /\ journal g = J) (restore_entities o snapshot d)
    (fun r g => exists ts rs ces ns tns,
       get_or_null "tasks" d = VArr ts /\
       get_or_null "relationships" d = VArr rs /\
       r = Restored (get_or_null "name" snapshot) (get_or_null "timestamp" snapshot)
             (length cs) (length ts) (length rs) /\
       St (J ++ ces) ns tns g /\
       Forall2 entry_of cs ces /\ Forall2 component_of cs ns /\ Forall2 task_of ts tns)
    (fun g => WF g /\ exists k ces,
       journal g = J ++ ces /\ Forall2 entry_of (firstn k cs) ces).
Proof.
  intros Hcs. unfold restore_entities. rewrite Hcs.
  assert (HE : forall ces J' g, Forall2 entry_of cs ces -> J' = J ++ ces ->
            WF g /\ journal g = J' ->
            WF g /\ exists k ces, journal g = J ++ ces /\ Forall2 entry_of (firstn k cs) ces).
  { intros ces J' g Hes -> [HW HJ]. split; [exact HW|].
    exists (length cs), ces. rewrite firstn_all. auto. }
  eapply triple_bind.
  { intros w [HW HJ]. unfold cypher_detach_delete, bind, get_graph, put_graph.
    cbn [fst snd graph].
    instantiate (1 := fun _ g => St J [] [] g).
    cbn beta. rewrite <- HJ. apply St_after_clear. exact HW. }
  intros u1.
  eapply triple_bind.
  { apply (triple_lift _ _ (fun cs' g => St J [] [] g /\ cs' = cs)).
    - intros a g [= <-] HS. auto.
    - discriminate. }
  intros cs'. apply triple_assume. intros ->.
  eapply triple_bind; [apply (restore_components_effect o cs J [] [])|].
  intros u2.
  apply triple_exists_pre. intros ces. apply triple_exists_pre. intros ns.
  cbn [app].
  apply triple_assume. intros [Hes Hns].
  eapply triple_bind.
  { apply (triple_lift _ _
             (fun ts g => St (J ++ ces) ns [] g /\ get_or_null "tasks" d = VArr ts)).
    - intros ts g Hts HS. split; [exact HS|].
      destruct (get_or_null "tasks" d); try discriminate. injection Hts as <-. reflexivity.
    - intros e g _ (HW & HJ & _). apply (HE ces (J ++ ces)); auto. }
  intros ts. apply triple_assume. intros Hts.
  eapply triple_bind.
  { eapply triple_conseq;
      [apply (restore_tasks_effect o ts (J ++ ces) ns [])|auto|intros a g H; exact H|].
    intros g H. apply (HE ces (J ++ ces)); auto. }
  intros u3. apply triple_exists_pre. intros tns. cbn [app].
  apply triple_assume. intros Htns.
  eapply triple_bind.
  { apply (triple_lift _ _
             (fun rs g => St (J ++ ces) ns tns g /\
                          get_or_null "relationships" d = VArr rs)).
    - intros rs g Hrs HS. split; [exact HS|].
      destruct (get_or_null "relationships" d); try discriminate.
      injection Hrs as <-. reflexivity.
    - intros e g _ (HW & HJ & _). apply (HE ces (J ++ ces)); auto. }
  intros rs. apply triple_assume. intros Hrs.
  eapply triple_bind.
  { eapply triple_conseq;
      [apply (restore_relationships_effect o rs (J ++ ces) ns tns)|auto
      |intros a g H; exact H|].
    intros g H. apply (HE ces (J ++ ces)); auto. }
  intros u4. apply triple_ret.
  intros g HS. exists ts, rs, ces, ns, tns. auto 10.
Qed.

(** *** C10: what a restore journals *)

Lemma restoreFromSnapshot_run o parse sid s d w :
  find (matches_id "Snapshot" sid) (nodes (graph w)) = Some s ->
  snapshot_payload parse (nprops s) = Ok d ->
  restoreFromSnapshot o parse sid false w = restore_entities o (nprops s) d w.
Proof.
  intros Hf Hd. unfold restoreFromSnapshot. unfold bind at 1. unfold get_graph.
  rewrite Hf. unfold bind at 1. unfold lift. rewrite Hd. reflexivity.
Qed.



(** *** C4: what a snapshot holds, and what a restore leaves *)

Lemma filter_all {A} (p : A -> bool) l : (forall x, p x = true) -> filter p l = l.
Proof.
  intros H. induction l as [|x l IH]; cbn [filter]; [reflexivity|].
  rewrite (H x), IH. reflexivity.
Qed.

Lemma filter_nil_filter {A} (p q : A -> bool) l :
  filter p l = [] -> filter p (filter q l) = [].
Proof.
  induction l as [|x l IH]; cbn [filter]; [reflexivity|].
  destruct (p x) eqn:Ep; [discriminate|]. intros H.
  destruct (q x); cbn [filter]; rewrite ?Ep; auto.
Qed.

Lemma detach_delete_twice sel g :
  detach_delete sel (detach_delete sel g) = detach_delete sel g.
Proof.
  unfold detach_delete. cbn [nodes edges next_nid unique_id].
  rewrite (filter_filter_nil sel (fun n => negb (sel n)) (nodes g))
    by (intros x _ Hx; apply negb_true_iff in Hx; exact Hx).
  rewrite (filter_filter_same (fun n => negb (sel n)) (fun n => negb (sel n)) (nodes g))
    by auto.
  cbn [map existsb orb negb].
  rewrite (filter_all (fun _ : Edge => true)) by reflexivity.
  reflexivity.
Qed.

(** A program that starts with a clear runs the same from the cleared graph. *)
Lemma clear_first {A} sel (k : M A) w :
  (cypher_detach_delete sel ;;; k) w
  = (cypher_detach_delete sel ;;; k)
      {| graph := detach_delete sel (graph w); ticks := ticks w |}.
Proof.
  cbv beta iota delta [bind cypher_detach_delete get_graph put_graph graph ticks].
  rewrite detach_delete_twice. reflexivity.
Qed.

(** Whatever its outcome, a restore leaves no comment in the graph. *)
Lemma restore_entities_leaves_no_comment o snapshot d w :
  WF (graph w) -> comments (graph (after (restore_entities o snapshot d) w)) = [].
Proof.
  intros HW. unfold after, restore_entities. rewrite clear_first.
  fold clear_for_restore.
  apply (keeps_restore_entities (fun g => comments g = []) o).
  - intros t p g Ht Hg. unfold comments in *. rewrite filter_label_add_node, Hg.
    rewrite (component_label_only t "Comment"); [reflexivity|exact Ht|cbn [In]; auto].
  - intros p g Hg. unfold comments in *. rewrite filter_label_add_node, Hg.
    change (existsb (String.eqb "Comment") ["Task"]) with false. reflexivity.
  - intros p g Hg. unfold comments in *. rewrite filter_label_add_node, Hg.
    change (existsb (String.eqb "Comment") ["ChangeEvent"]) with false. reflexivity.
  - intros s t ty p g _ Hg. exact Hg.
  - intros i sb p g Hg. exact Hg.
  - intros g Hg. unfold comments, detach_delete in *. cbn [nodes].
    apply filter_nil_filter. exact Hg.
  - cbn [graph]. destruct (St_after_clear (graph w) HW) as (_ & _ & _ & _ & H). exact H.
Qed.

Lemma get_stored_same k v m :
  JsMap.get k m = Some v -> v <> VNull -> JsMap.get k (stored m) = Some v.
Proof.
  intros Hg Hv. induction m as [|[k' v'] m IH]; [discriminate|].
  cbn [JsMap.get] in Hg. unfold stored. cbn [filter snd]. fold (stored m).
  destruct (String.eqb k k') eqn:E.
  - injection Hg as ->. destruct v; try congruence; cbn [JsMap.get]; rewrite E; reflexivity.
  - destruct v'; cbn [JsMap.get]; rewrite ?E; auto.
Qed.

Lemma no_constraint_on_snapshots g p : WF g -> violates_unique g ["Snapshot"] p = false.
Proof.
  intros HW. unfold violates_unique. cbn [existsb].
  destruct (existsb (String.eqb "Snapshot") (unique_id g)) eqn:E; [|reflexivity].
  apply existsb_exists in E. destruct E as (l & Hl & E).
  apply String.eqb_eq in E. subst l.
  apply (wf_unique g HW) in Hl. unfold schema_labels in Hl. cbn [In] in Hl.
  repeat (destruct Hl as [Hl|Hl]; [discriminate|]). destruct Hl.
Qed.

(** [createSnapshot] returns, and the Snapshot node it adds carries, as its
    [data], the text of [snapshot_data] of the graph: the properties of the
    Component nodes, of the Task nodes, and the edges other than RELATES_TO. *)
Lemma createSnapshot_effect o name md w :
  WF (graph w) ->
  exists snap s,
    fst (createSnapshot o name md w) = Ok snap /\
    nodes (graph (after (createSnapshot o name md) w)) = nodes (graph w) ++ [s] /\
    labels s = ["Snapshot"] /\
    JsMap.get "data" (nprops s) = Some (VJson (snapshot_data (graph w))).
Proof.
  intros HW. unfold after, createSnapshot, bind, uuidv4, toISOString_now, get_graph.
  cbn [fst snd graph ticks].
  unfold cypher_create, bind, get_graph, put_graph. cbn [fst snd graph ticks].
  rewrite no_constraint_on_snapshots by exact HW.
  cbn [fst snd graph ticks ret].
  eexists. eexists. split; [reflexivity|]. split; [reflexivity|].
  split; [reflexivity|].
  cbn [nprops new_node]. apply get_stored_same; [|discriminate].
  apply QueueProps.get_set_same.
Qed.

Lemma payload_of_snapshot_data parse snapshot g0 :
  JsMap.get "data" snapshot = Some (VJson (snapshot_data g0)) ->
  snapshot_payload parse snapshot
  = Ok [("components", VArr (map (fun n => VObj (nprops n)) (components g0)));
        ("tasks", VArr (map (fun n => VObj (nprops n)) (tasks g0)));
        ("relationships", VArr (snapshot_relationships g0))].
Proof. intros H. unfold snapshot_payload. rewrite H. reflexivity. Qed.

(** C4: a snapshot holds the Component nodes, the Task nodes and the edges
    other than RELATES_TO of the graph, and no Comment node.  A restore of
    it, from any later state, leaves no comment in the graph, whatever its
    outcome; when it returns, the components and the tasks of the graph are
    those that [createComponent] and [createTask] build from the captured
    properties, in the captured order. *)
Theorem C4_snapshot_holds_no_comment_and_restore_leaves_none o parse w0 name md :
  reachable o parse w0 ->
  (exists snap s,
     fst (createSnapshot o name md w0) = Ok snap /\
     nodes (graph (after (createSnapshot o name md) w0)) = nodes (graph w0) ++ [s] /\
     labels s = ["Snapshot"] /\
     JsMap.get "data" (nprops s) = Some (VJson (snapshot_data (graph w0)))) /\
  (forall w sid s,
     reachable o parse w ->
     find (matches_id "Snapshot" sid) (nodes (graph w)) = Some s ->
     JsMap.get "data" (nprops s) = Some (VJson (snapshot_data (graph w0))) ->
     comments (graph (after (restoreFromSnapshot o parse sid false) w)) = [] /\
     match restoreFromSnapshot o parse sid false w with
     | (Ok _, w') =>
         Forall2 component_of
           (map (fun n => VObj (nprops n)) (components (graph w0)))
           (components (graph w')) /\
         Forall2 task_of
           (map (fun n => VObj (nprops n)) (tasks (graph w0)))
           (tasks (graph w'))
     | (Throw _, _) => True
     end).
Proof.
  intros Hr0. split.
  - apply createSnapshot_effect. exact (reachable_WF o parse w0 Hr0).
  - intros w sid s Hr Hf Hdata.
    pose proof (reachable_WF o parse w Hr) as HW.
    pose proof (payload_of_snapshot_data parse (nprops s) (graph w0) Hdata) as Hd.
    unfold after. rewrite (restoreFromSnapshot_run o parse sid s _ w Hf Hd).
    split; [apply (restore_entities_leaves_no_comment o _ _ w HW)|].
    match goal with
    | |- context [restore_entities o ?sn ?d w] =>
        generalize (restore_entities_effect o sn d _ (journal (graph w)) eq_refl w
                      (conj HW eq_refl));
        destruct (restore_entities o sn d w) as [[r|e] w']
    end.
    + intros (ts & rs & ces & ns & tns & Hts & _ & _ & (_ & _ & HC & HT & _) & _ & Hns & Htns).
      injection Hts as <-. rewrite HC, HT. split; assumption.
    + intros _. exact I.
Qed.

(** The theorem at the demo graph: the snapshot is taken of two components,
    an edge and a task; a component is then deleted and a comment added; the
    restore returns, rebuilds both components and the task, and the comment
    is gone. *)
Lemma C4_round_trip_witness :
  (exists r, fst (restoreFromSnapshot Demo.oracle DemoStore.parse
                    DemoStore.round_trip_snapshot_id false
                    DemoStore.round_trip_world) = Ok r) /\
  comments (graph DemoStore.round_trip_world) <> [] /\
  comments (graph (after (restoreFromSnapshot Demo.oracle DemoStore.parse
                            DemoStore.round_trip_snapshot_id false)
                     DemoStore.round_trip_world)) = [] /\
  match restoreFromSnapshot Demo.oracle DemoStore.parse
          DemoStore.round_trip_snapshot_id false DemoStore.round_trip_world with
  | (Ok _, w') =>
      Forall2 component_of
        (map (fun n => VObj (nprops n)) (components (graph DemoStore.round_trip_start)))
        (components (graph w')) /\
      Forall2 task_of
        (map (fun n => VObj (nprops n)) (tasks (graph DemoStore.round_trip_start)))
        (tasks (graph w'))
  | (Throw _, _) => True
  end.
Proof.
  split; [eexists; vm_compute; reflexivity|].
  split; [vm_compute; discriminate|].
  assert (Hr : reachable Demo.oracle DemoStore.parse DemoStore.round_trip_start)
    by (apply reachable_run).
  destruct (C4_snapshot_holds_no_comment_and_restore_leaves_none
              Demo.oracle DemoStore.parse DemoStore.round_trip_start "r" [] Hr)
    as [_ H].
  apply (H DemoStore.round_trip_world DemoStore.round_trip_snapshot_id
           DemoStore.round_trip_snapshot).
  - apply reachable_run.
  - vm_compute. reflexivity.
  - vm_compute. reflexivity.
Defined.

(** C4, as stated, fails: the demo graph holds a comment when its snapshot
    is taken; the payload holds components, tasks and relationships only,
    among them the HAS_COMMENT edge; the restore of the snapshot, with no
    change in between, throws on that edge and leaves a graph with no
    comment. *)
Lemma C4_counterexample_comment_not_restored :
  length (comments (graph DemoStore.snapshot_world)) = 1 /\
  fst (restoreFromSnapshot Demo.oracle DemoStore.parse DemoStore.snapshot_id false
         DemoStore.snapshot_world) = Throw (ZodError "type") /\
  comments (graph (after (restoreFromSnapshot Demo.oracle DemoStore.parse
                            DemoStore.snapshot_id false)
                     DemoStore.snapshot_world)) = [].
Proof. vm_compute. repeat split; reflexivity. Qed.

(** * Further properties of the graph store *)

(** *** Running a call from a known graph *)

Lemma triple_run {A} (m : M A) (Q : A -> Graph -> Prop) (E : Graph -> Prop) w :
  triple (fun g => g = graph w) m Q E ->
  match m w with
  | (Ok a, w') => Q a (graph w')
  | (Throw _, w') => E (graph w')
  end.
Proof. intros H. apply H. reflexivity. Qed.

Lemma find_app {A} (p : A -> bool) l1 l2 :
  find p (l1 ++ l2) = match find p l1 with Some x => Some x | None => find p l2 end.
Proof. induction l1 as [|x l1 IH]; simpl; [reflexivity|]. destruct (p x); auto. Qed.

Lemma find_none_iff {A} (p : A -> bool) l :
  (forall x, In x l -> p x = false) -> find p l = None.
Proof.
  induction l as [|x l IH]; simpl; [reflexivity|].
  intros H. rewrite (H x) by auto. apply IH. auto.
Qed.

(** *** Properties written by [toNode] are strings *)

Definition all_strings_in (o : obj) : Prop :=
  forall k v, In (k, v) o -> exists s, v = VStr s.

Lemma in_set_obj k (v : value) m kv :
  In kv (JsMap.set k v m) -> kv = (k, v) \/ In kv m.
Proof.
  induction m as [|[k' v'] m IH]; simpl.
  - intros [<-|[]]. auto.
  - destruct (String.eqb k k') eqn:E; simpl.
    + apply String.eqb_eq in E. subst k'. intros [<-|H]; auto.
    + intros [<-|H]; auto. destruct (IH H); auto.
Qed.

Lemma all_strings_spread extra : forall base,
  all_strings_in base -> all_strings_in extra -> all_strings_in (spread base extra).
Proof.
  unfold spread. induction extra as [|[k v] extra IH]; intros base Hb He; [exact Hb|].
  cbn [fold_left fst snd]. apply IH.
  - intros k' v' Hin. apply in_set_obj in Hin. destruct Hin as [[= -> ->]|Hin].
    + apply (He k v). left. reflexivity.
    + apply (Hb k' v' Hin).
  - intros k' v' Hin. apply (He k' v'). right. exact Hin.
Qed.

Lemma all_strings_strings m : all_strings_in (strings m).
Proof.
  intros k v Hin. unfold strings in Hin. apply in_map_iff in Hin.
  destruct Hin as ([k' s] & [= <- <-] & _). eauto.
Qed.

Lemma stored_all_strings o : all_strings_in o -> stored o = o.
Proof.
  intros H. unfold stored. induction o as [|[k v] o IH]; [reflexivity|].
  cbn [filter snd]. destruct (H k v (or_introl eq_refl)) as [s ->].
  rewrite IH; [reflexivity|]. intros k' v' Hin. apply (H k' v'). right. exact Hin.
Qed.

Lemma get_spread_present k extra : forall base,
  JsMap.get k base <> None -> JsMap.get k (spread base extra) <> None.
Proof.
  unfold spread. induction extra as [|[k' v'] extra IH]; intros base Hb; [exact Hb|].
  cbn [fold_left fst snd]. apply IH.
  destruct (String.eqb k' k) eqn:E.
  - apply String.eqb_eq in E. subst k'. rewrite QueueProps.get_set_same. discriminate.
  - rewrite QueueProps.get_set_other; [exact Hb|].
    intros ->. rewrite String.eqb_refl in E. discriminate.
Qed.

Lemma get_in_obj k (m : obj) v : JsMap.get k m = Some v -> In (k, v) m.
Proof.
  induction m as [|[k' v'] m IH]; simpl; [discriminate|].
  destruct (String.eqb k k') eqn:E.
  - apply String.eqb_eq in E. subst k'. intros [= ->]. auto.
  - auto.
Qed.

Lemma component_props_strings c : all_strings_in (component_props c).
Proof.
  unfold component_props. apply all_strings_spread; [|apply all_strings_strings].
  intros k v Hin. cbn [In] in Hin. unfold or_empty in Hin.
  repeat (destruct Hin as [[= <- <-]|Hin];
          [repeat match goal with |- context [match ?x with _ => _ end] => destruct x end;
           eauto|]).
  destruct Hin.
Qed.

Lemma component_props_id c :
  exists s, get_or_null "id" (stored (component_props c)) = VStr s.
Proof.
  rewrite (stored_all_strings _ (component_props_strings c)).
  unfold get_or_null.
  destruct (JsMap.get "id" (component_props c)) as [v|] eqn:E.
  - apply get_in_obj in E. apply (component_props_strings c "id" v E).
  - exfalso. revert E. unfold component_props. apply get_spread_present.
    cbn [JsMap.get]. rewrite String.eqb_refl. discriminate.
Qed.

Lemma cypher_eq_refl_string s : cypher_eq (VStr s) (VStr s) = true.
Proof. apply String.eqb_refl. Qed.

(** *** createComponent *)

Lemma createComponent_shape o d md g0 :
  triple (fun g => g = g0) (createComponent o d md)
    (fun p g => exists c ce,
       violates_unique g0 ["Component"; type c] (stored (component_props c)) = false /\
       in_enum ComponentType (type c) = true /\
       p = stored (component_props c) /\
       g = add_node ["ChangeEvent"] ce
             (add_node ["Component"; type c] (component_props c) g0))
    (fun _ => True).
Proof.
  unfold createComponent.
  eapply triple_bind; [apply (triple_id_or_uuid _ _ _ (fun _ g => g = g0)); auto|].
  intros i.
  eapply triple_bind.
  { apply (triple_lift _ _
       (fun c g => g = g0 /\ parse_component (JsMap.set "id" i d) = Ok c)); auto. }
  intros c.
  eapply triple_bind.
  { apply (triple_create _ _ _
       (fun n g => n = new_node ["Component"; type c] (component_props c) g0 /\
                   g = add_node ["Component"; type c] (component_props c) g0 /\
                   violates_unique g0 ["Component"; type c]
                     (stored (component_props c)) = false /\
                   in_enum ComponentType (type c) = true)); [auto|].
    intros g [-> Hc] Hv. split; [reflexivity|]. split; [reflexivity|].
    split; [exact Hv|]. eapply parse_component_type. exact Hc. }
  intros n.
  eapply triple_bind.
  { apply (triple_recordChange _ _ _ _ _ _ _ _
       (fun _ g => exists ce,
          n = new_node ["Component"; type c] (component_props c) g0 /\
          g = add_node ["ChangeEvent"] ce
                (add_node ["Component"; type c] (component_props c) g0) /\
          violates_unique g0 ["Component"; type c]
            (stored (component_props c)) = false /\
          in_enum ComponentType (type c) = true)); [auto|].
    intros g u t (Hn & -> & Hv & Ht) ce. exists ce. auto. }
  intros ce. apply triple_ret.
  intros g (e & -> & -> & Hv & Ht). exists c, e. auto.
Qed.

(** X11: with the uniqueness constraint on component ids in place, a
    component that [createComponent] returns carries an id that no earlier
    component had, is the one new component of the graph, and is what
    [getComponent] returns for that id. *)
Theorem X11_created_component_is_read_back_by_its_id o d md w p :
  In "Component" (unique_id (graph w)) ->
  fst (createComponent o d md w) = Ok p ->
  let w' := snd (createComponent o d md w) in
  (forall n, In n (components (graph w)) ->
             cypher_eq (prop "id" n) (get_or_null "id" p) = false) /\
  fst (getComponent (get_or_null "id" p) w') = Ok (Some p) /\
  exists n, components (graph w') = components (graph w) ++ [n] /\ nprops n = p.
Proof.
  intros Hu Hok. cbv zeta.
  pose proof (triple_run _ _ _ w (createComponent_shape o d md (graph w))) as H.
  destruct (createComponent o d md w) as [[p'|e] w']; [|discriminate].
  cbn [fst snd] in *. injection Hok as ->.
  destruct H as (c & ce & Hv & Ht & -> & Hg).
  assert (Hold : forall n, In n (nodes (graph w)) ->
            matches_id "Component" (get_or_null "id" (stored (component_props c))) n = false).
  { unfold violates_unique in Hv. cbn [existsb] in Hv.
    apply orb_false_iff in Hv. destruct Hv as [Hv _].
    apply andb_false_iff in Hv. destruct Hv as [Hv|Hv].
    - assert (Hin : existsb (String.eqb "Component") (unique_id (graph w)) = true)
        by (apply existsb_exists; exists "Component"; split;
            [exact Hu|apply String.eqb_refl]).
      congruence.
    - intros n Hn. destruct (matches_id "Component" _ n) eqn:E; [|reflexivity].
      exfalso. apply Bool.not_true_iff_false in Hv. apply Hv.
      apply existsb_exists. exists n. split; [exact Hn|exact E]. }
  destruct (component_props_id c) as [s Hs].
  split; [|split].
  - intros n Hn. unfold components in Hn. apply filter_In in Hn. destruct Hn as [Hn Hl].
    specialize (Hold n Hn). unfold matches_id in Hold. rewrite Hl in Hold. exact Hold.
  - unfold getComponent, bind, get_graph, ret. cbn [fst snd]. rewrite Hg.
    unfold add_node at 1. cbn [nodes]. unfold add_node at 1. cbn [nodes].
    rewrite !find_app. rewrite (find_none_iff _ _ Hold).
    cbn [find]. unfold matches_id at 1.
    unfold has_label at 1. cbn [labels new_node].
    rewrite component_label_first. unfold prop. cbn [nprops new_node andb].
    rewrite Hs, cypher_eq_refl_string. reflexivity.
  - rewrite Hg. unfold components. rewrite !filter_label_add_node.
    change (existsb (String.eqb "Component") ["ChangeEvent"]) with false.
    rewrite component_label_first, app_nil_r.
    eexists. split; [reflexivity|reflexivity].
Qed.

(** The theorem at the store whose schema was initialised. *)
Lemma X11_round_trip_witness :
  fst (getComponent (VStr DemoStore.id_a)
         (snd (createComponent Demo.oracle DemoStore.file_a []
                 (DemoStore.run [InitializeSchema]))))
  = Ok (Some (stored (component_props
                        {| id := DemoStore.id_a; type := "FILE"; name := "a.js";
                           description := None; path := None; codebase := None;
                           metadata := [] |}))).
Proof.
  destruct (X11_created_component_is_read_back_by_its_id Demo.oracle DemoStore.file_a []
              (DemoStore.run [InitializeSchema])
              (stored (component_props
                         {| id := DemoStore.id_a; type := "FILE"; name := "a.js";
                            description := None; path := None; codebase := None;
                            metadata := [] |})))
    as (_ & H & _).
  - vm_compute. auto.
  - vm_compute. reflexivity.
  - exact H.
Defined.

(** *** deleteComponent *)

Lemma filter_filter_same_in {A} (p q : A -> bool) l :
  (forall x, In x l -> p x = true -> q x = true) -> filter p (filter q l) = filter p l.
Proof.
  induction l as [|x l IH]; intros H; cbn [filter]; [reflexivity|].
  destruct (q x) eqn:Eq; cbn [filter].
  - rewrite IH; [reflexivity|]. intros y Hy. apply H. right. exact Hy.
  - destruct (p x) eqn:Ep.
    + rewrite (H x (or_introl eq_refl) Ep) in Eq. discriminate.
    + apply IH. intros y Hy. apply H. right. exact Hy.
Qed.

Lemma flat_map_nil {A B} (f : A -> list B) l :
  (forall x, In x l -> f x = []) -> flat_map f l = [].
Proof.
  induction l as [|x l IH]; intros H; cbn [flat_map]; [reflexivity|].
  rewrite (H x) by (left; reflexivity). apply IH. intros y Hy. apply H. right. exact Hy.
Qed.

Lemma other_kinds_survive_deleteComponent g i l :
  WF g -> In l ["Task"; "Comment"; "ChangeEvent"; "Snapshot"] ->
  filter (has_label l) (nodes (detach_delete (matches_id "Component" i) g))
  = filter (has_label l) (nodes g).
Proof.
  intros HW Hl. unfold detach_delete. cbn [nodes].
  apply filter_filter_same_in. intros n Hn Hhas.
  apply negb_true_iff. unfold matches_id.
  rewrite (reserved_not_component n l (wf_labels g HW n Hn) Hl Hhas). reflexivity.
Qed.

(** X12: [deleteComponent] removes the components with the given id and
    the edges at them, and nothing else.  Afterwards [getComponent] finds
    nothing under the id and [getComponentRelationships] returns no row for
    it in any direction; the tasks, the journal, the snapshots and the
    comments are as they were: a comment on the deleted component stays in
    the graph, without its edge. *)
Theorem X12_deleteComponent_removes_component_and_edges_only o parse i w :
  reachable o parse w ->
  let w' := snd (deleteComponent i w) in
  fst (deleteComponent i w) = Ok true /\
  fst (getComponent i w') = Ok None /\
  (forall o' direction, fst (getComponentRelationships o' i direction w') = Ok []) /\
  (forall n, In n (nodes (graph w')) <->
             In n (nodes (graph w)) /\ matches_id "Component" i n = false) /\
  comments (graph w') = comments (graph w) /\
  tasks (graph w') = tasks (graph w) /\
  journal (graph w') = journal (graph w) /\
  snapshots (graph w') = snapshots (graph w).
Proof.
  intros Hr. pose proof (reachable_WF o parse w Hr) as HW. cbv zeta.
  unfold deleteComponent, cypher_detach_delete, bind, get_graph, put_graph, ret.
  cbn [fst snd graph].
  set (g' := detach_delete (matches_id "Component" i) (graph w)).
  assert (Hnodes : forall n, In n (nodes g') <->
            In n (nodes (graph w)) /\ matches_id "Component" i n = false).
  { intros n. subst g'. unfold detach_delete. cbn [nodes]. rewrite filter_In.
    rewrite negb_true_iff. tauto. }
  split; [reflexivity|]. split; [|split; [|split; [exact Hnodes|]]].
  - unfold getComponent, bind, get_graph, ret. cbn [fst snd graph].
    rewrite find_none_iff; [reflexivity|]. intros n Hn. apply Hnodes in Hn. tauto.
  - intros o' direction.
    unfold getComponentRelationships, bind, get_graph, lift. cbn [fst snd graph].
    assert (Hout : forall tag, outgoing_records g' i tag = []).
    { intros tag. unfold outgoing_records. apply flat_map_nil. intros e _.
      destruct (node_of g' (esrc e)) as [c|] eqn:Ec; [|reflexivity].
      destruct (node_of g' (etgt e)) as [t|]; [|reflexivity].
      apply node_of_some in Ec. destruct Ec as [Ec _]. apply Hnodes in Ec.
      destruct Ec as [_ Ec]. rewrite Ec. reflexivity. }
    assert (Hin : forall tag, incoming_records g' i tag = []).
    { intros tag. unfold incoming_records. apply flat_map_nil. intros e _.
      destruct (node_of g' (esrc e)) as [s|]; [|reflexivity].
      destruct (node_of g' (etgt e)) as [c|] eqn:Ec; [|reflexivity].
      apply node_of_some in Ec. destruct Ec as [Ec _]. apply Hnodes in Ec.
      destruct Ec as [_ Ec]. rewrite Ec, andb_false_r. reflexivity. }
    unfold relationship_records. rewrite !Hout, !Hin.
    destruct (String.eqb direction "outgoing"), (String.eqb direction "incoming");
      reflexivity.
  - unfold comments, tasks, journal, snapshots. subst g'.
    rewrite !other_kinds_survive_deleteComponent by (try exact HW; cbn [In]; auto).
    auto.
Qed.

(** The theorem at the demo graph: component a, which carries a comment, is
    deleted; the comment stays. *)
Lemma X12_delete_witness :
  comments (graph (snd (deleteComponent (VStr DemoStore.id_a) DemoStore.small_world)))
  = comments (graph DemoStore.small_world).
Proof.
  apply (X12_deleteComponent_removes_component_and_edges_only
           Demo.oracle DemoStore.parse (VStr DemoStore.id_a) DemoStore.small_world).
  apply reachable_run.
Defined.

(** *** createRelationship *)

Lemma graph_add_no_edges sa sb t p g :
  matching_pairs sa sb g = [] -> add_edges sa sb t p g = g.
Proof.
  intros H. unfold add_edges. rewrite H. cbn [map]. rewrite app_nil_r.
  destruct g; reflexivity.
Qed.

Lemma filter_nil_all {A} (p : A -> bool) l :
  (forall x, In x l -> p x = false) -> filter p l = [].
Proof.
  induction l as [|x l IH]; intros H; cbn [filter]; [reflexivity|].
  rewrite (H x) by (left; reflexivity). apply IH. intros y Hy. apply H. right. exact Hy.
Qed.

Lemma list_prod_nil_r {A B} (l : list A) : list_prod l (@nil B) = [].
Proof. induction l as [|x l IH]; cbn; auto. Qed.

Lemma createRelationship_shape o d g0 :
  triple (fun g => g = g0) (createRelationship o d)
    (fun r g => exists rel,
       JsMap.get "sourceId" d = Some (VStr (sourceId rel)) /\
       JsMap.get "targetId" d = Some (VStr (targetId rel)) /\
       in_enum RelationshipType (r_type rel) = true /\
       let sa := matches_id "Component" (VStr (sourceId rel)) in
       let sb := matches_id "Component" (VStr (targetId rel)) in
       g = add_edges sa sb (r_type rel) (relation_props rel) g0 /\
       r = match matching_pairs sa sb g0 with
           | [] => None
           | ab :: _ =>
               Some (spread (stored (relation_props rel))
                       [("sourceName", prop "name" (fst ab));
                        ("targetName", prop "name" (snd ab))])
           end)
    (fun g => g = g0).
Proof.
  unfold createRelationship, create_relationship_row.
  eapply triple_bind; [apply (triple_id_or_uuid _ _ _ (fun _ g => g = g0)); auto|].
  intros i.
  eapply triple_bind.
  { apply (triple_lift _ _
       (fun rel g => g = g0 /\ parse_relationship (JsMap.set "id" i d) = Ok rel)); auto. }
  intros rel.
  eapply triple_bind.
  { apply (triple_create_edges _ _ _ _ _
       (fun rs g =>
          parse_relationship (JsMap.set "id" i d) = Ok rel /\
          g = add_edges (matches_id "Component" (VStr (sourceId rel)))
                (matches_id "Component" (VStr (targetId rel)))
                (r_type rel) (relation_props rel) g0 /\
          rs = map (fun ab => (new_edge (r_type rel) (relation_props rel) ab,
                               fst ab, snd ab))
                 (matching_pairs (matches_id "Component" (VStr (sourceId rel)))
                    (matches_id "Component" (VStr (targetId rel))) g0))).
    intros g [-> Hp]. auto. }
  intros rs. apply triple_ret.
  intros g (Hp & -> & ->). exists rel.
  assert (Hk : forall k, k <> "id" ->
            JsMap.get k (JsMap.set "id" i d) = JsMap.get k d)
    by (intros k Hk; apply QueueProps.get_set_other; congruence).
  pose proof (parse_relationship_type _ _ Hp) as Hty.
  unfold parse_relationship in Hp.
  destruct (req_uuid "id" _) as [xi|], (req_enum RelationshipType "type" _) as [xt|],
    (req_uuid "sourceId" (JsMap.set "id" i d)) as [xs|] eqn:Es,
    (req_uuid "targetId" (JsMap.set "id" i d)) as [xg|] eqn:Et,
    (record_of_strings "details" _), (opt_timeOrder "timeOrder" _),
    (opt_number_in 0 100 "probability" _), (opt_string "reasoning" _);
    try discriminate.
  injection Hp as <-. cbn [sourceId targetId r_type] in *.
  unfold req_uuid, req_string in Es, Et.
  rewrite Hk in Es by discriminate. rewrite Hk in Et by discriminate.
  split.
  { destruct (JsMap.get "sourceId" d) as [[| | |x| | |]|]; try discriminate.
    destruct (is_uuid x); [congruence|discriminate]. }
  split.
  { destruct (JsMap.get "targetId" d) as [[| | |x| | |]|]; try discriminate.
    destruct (is_uuid x); [congruence|discriminate]. }
  split; [exact Hty|]. cbv zeta. split; [reflexivity|].
  destruct (matching_pairs _ _ g0) as [|ab rest]; reflexivity.
Qed.

(** X13: [createRelationship] raises no error when an end point is
    missing.  If the data names, as its source or as its target, an id that
    no component of the graph carries, the call changes nothing, and when
    it returns it returns null. *)
Theorem X13_createRelationship_without_end_point_does_nothing o d w k s :
  In k ["sourceId"; "targetId"] ->
  JsMap.get k d = Some (VStr s) ->
  (forall n, In n (nodes (graph w)) -> matches_id "Component" (VStr s) n = false) ->
  graph (snd (createRelationship o d w)) = graph w /\
  (forall r, fst (createRelationship o d w) = Ok r -> r = None).
Proof.
  intros Hk Hd Hnone.
  pose proof (triple_run _ _ _ w (createRelationship_shape o d (graph w))) as H.
  destruct (createRelationship o d w) as [[r|e] w']; cbn [fst snd] in *.
  - destruct H as (rel & Hs & Ht & _ & H). cbv zeta in H. destruct H as [Hg Hr].
    assert (Hp : matching_pairs (matches_id "Component" (VStr (sourceId rel)))
                   (matches_id "Component" (VStr (targetId rel))) (graph w) = []).
    { unfold matching_pairs. cbn [In] in Hk. destruct Hk as [<-|[<-|[]]].
      - assert (s = sourceId rel) by congruence. subst s.
        rewrite (filter_nil_all _ _ Hnone). reflexivity.
      - assert (s = targetId rel) by congruence. subst s.
        rewrite (filter_nil_all _ _ Hnone). apply list_prod_nil_r. }
    rewrite Hp in Hr. rewrite graph_add_no_edges in Hg by exact Hp.
    split; [exact Hg|]. intros r' [= <-]. exact Hr.
  - split; [exact H|]. discriminate.
Qed.

(** The theorem at the store that holds component a only: an edge from a
    to b, which does not exist, is asked for. *)
Lemma X13_missing_target_witness :
  fst (createRelationship Demo.oracle DemoStore.a_contains_b
         (DemoStore.run [InitializeSchema; CreateComponent DemoStore.file_a []]))
  = Ok None.
Proof.
  destruct (X13_createRelationship_without_end_point_does_nothing
              Demo.oracle DemoStore.a_contains_b
              (DemoStore.run [InitializeSchema; CreateComponent DemoStore.file_a []])
              "targetId" DemoStore.id_b) as [_ H].
  - cbn [In]. auto.
  - reflexivity.
  - intros n Hn. vm_compute in Hn.
    repeat (destruct Hn as [<-|Hn]; [vm_compute; reflexivity|]). destruct Hn.
  - destruct (fst (createRelationship Demo.oracle DemoStore.a_contains_b
                     (DemoStore.run [InitializeSchema;
                                     CreateComponent DemoStore.file_a []])))
      as [r|e] eqn:E.
    + rewrite (H r eq_refl). reflexivity.
    + vm_compute in E. discriminate.
Defined.

(** *** Comments *)





(** The Comment nodes that [getNodeComments] finds for a node id, before
    sorting and cutting. *)
Definition comment_rows (g : Graph) (nodeId : value) : list Node :=
  flat_map (fun e =>
    match node_of g (esrc e), node_of g (etgt e) with
    | Some n, Some c =>
        if String.eqb (etype e) "HAS_COMMENT" && has_label "Comment" c
           && cypher_eq (prop "id" n) nodeId
        then [c] else []
    | _, _ => []
    end) (edges g).

Lemma getNodeComments_run nodeId limit w :
  getNodeComments nodeId limit w
  = (Ok (map nprops (firstn limit (order_by timestamp_desc (comment_rows (graph w) nodeId)))),
     w).
Proof. reflexivity. Qed.



Lemma in_firstn {A} n (l : list A) x : In x (firstn n l) -> In x l.
Proof.
  revert n. induction l as [|y l IH]; intros [|n]; cbn [firstn In]; try tauto.
  intros [->|H]; [auto|right; eapply IH; exact H].
Qed.

Lemma Sorted_firstn {A} (R : A -> A -> Prop) n l : Sorted R l -> Sorted R (firstn n l).
Proof.
  revert n. induction l as [|x l IH]; intros [|n] Hs; cbn [firstn]; try constructor.
  - apply IH. inversion Hs; assumption.
  - inversion Hs as [|? ? _ Hhd]; subst.
    destruct l as [|y l]; destruct n as [|n]; cbn [firstn]; constructor.
    inversion Hhd; assumption.
Qed.

Lemma timestamp_desc_total a b : timestamp_desc a b = true \/ timestamp_desc b a = true.
Proof. unfold timestamp_desc. apply cypher_leb_total. Qed.

Lemma comment_rows_inv g nodeId c :
  In c (comment_rows g nodeId) ->
  In c (comments g) /\
  exists e n, In e (edges g) /\ etype e = "HAS_COMMENT" /\
              node_of g (esrc e) = Some n /\ cypher_eq (prop "id" n) nodeId = true /\
              node_of g (etgt e) = Some c.
Proof.
  unfold comment_rows. intros H. apply in_flat_map in H. destruct H as (e & He & H).
  destruct (node_of g (esrc e)) as [n|] eqn:En; [|destruct H].
  destruct (node_of g (etgt e)) as [c'|] eqn:Ec; [|destruct H].
  destruct (String.eqb (etype e) "HAS_COMMENT" && has_label "Comment" c'
            && cypher_eq (prop "id" n) nodeId) eqn:E; [|destruct H].
  destruct H as [<-|[]].
  apply andb_true_iff in E. destruct E as [E E3].
  apply andb_true_iff in E. destruct E as [E1 E2].
  apply String.eqb_eq in E1. split.
  - unfold comments. apply filter_In. split; [|exact E2].
    apply node_of_some in Ec. tauto.
  - exists e, n. auto.
Qed.

(** X15: [getNodeComments] changes nothing and returns at most [limit]
    comments, newest first by their [created] stamp; each of them is a
    Comment node of the graph at the end of a HAS_COMMENT edge that starts
    at a node with the given id. *)
Theorem X15_getNodeComments_newest_first_and_limited nodeId limit w :
  exists cs,
    getNodeComments nodeId limit w = (Ok (map nprops cs), w) /\
    length cs <= limit /\
    Sorted (fun a b => cypher_leb (JsMap.get "created" (nprops b))
                         (JsMap.get "created" (nprops a)) = true) cs /\
    forall c, In c cs ->
      In c (comments (graph w)) /\
      exists e n, In e (edges (graph w)) /\ etype e = "HAS_COMMENT" /\
                  node_of (graph w) (esrc e) = Some n /\
                  cypher_eq (prop "id" n) nodeId = true /\
                  node_of (graph w) (etgt e) = Some c.
Proof.
  exists (firstn limit (order_by timestamp_desc (comment_rows (graph w) nodeId))).
  split; [apply getNodeComments_run|]. split; [|split].
  - rewrite length_firstn. lia.
  - apply Sorted_firstn.
    apply (order_by_sorted timestamp_desc timestamp_desc_total).
  - intros c Hc. apply comment_rows_inv.
    apply (Permutation_in c (order_by_perm timestamp_desc _)).
    eapply in_firstn. exact Hc.
Qed.

(** *** Reading the journal *)

Lemma Forall2_length_le {A B} (R : A -> B -> Prop) l l' n :
  Forall2 R l l' -> length l <= n -> length l' <= n.
Proof. intros H. rewrite (Forall2_length H). auto. Qed.

Lemma decoded_rows parse (p : Node -> bool) k v limit ns l :
  k <> "beforeState" -> k <> "afterState" ->
  (forall c, p c = true -> cypher_eq (prop k c) v = true) ->
  map_result (decode parse) (firstn limit (order_by by_timestamp_desc (filter p ns))) = Ok l ->
  length l <= limit /\
  Forall (fun c => cypher_eq (get_or_null k c) v = true) l.
Proof.
  intros Hb Ha Hp H. apply map_result_Forall2 in H.
  split.
  - apply (Forall2_length_le _ _ _ _ H). rewrite length_firstn. lia.
  - assert (Hall : Forall (fun c => p c = true)
                     (firstn limit (order_by by_timestamp_desc (filter p ns)))).
    { apply Forall_forall. intros c Hc. apply in_firstn in Hc.
      apply (Permutation_in c (order_by_perm by_timestamp_desc _)) in Hc.
      apply filter_In in Hc. tauto. }
    revert Hall. induction H as [|c d cs ds Hd _ IH]; intros Hall; constructor.
    + rewrite (decode_other_fields parse c d k Hd Hb Ha).
      apply Hp. inversion Hall; assumption.
    + apply IH. inversion Hall; assumption.
Qed.

(** X16: the two readers of the journal return at most [limit] entries and
    only entries that were asked for: every entry that [getEntityHistory]
    returns carries the entity id, and every entry that [getRecentChanges]
    returns for a given operation carries that operation.  Neither changes
    the store. *)
Theorem X16_journal_readers_filter_and_limit parse limit w :
  (forall entityId l,
     fst (getEntityHistory parse entityId limit w) = Ok l ->
     length l <= limit /\
     Forall (fun c => cypher_eq (get_or_null "entityId" c) entityId = true) l) /\
  (forall operation l,
     truthy operation = true ->
     fst (getRecentChanges parse limit operation w) = Ok l ->
     length l <= limit /\
     Forall (fun c => cypher_eq (get_or_null "operation" c) operation = true) l) /\
  (forall entityId, snd (getEntityHistory parse entityId limit w) = w) /\
  (forall operation, snd (getRecentChanges parse limit operation w) = w).
Proof.
  split; [|split; [|split]].
  - intros entityId l H.
    unfold getEntityHistory, bind, get_graph, lift in H. cbn [fst snd] in H.
    eapply (decoded_rows parse _ "entityId"); [discriminate|discriminate| |exact H].
    intros c Hc. exact Hc.
  - intros operation l Ht H.
    unfold getRecentChanges, bind, get_graph, lift in H. cbn [fst snd] in H.
    rewrite Ht in H.
    eapply (decoded_rows parse _ "operation"); [discriminate|discriminate| |exact H].
    intros c Hc. exact Hc.
  - intros entityId. reflexivity.
  - intros operation. reflexivity.
Qed.

(** *** Dry runs *)

Lemma restore_entities_counts o snapshot d w r :
  fst (restore_entities o snapshot d w) = Ok r ->
  exists cs ts rs,
    array_of (get_or_null "components" d) = Ok cs /\
    array_of (get_or_null "tasks" d) = Ok ts /\
    array_of (get_or_null "relationships" d) = Ok rs /\
    r = Restored (get_or_null "name" snapshot) (get_or_null "timestamp" snapshot)
          (length cs) (length ts) (length rs).
Proof.
  unfold restore_entities, bind, lift, ret.
  destruct (cypher_detach_delete _ w) as [[u1|e] w1]; [|discriminate].
  destruct (array_of (get_or_null "components" d)) as [cs|e]; [|discriminate].
  destruct (for_each _ cs w1) as [[u2|e] w2]; [|discriminate].
  destruct (array_of (get_or_null "tasks" d)) as [ts|e]; [|discriminate].
  destruct (for_each _ ts w2) as [[u3|e] w3]; [|discriminate].
  destruct (array_of (get_or_null "relationships" d)) as [rs|e]; [|discriminate].
  destruct (for_each _ rs w3) as [[u4|e] w4]; [|discriminate].
  cbn [fst]. intros [= <-]. exists cs, ts, rs. auto.
Qed.

Lemma restoreFromSnapshot_cases o parse sid dry w :
  restoreFromSnapshot o parse sid dry w =
  match find (matches_id "Snapshot" sid) (nodes (graph w)) with
  | None => (Throw (JsError "Snapshot not found"), w)
  | Some s =>
      match snapshot_payload parse (nprops s) with
      | Throw e => (Throw e, w)
      | Ok d =>
          if dry
          then match array_of (get_or_null "components" d),
                     array_of (get_or_null "tasks" d),
                     array_of (get_or_null "relationships" d) with
               | Ok cs, Ok ts, Ok rs =>
                   (Ok (WouldRestore (get_or_null "name" (nprops s))
                          (get_or_null "timestamp" (nprops s))
                          (length cs) (length ts) (length rs)), w)
               | Throw e, _, _ => (Throw e, w)
               | Ok _, Throw e, _ => (Throw e, w)
               | Ok _, Ok _, Throw e => (Throw e, w)
               end
          else restore_entities o (nprops s) d w
      end
  end.
Proof.
  unfold restoreFromSnapshot. unfold bind at 1. unfold get_graph.
  destruct (find _ (nodes (graph w))) as [s|]; [|reflexivity].
  unfold bind at 1. unfold lift at 1.
  destruct (snapshot_payload parse (nprops s)) as [d|e]; [|reflexivity].
  destruct dry; [|reflexivity].
  unfold bind, lift, ret.
  destruct (array_of (get_or_null "components" d)); [|reflexivity].
  destruct (array_of (get_or_null "tasks" d)); [|reflexivity].
  destruct (array_of (get_or_null "relationships" d)); reflexivity.
Qed.

(** X18: a dry run changes nothing.  [restoreFromSnapshot(id, true)] and
    [replayToTimestamp(t, true)] leave the store as it is, whatever they
    return or throw; and the counts that a dry run of a restore announces
    are the counts that the restore itself reports when it returns. *)
Theorem X18_dry_runs_change_nothing_and_announce_the_real_counts o parse w :
  (forall snapshotId, snd (restoreFromSnapshot o parse snapshotId true w) = w) /\
  (forall targetTimestamp, snd (replayToTimestamp o parse targetTimestamp true w) = w) /\
  (forall snapshotId name timestamp c t r name' timestamp' c' t' r',
     fst (restoreFromSnapshot o parse snapshotId true w)
       = Ok (WouldRestore name timestamp c t r) ->
     fst (restoreFromSnapshot o parse snapshotId false w)
       = Ok (Restored name' timestamp' c' t' r') ->
     name = name' /\ timestamp = timestamp' /\ c = c' /\ t = t' /\ r = r').
Proof.
  split; [|split].
  - intros sid. rewrite restoreFromSnapshot_cases.
    destruct (find _ (nodes (graph w))) as [s|]; [|reflexivity].
    destruct (snapshot_payload parse (nprops s)) as [d|e]; [|reflexivity].
    destruct (array_of (get_or_null "components" d)); [|reflexivity].
    destruct (array_of (get_or_null "tasks" d)); [|reflexivity].
    destruct (array_of (get_or_null "relationships" d)); reflexivity.
  - intros T. unfold replayToTimestamp, bind. rewrite getChangesByTimeRange_run.
    unfold lift. destruct (map_result _ _); reflexivity.
  - intros sid name timestamp c t r name' timestamp' c' t' r'.
    rewrite !restoreFromSnapshot_cases.
    destruct (find _ (nodes (graph w))) as [s|]; [|discriminate].
    destruct (snapshot_payload parse (nprops s)) as [d|e]; [|discriminate].
    intros Hdry Hreal. apply restore_entities_counts in Hreal.
    destruct Hreal as (cs & ts & rs & Hcs & Hts & Hrs & Hreal).
    rewrite Hcs, Hts, Hrs in Hdry. cbn [fst] in Hdry.
    injection Hdry as <- <- <- <- <-. injection Hreal as <- <- <- <- <-. auto.
Qed.

(** *** Replay *)

(** The operations that [replayChange] knows. *)
Definition replayed_operations : list string :=
  ["CREATE_COMPONENT"; "UPDATE_COMPONENT"; "DELETE_COMPONENT";
   "CREATE_TASK"; "UPDATE_TASK"; "CREATE_RELATIONSHIP"].

Lemma replayChange_other o change w :
  (forall op, get_or_null "operation" change = VStr op -> ~ In op replayed_operations) ->
  replayChange o change w = (Ok tt, w).
Proof.
  intros H. unfold replayChange.
  destruct (get_or_null "operation" change) as [| | |op| | |]; try reflexivity.
  specialize (H op eq_refl). unfold replayed_operations in H. cbn [In] in H.
  repeat match goal with
         | |- context [match ?x with _ => _ end] =>
             is_var x; destruct x; try reflexivity
         end;
    exfalso; apply H; auto 10.
Qed.

(** X19: [replayChange] does nothing, and raises no error, for an entry
    whose operation is not one of the six it knows; the replay loop then
    logs the entry as replayed.  Entries written with any other operation
    name, such as the CREATE_COMPONENT_BULK entries of [createComponents],
    are therefore skipped by a replay. *)
Theorem X19_replay_skips_the_operations_it_does_not_know o change w :
  (forall op, get_or_null "operation" change = VStr op ->
              ~ In op ["CREATE_COMPONENT"; "UPDATE_COMPONENT"; "DELETE_COMPONENT";
                       "CREATE_TASK"; "UPDATE_TASK"; "CREATE_RELATIONSHIP"]) ->
  replayChange o change w = (Ok tt, w) /\
  replay_one o change w
  = (Ok (ReplayedLine (get_or_null "operation" change)
           (get_or_null "entityType" change) (get_or_null "entityId" change)), w).
Proof.
  intros H. split; [apply replayChange_other; exact H|].
  unfold replay_one, try_catch, bind. rewrite (replayChange_other o change w H).
  reflexivity.
Qed.

(** The theorem at the journal entry that [createComponents] writes for
    component a. *)
Lemma X19_bulk_entry_witness :
  let w := DemoStore.run [CreateComponents [DemoStore.file_a] []] in
  map (prop "operation") (journal (graph w)) = [VStr "CREATE_COMPONENT_BULK"] /\
  forall c, In c (journal (graph w)) -> replayChange Demo.oracle (nprops c) w = (Ok tt, w).
Proof.
  cbv zeta. split; [vm_compute; reflexivity|].
  intros c Hc.
  apply (X19_replay_skips_the_operations_it_does_not_know Demo.oracle (nprops c)
           (DemoStore.run [CreateComponents [DemoStore.file_a] []])).
  intros op Hop. vm_compute in Hc. destruct Hc as [<-|[]].
  vm_compute in Hop. injection Hop as <-.
  cbn [In]. intros H. repeat (destruct H as [H|H]; [discriminate|]). exact H.
Defined.

(** *** recordChange and decode *)

(** X20: what [recordChange] writes is what the readers decode.  When the
    metadata does not carry the two state keys and the call returns, the
    journal has grown by one entry, which holds the returned record; its
    decoding succeeds and gives back the before and the after state that
    were passed (the empty object for a state that is null or otherwise
    falsy) and every other field as it was stored. *)
Theorem X20_recorded_states_are_read_back o parse op ty ei b a md w c :
  JsMap.get "beforeState" md = None ->
  JsMap.get "afterState" md = None ->
  fst (recordChange o op ty ei b a md w) = Ok c ->
  exists n,
    journal (graph (snd (recordChange o op ty ei b a md w))) = journal (graph w) ++ [n] /\
    nprops n = stored c /\
    exists c',
      decode parse n = Ok c' /\
      get_or_null "beforeState" c' = (if truthy b then b else VObj []) /\
      get_or_null "afterState" c' = (if truthy a then a else VObj []) /\
      forall k, k <> "beforeState" -> k <> "afterState" ->
                get_or_null k c' = get_or_null k (stored c).
Proof.
  intros Hb Ha. rewrite recordChange_run. cbv zeta.
  match goal with |- context [violates_unique ?g ?ls ?p] =>
    destruct (violates_unique g ls p) end; cbn [fst snd graph]; [discriminate|].
  intros [= <-].
  set (ce := changeEvent _ _ op ty ei b a md).
  exists (new_node ["ChangeEvent"] ce (graph w)). split; [|split; [reflexivity|]].
  - unfold journal. rewrite filter_label_add_node.
    change (existsb (String.eqb "ChangeEvent") ["ChangeEvent"]) with true. reflexivity.
  - assert (Hgb : get_or_null "beforeState" (stored ce) = VJson (js_or b (VObj []))).
    { subst ce. unfold changeEvent. rewrite get_stored_spread by exact Hb.
      rewrite !get_stored_cons_other by discriminate.
      rewrite get_stored_cons_same by discriminate. reflexivity. }
    assert (Hga : get_or_null "afterState" (stored ce) = VJson (js_or a (VObj []))).
    { subst ce. unfold changeEvent. rewrite get_stored_spread by exact Ha.
      rewrite !get_stored_cons_other by discriminate.
      rewrite get_stored_cons_same by discriminate. reflexivity. }
    unfold decode, parse_state. cbn [nprops new_node]. rewrite Hgb, Hga.
    cbn [truthy JSON_parse]. eexists. split; [reflexivity|].
    unfold get_or_null, js_or.
    split; [|split].
    + rewrite QueueProps.get_set_other by discriminate.
      rewrite QueueProps.get_set_same. reflexivity.
    + rewrite QueueProps.get_set_same. reflexivity.
    + intros k Hkb Hka. rewrite !QueueProps.get_set_other by congruence. reflexivity.
Qed.

(** The theorem at the empty store: an update of component a is recorded
    with both states. *)
Lemma X20_round_trip_witness :
  exists n c',
    journal (graph (snd (recordChange Demo.oracle "UPDATE_COMPONENT" "COMPONENT"
                           (VStr DemoStore.id_a) (VObj DemoStore.file_a)
                           (VObj DemoStore.class_b) [] empty_world))) = [n] /\
    decode DemoStore.parse n = Ok c' /\
    get_or_null "beforeState" c' = VObj DemoStore.file_a /\
    get_or_null "afterState" c' = VObj DemoStore.class_b.
Proof.
  destruct (fst (recordChange Demo.oracle "UPDATE_COMPONENT" "COMPONENT"
                   (VStr DemoStore.id_a) (VObj DemoStore.file_a)
                   (VObj DemoStore.class_b) [] empty_world)) as [c|e] eqn:E;
    [|vm_compute in E; discriminate].
  destruct (X20_recorded_states_are_read_back Demo.oracle DemoStore.parse
              "UPDATE_COMPONENT" "COMPONENT" (VStr DemoStore.id_a)
              (VObj DemoStore.file_a) (VObj DemoStore.class_b) [] empty_world c
              eq_refl eq_refl E) as (n & Hj & _ & c' & Hd & Hb & Ha & _).
  exists n, c'. auto.
Defined.

(** *** The journal only grows *)

(** The journal of [g] starts with the entries [J]. *)
Definition grows_from (J : list Node) (g : Graph) : Prop :=
  WF g /\ exists ces, journal g = J ++ ces.

Lemma journal_add_node ls p g : exists x, journal (add_node ls p g) = journal g ++ x.
Proof. unfold journal. rewrite filter_label_add_node. eauto. Qed.

Lemma journal_set_nodes l i u g :
  WF g -> In l ["Component"; "Task"; "Comment"] ->
  journal (set_nodes (matches_id l i) u g) = journal g.
Proof.
  intros HW Hl. unfold journal, set_nodes. cbn [nodes]. rewrite filter_map_set_node.
  rewrite <- (map_id (filter (has_label "ChangeEvent") (nodes g))) at 2.
  apply map_ext_in. intros n Hn. apply filter_In in Hn. destruct Hn as [Hn Hce].
  unfold set_node. rewrite protected_not_matched; [reflexivity| |exact Hl].
  left. apply (label_of_protected g); [exact HW|exact Hn|cbn [In]; auto|exact Hce].
Qed.

Lemma journal_detach_delete sel g :
  (forall n, In n (nodes g) -> has_label "ChangeEvent" n = true -> sel n = false) ->
  journal (detach_delete sel g) = journal g.
Proof.
  intros H. unfold journal, detach_delete. cbn [nodes].
  apply filter_filter_same_in. intros n Hn Hce. rewrite (H n Hn Hce). reflexivity.
Qed.

Lemma grows_from_stable J : Stable (grows_from J).
Proof.
  pose proof WF_stable as S.
  constructor.
  - intros t p g Ht [HW (ces & HJ)]. split; [apply (st_component WF S); assumption|].
    destruct (journal_add_node ["Component"; t] p g) as [x Hx].
    exists (ces ++ x). rewrite Hx, HJ, app_assoc. reflexivity.
  - intros p g [HW (ces & HJ)]. split; [apply (st_task WF S); assumption|].
    destruct (journal_add_node ["Task"] p g) as [x Hx].
    exists (ces ++ x). rewrite Hx, HJ, app_assoc. reflexivity.
  - intros p g [HW (ces & HJ)]. split; [apply (st_comment WF S); assumption|].
    destruct (journal_add_node ["Comment"] p g) as [x Hx].
    exists (ces ++ x). rewrite Hx, HJ, app_assoc. reflexivity.
  - intros p g [HW (ces & HJ)]. split; [apply (st_change WF S); assumption|].
    destruct (journal_add_node ["ChangeEvent"] p g) as [x Hx].
    exists (ces ++ x). rewrite Hx, HJ, app_assoc. reflexivity.
  - intros p g [HW (ces & HJ)]. split; [apply (st_snapshot WF S); assumption|].
    destruct (journal_add_node ["Snapshot"] p g) as [x Hx].
    exists (ces ++ x). rewrite Hx, HJ, app_assoc. reflexivity.
  - intros l i u g Hl [HW (ces & HJ)]. split; [apply (st_set WF S); assumption|].
    exists ces. rewrite journal_set_nodes; assumption.
  - intros l i g Hl [HW (ces & HJ)]. split; [apply (st_delete WF S); assumption|].
    exists ces. rewrite journal_detach_delete; [exact HJ|].
    intros n Hn Hce. apply protected_not_matched.
    + left. apply (label_of_protected g); [exact HW|exact Hn|cbn [In]; auto|exact Hce].
    + cbn [In] in *. tauto.
  - intros s t ty p g Hty [HW HJ]. split; [apply (st_relationship WF S); assumption|].
    exact HJ.
  - intros i sb p g [HW HJ]. split; [apply (st_relates_to WF S); assumption|exact HJ].
  - intros sa i p g [HW HJ]. split; [apply (st_has_comment WF S); assumption|exact HJ].
  - intros g [HW HJ]. split; [apply (st_schema WF S); assumption|exact HJ].
  - intros g [HW (ces & HJ)]. split; [apply (st_clear_restore WF S); assumption|].
    exists ces. rewrite journal_detach_delete; [exact HJ|].
    intros n _ Hce. unfold clear_for_restore. rewrite Hce. reflexivity.
Qed.

Lemma grows_from_exec J o parse c w :
  grows_from J (graph w) -> grows_from J (graph (exec o parse c w)).
Proof.
  apply stable_exec; [apply grows_from_stable|].
  intros t _ g [HW (ces & HJ)]. split; [apply WF_detach_delete; exact HW|].
  exists ces. rewrite journal_detach_delete; [exact HJ|].
  intros n _ Hce. unfold clear_for_replay. rewrite Hce. reflexivity.
Qed.

(** X21: the journal is append-only.  Whatever calls are made from a state
    the store can reach, a restore and a replay among them, the journal
    afterwards starts with the journal before, entry for entry: no call
    removes, reorders or rewrites a journal entry. *)
Theorem X21_the_journal_is_append_only o parse w cs :
  reachable o parse w ->
  exists ces, journal (graph (exec_all o parse cs w)) = journal (graph w) ++ ces.
Proof.
  intros Hr.
  assert (H : grows_from (journal (graph w)) (graph (exec_all o parse cs w))).
  { assert (H0 : grows_from (journal (graph w)) (graph w)).
    { split; [apply (reachable_WF o parse); exact Hr|].
      exists []. rewrite app_nil_r. reflexivity. }
    clear Hr. revert H0. generalize (journal (graph w)). intros J. revert w.
    induction cs as [|c cs IH]; intros w H0; cbn [exec_all fold_left]; [exact H0|].
    apply IH. apply grows_from_exec. exact H0. }
  exact (proj2 H).
Qed.

(** The theorem at the demo graph, on which a component is updated and
    deleted, the snapshot is restored and the journal replayed. *)
Lemma X21_append_only_witness :
  exists ces,
    journal (graph (exec_all Demo.oracle DemoStore.parse
                      [UpdateComponent (VStr DemoStore.id_a) [("name", VStr "z")];
                       DeleteComponent (VStr DemoStore.id_b);
                       RestoreFromSnapshot DemoStore.snapshot_id false;
                       ReplayToTimestamp "2026-01-01T00:00:00.000Z" false]
                      DemoStore.snapshot_world))
    = journal (graph DemoStore.snapshot_world) ++ ces.
Proof.
  apply (X21_the_journal_is_append_only Demo.oracle DemoStore.parse
           DemoStore.snapshot_world).
  apply reachable_run.
Defined.

(** *** Validation comes first *)

Lemma createComponent_parse_failure o d md w :
  (forall i, exists f, parse_component (JsMap.set "id" i d) = Throw (ZodError f)) ->
  (exists f, fst (createComponent o d md w) = Throw (ZodError f)) /\
  graph (snd (createComponent o d md w)) = graph w.
Proof.
  intros Hparse. unfold createComponent, bind, id_or_uuid, lift.
  destruct (truthy (get_or_null "id" d)); simpl.
  - destruct (Hparse (get_or_null "id" d)) as [f ->]. simpl. eauto.
  - destruct (Hparse (VStr (uuid_at o (ticks w)))) as [f ->]. simpl. eauto.
Qed.

(** [data.id || uuidv4()], and the world after it. *)
Definition chosen_id (o : Oracle) (d : obj) (w : World) : value * World :=
  if truthy (get_or_null "id" d)
  then (get_or_null "id" d, w)
  else (VStr (uuid_at o (ticks w)), {| graph := graph w; ticks := S (ticks w) |}).

Lemma chosen_id_graph o d w : graph (snd (chosen_id o d w)) = graph w.
Proof. unfold chosen_id. destruct (truthy (get_or_null "id" d)); reflexivity. Qed.

Lemma createComponent_cases o d md w :
  createComponent o d md w =
  match parse_component (JsMap.set "id" (fst (chosen_id o d w)) d) with
  | Throw e => (Throw e, snd (chosen_id o d w))
  | Ok c =>
      let w1 := snd (chosen_id o d w) in
      if violates_unique (graph w1) ["Component"; type c] (stored (component_props c))
      then (Throw (Neo4jError "Node already exists with this id"), w1)
      else
        let p := stored (component_props c) in
        match recordChange o "CREATE_COMPONENT" "COMPONENT" (get_or_null "id" p)
                VNull (VObj p) md
                {| graph := add_node ["Component"; type c] (component_props c) (graph w1);
                   ticks := ticks w1 |} with
        | (Ok _, w3) => (Ok p, w3)
        | (Throw e, w3) => (Throw e, w3)
        end
  end.
Proof.
  unfold createComponent, id_or_uuid, bind, chosen_id, lift, uuidv4, ret.
  destruct (truthy (get_or_null "id" d)); cbn [fst snd graph ticks];
    match goal with |- context [parse_component ?x] =>
      destruct (parse_component x) as [c|e] end; try reflexivity;
    unfold cypher_create, bind, get_graph, put_graph, ret; cbn [fst snd graph ticks];
    match goal with |- context [violates_unique ?g ?ls ?p] =>
      destruct (violates_unique g ls p) end; reflexivity.
Qed.

Lemma createComponent_zod_unchanged o d md w f :
  fst (createComponent o d md w) = Throw (ZodError f) ->
  graph (snd (createComponent o d md w)) = graph w.
Proof.
  rewrite createComponent_cases.
  destruct (parse_component _) as [c|e]; [|intros _; apply chosen_id_graph].
  cbv zeta.
  destruct (violates_unique _ _ _); [discriminate|].
  rewrite recordChange_run. cbv zeta.
  match goal with |- context [violates_unique ?g ?ls ?p] =>
    destruct (violates_unique g ls p) end; discriminate.
Qed.

Lemma createTask_cases o d w :
  createTask o d w =
  match parse_task (JsMap.set "id" (fst (chosen_id o d w)) d) with
  | Throw e => (Throw e, snd (chosen_id o d w))
  | Ok t =>
      let w1 := snd (chosen_id o d w) in
      if violates_unique (graph w1) ["Task"] (stored (task_props t))
      then (Throw (Neo4jError "Node already exists with this id"), w1)
      else
        let g2 := add_node ["Task"] (task_props t) (graph w1) in
        (Ok (stored (task_props t)),
         {| graph := match relatedComponentIds t with
                     | [] => g2
                     | ids =>
                         add_edges (matches_id "Task" (VStr (t_id t)))
                           (fun c => has_label "Component" c
                                     && existsb (fun x => cypher_eq (prop "id" c) (VStr x)) ids)
                           "RELATES_TO" [] g2
                     end;
            ticks := ticks w1 |})
  end.
Proof.
  unfold createTask, create_task_row, id_or_uuid, bind, chosen_id, lift, uuidv4, ret.
  destruct (truthy (get_or_null "id" d)); cbn [fst snd graph ticks];
    match goal with |- context [parse_task ?x] =>
      destruct (parse_task x) as [t|e] end; try reflexivity;
    unfold cypher_create, bind, get_graph, put_graph, ret; cbn [fst snd graph ticks];
    match goal with |- context [violates_unique ?g ?ls ?p] =>
      destruct (violates_unique g ls p) end; try reflexivity;
    destruct (relatedComponentIds t); reflexivity.
Qed.

Lemma create_task_zod_unchanged o d w f :
  fst (createTask o d w) = Throw (ZodError f) -> graph (snd (createTask o d w)) = graph w.
Proof.
  rewrite createTask_cases.
  destruct (parse_task _) as [t|e]; [|intros _; apply chosen_id_graph].
  cbv zeta. destruct (violates_unique _ _ _); discriminate.
Qed.

(** X22: the schemas are checked before anything is written.  A
    [createComponent] or [createTask] that throws a ZodError, and a
    [createRelationship] that throws at all, leaves the graph as it was.
    [createComponent] throws a ZodError when the type is missing or is not a
    component type and when the name is missing or empty; [createTask] does
    when the status is missing or is not a task status and when the
    progress is a number outside the interval from 0 to 1. *)
Theorem X22_schemas_are_checked_before_anything_is_written o w :
  (forall d md f, fst (createComponent o d md w) = Throw (ZodError f) ->
                  graph (snd (createComponent o d md w)) = graph w) /\
  (forall d f, fst (createTask o d w) = Throw (ZodError f) ->
               graph (snd (createTask o d w)) = graph w) /\
  (forall d e, fst (createRelationship o d w) = Throw e ->
               graph (snd (createRelationship o d w)) = graph w) /\
  (forall d md,
     (forall s, JsMap.get "type" d = Some (VStr s) -> in_enum ComponentType s = false) \/
     (forall s, JsMap.get "name" d = Some (VStr s) -> s = "") ->
     exists f, fst (createComponent o d md w) = Throw (ZodError f)) /\
  (forall d,
     (forall s, JsMap.get "status" d = Some (VStr s) -> in_enum TaskStatus s = false) \/
     (exists q, JsMap.get "progress" d = Some (VNum q) /\ in_range 0 1 q = false) ->
     exists f, fst (createTask o d w) = Throw (ZodError f)).
Proof.
  split; [|split; [|split; [|split]]].
  - intros d md f. apply createComponent_zod_unchanged.
  - intros d f. apply create_task_zod_unchanged.
  - intros d e He.
    pose proof (triple_run _ _ _ w (createRelationship_shape o d (graph w))) as H.
    destruct (createRelationship o d w) as [[r|e'] w']; [discriminate|exact H].
  - intros d md Hbad. apply createComponent_parse_failure.
    intros i. unfold parse_component.
    assert (Hs : forall k, k <> "id" ->
              JsMap.get k (JsMap.set "id" i d) = JsMap.get k d)
      by (intros k Hk; apply QueueProps.get_set_other; congruence).
    destruct Hbad as [Hty|Hnm].
    + assert (E : req_enum ComponentType "type" (JsMap.set "id" i d) = None).
      { unfold req_enum, req_string. rewrite Hs by discriminate.
        destruct (JsMap.get "type" d) as [[| | |s| | |]|] eqn:Eg; auto.
        rewrite (Hty s eq_refl). reflexivity. }
      rewrite E.
      destruct (req_uuid "id" _), (req_nonempty "name" _), (opt_string "description" _),
        (opt_string "path" _), (opt_string "codebase" _), (record_of_strings "metadata" _);
        eauto.
    + assert (E : req_nonempty "name" (JsMap.set "id" i d) = None).
      { unfold req_nonempty, req_string. rewrite Hs by discriminate.
        destruct (JsMap.get "name" d) as [[| | |s| | |]|] eqn:Eg; auto.
        rewrite (Hnm s eq_refl). reflexivity. }
      rewrite E.
      destruct (req_uuid "id" _), (req_enum ComponentType "type" _),
        (opt_string "description" _), (opt_string "path" _), (opt_string "codebase" _),
        (record_of_strings "metadata" _); eauto.
  - intros d Hbad. destruct (createTask_rejects_invalid o d w Hbad) as [H _]. exact H.
Qed.

(** *** Bulk operations *)

Lemma map_m_length {A B} (f : A -> M B) l : forall w r,
  fst (map_m f l w) = Ok r -> length r = length l.
Proof.
  induction l as [|x l IH]; intros w r; cbn [map_m].
  - unfold ret. cbn. intros [= <-]. reflexivity.
  - unfold bind. destruct (f x w) as [[y|e] w1]; [|discriminate].
    destruct (map_m f l w1) as [[ys|e] w2] eqn:E; [|discriminate].
    unfold ret. cbn. intros [= <-]. cbn [length]. f_equal.
    apply (IH w1). rewrite E. reflexivity.
Qed.

Lemma transaction_outcome {A} (body : M A) w :
  match transaction body w with
  | (Ok a, w') => body w = (Ok a, w')
  | (Throw _, w') => graph w' = graph w
  end.
Proof. unfold transaction. destruct (body w) as [[a|e] w']; reflexivity. Qed.

Lemma bulk_node_step o d J n :
  triple (fun g => journal g = J /\ length (components g) = n)
    (i <- id_or_uuid o d ;;
     component <- lift (parse_component (JsMap.set "id" i d)) ;;
     nd <- cypher_create ["Component"; type component] (component_props component) ;;
     ret (nprops nd))
    (fun _ g => journal g = J /\ length (components g) = S n)
    (fun _ => True).
Proof.
  eapply triple_bind.
  { apply (triple_id_or_uuid _ _ _
       (fun _ g => journal g = J /\ length (components g) = n)). auto. }
  intros i.
  eapply triple_bind.
  { apply (triple_lift _ _
       (fun c g => (journal g = J /\ length (components g) = n) /\
                   parse_component (JsMap.set "id" i d) = Ok c)); auto. }
  intros c.
  eapply triple_bind.
  { apply (triple_create _ _ _
       (fun _ g => journal g = J /\ length (components g) = S n)); [auto|].
    intros g [[HJ Hn] Hc] _.
    pose proof (parse_component_type _ _ Hc) as Ht.
    unfold journal, components in *. rewrite !filter_label_add_node.
    rewrite (component_label_only (type c) "ChangeEvent" Ht) by (cbn [In]; auto).
    rewrite component_label_first, app_nil_r, length_app. cbn [length].
    split; [exact HJ|lia]. }
  intros nd. apply triple_ret. auto.
Qed.

Lemma bulk_nodes o ds : forall J n,
  triple (fun g => journal g = J /\ length (components g) = n)
    (map_m (fun componentData =>
       i <- id_or_uuid o componentData ;;
       component <- lift (parse_component (JsMap.set "id" i componentData)) ;;
       nd <- cypher_create ["Component"; type component] (component_props component) ;;
       ret (nprops nd)) ds)
    (fun r g => journal g = J /\ length (components g) = n + length ds /\
                length r = length ds)
    (fun _ => True).
Proof.
  induction ds as [|d ds IH]; intros J n; cbn [map_m].
  - apply triple_ret. intros g [HJ Hn]. cbn [length]. split; [exact HJ|]. split; [lia|auto].
  - eapply triple_bind; [apply bulk_node_step|]. intros y.
    eapply triple_bind; [apply (IH J (S n))|]. intros ys.
    apply triple_ret. intros g (HJ & Hn & Hl). cbn [length].
    split; [exact HJ|]. split; lia.
Qed.

Lemma bulk_journal o (md : obj -> obj) J n cs : forall k,
  triple (fun g => exists ces, journal g = J ++ ces /\ length ces = k /\
                               length (components g) = n)
    (for_each (fun component =>
       recordChange o "CREATE_COMPONENT_BULK" "COMPONENT"
         (get_or_null "id" component) VNull (VObj component) (md component) ;;;
       ret tt) cs)
    (fun _ g => exists ces, journal g = J ++ ces /\ length ces = k + length cs /\
                            length (components g) = n)
    (fun g => exists ces, journal g = J ++ ces /\ k <= length ces < k + length cs /\
                          length (components g) = n).
Proof.
  induction cs as [|c cs IH]; intros k; cbn [for_each].
  - apply triple_ret. intros g (ces & HJ & Hl & Hn). exists ces. cbn [length].
    split; [exact HJ|]. split; [lia|exact Hn].
  - apply (triple_bind _ _ _
             (fun _ g => exists ces, journal g = J ++ ces /\ length ces = S k /\
                                     length (components g) = n)).
    { eapply triple_bind.
      - apply (triple_recordChange _ _ _ _ _ _ _ _
          (fun _ g => exists ces, journal g = J ++ ces /\ length ces = S k /\
                                  length (components g) = n)).
        + intros g (ces & HJ & Hl & Hn). exists ces. cbn [length].
          split; [exact HJ|]. split; [lia|exact Hn].
        + intros g i t (ces & HJ & Hl & Hn) ce.
          exists (ces ++ [new_node ["ChangeEvent"] ce g]).
          unfold journal, components in *. rewrite !filter_label_add_node.
          change (existsb (String.eqb "ChangeEvent") ["ChangeEvent"]) with true.
          change (existsb (String.eqb "Component") ["ChangeEvent"]) with false.
          rewrite HJ, app_assoc, app_nil_r, length_app. cbn [length].
          split; [reflexivity|]. split; [lia|exact Hn].
      - intros ce. apply triple_ret. intros g H. exact H. }
    intros u.
    eapply triple_conseq; [apply (IH (S k))|auto| |].
    + intros a g (ces & HJ & Hl & Hn). exists ces. cbn [length].
      split; [exact HJ|]. split; [lia|exact Hn].
    + intros g (ces & HJ & Hl & Hn). exists ces. cbn [length].
      split; [exact HJ|]. split; [lia|exact Hn].
Qed.

(** X17: the bulk operations are all-or-nothing on the graph, and only the
    bulk creation of components is journaled.  When [createComponents]
    returns, it returns one component per item, the graph holds that many
    more components and the journal that many more entries; when it
    throws, either the graph is as it was, or all components were created
    and only a part of the journal entries written.  [createTasks] and
    [createRelationships] never touch the journal, and leave the graph as
    it was when they throw. *)
Theorem X17_bulk_operations_are_atomic_and_components_journaled o ds md w :
  match createComponents o ds md w with
  | (Ok created, w') =>
      length created = length ds /\
      length (components (graph w')) = length (components (graph w)) + length ds /\
      exists ces, journal (graph w') = journal (graph w) ++ ces /\
                  length ces = length ds
  | (Throw _, w') =>
      graph w' = graph w \/
      (length (components (graph w')) = length (components (graph w)) + length ds /\
       exists ces, journal (graph w') = journal (graph w) ++ ces /\
                   length ces < length ds)
  end /\
  match createTasks o ds w with
  | (Ok created, w') =>
      length created = length ds /\ journal (graph w') = journal (graph w)
  | (Throw _, w') => graph w' = graph w
  end /\
  match createRelationships o ds w with
  | (Ok created, w') =>
      length created <= length ds /\ journal (graph w') = journal (graph w)
  | (Throw _, w') => graph w' = graph w
  end.
Proof.
  split; [|split].
  - unfold createComponents. unfold bind at 1.
    pose proof (transaction_outcome
                  (map_m (fun componentData =>
                     i <- id_or_uuid o componentData ;;
                     component <- lift (parse_component (JsMap.set "id" i componentData)) ;;
                     nd <- cypher_create ["Component"; type component]
                             (component_props component) ;;
                     ret (nprops nd)) ds) w) as Ht.
    destruct (transaction _ w) as [[created|e] w1]; [|left; exact Ht].
    pose proof (bulk_nodes o ds (journal (graph w)) (length (components (graph w))) w
                  (conj eq_refl eq_refl)) as Hn.
    rewrite Ht in Hn. destruct Hn as (HJ & Hc & Hl).
    unfold bind at 1.
    pose proof (bulk_journal o
                  (fun _ => spread md
                     [("bulkOperation", VBool true);
                      ("totalCount", VNum (inject_Z (Z.of_nat (length created))))])
                  (journal (graph w)) (length (components (graph w)) + length ds)
                  created 0 w1) as Hj.
    cbv beta in Hj.
    destruct (for_each _ created w1) as [[u|e] w2].
    + unfold ret. cbn [fst snd].
      destruct Hj as (ces & HJ2 & Hl2 & Hc2).
      { exists []. rewrite app_nil_r. auto. }
      split; [exact Hl|]. split; [exact Hc2|].
      exists ces. split; [exact HJ2|]. lia.
    + right. destruct Hj as (ces & HJ2 & Hl2 & Hc2).
      { exists []. rewrite app_nil_r. auto. }
      split; [exact Hc2|]. exists ces. split; [exact HJ2|]. lia.
  - unfold createTasks.
    pose proof (transaction_outcome (map_m (create_task_row o) ds) w) as Ht.
    pose proof (keeps_createTasks (fun g => journal g = journal (graph w)) o) as Hk.
    unfold createTasks in Hk.
    destruct (transaction _ w) as [[created|e] w1] eqn:E; [|exact Ht].
    split.
    + apply (map_m_length (create_task_row o) ds w). rewrite Ht. reflexivity.
    + assert (H : journal (graph (snd (transaction (map_m (create_task_row o) ds) w)))
                  = journal (graph w)).
      { apply Hk; [| |reflexivity].
        - intros p g Hg. unfold journal in *. rewrite filter_label_add_node.
          change (existsb (String.eqb "ChangeEvent") ["Task"]) with false.
          rewrite app_nil_r. exact Hg.
        - intros i sb p g Hg. exact Hg. }
      rewrite E in H. exact H.
  - unfold createRelationships. unfold bind.
    pose proof (transaction_outcome (map_m (create_relationship_row o) ds) w) as Ht.
    pose proof (keeps_createRelationships (fun g => journal g = journal (graph w)) o) as Hk.
    unfold createRelationships in Hk.
    assert (H : journal (graph (snd ((rs <- transaction
                    (map_m (create_relationship_row o) ds) ;; ret (somes rs)) w)))
                = journal (graph w)).
    { apply Hk; [|reflexivity]. intros s t ty p g _ Hg. exact Hg. }
    unfold bind in H.
    destruct (transaction _ w) as [[created|e] w1] eqn:E; [|exact Ht].
    unfold ret in *. cbn [fst snd] in *. split; [|exact H].
    pose proof (map_m_length (create_relationship_row o) ds w created) as Hl.
    rewrite Ht in Hl. specialize (Hl eq_refl). rewrite <- Hl.
    clear. unfold somes. induction created as [|[x|] l IH]; cbn; lia.
Qed.

(** *** Deleting a comment *)

Lemma other_kinds_survive_deleteComment g i l :
  WF g -> In l ["Component"; "Task"; "ChangeEvent"; "Snapshot"] ->
  filter (has_label l) (nodes (detach_delete (matches_id "Comment" i) g))
  = filter (has_label l) (nodes g).
Proof.
  intros HW Hl. unfold detach_delete. cbn [nodes].
  apply filter_filter_same_in. intros n Hn Hhas.
  apply negb_true_iff. unfold matches_id.
  assert (E : has_label "Comment" n = false).
  { destruct (has_label "Comment" n) eqn:E; [|reflexivity].
    pose proof (wf_labels g HW n Hn) as Hok.
    destruct Hl as [<- | Hl].
    - rewrite (reserved_not_component n "Comment" Hok) in Hhas;
        [discriminate | cbn [In]; auto | exact E].
    - assert (Hl' : In l ["Task"; "Comment"; "ChangeEvent"; "Snapshot"])
        by (cbn [In] in *; tauto).
      pose proof (has_label_reserved n l Hok Hl' Hhas) as Hls.
      unfold has_label in E. rewrite Hls in E. cbn [In] in Hl.
      destruct Hl as [<- | [<- | [<- | []]]]; vm_compute in E; discriminate E. }
  rewrite E. reflexivity.
Qed.

Lemma detach_delete_nothing sel g :
  (forall n, In n (nodes g) -> sel n = false) -> detach_delete sel g = g.
Proof.
  intros H. unfold detach_delete.
  assert (Hf : filter sel (nodes g) = []).
  { apply filter_nil_all. exact H. }
  rewrite Hf. cbn [map existsb orb negb].
  rewrite (filter_all (fun _ : Edge => true)) by reflexivity.
  assert (Hn : filter (fun n => negb (sel n)) (nodes g) = nodes g).
  { generalize H. generalize (nodes g). intros l. induction l as [|x l IH];
      intros Hl; cbn [filter]; [reflexivity|].
    rewrite (Hl x) by (left; reflexivity). cbn [negb]. rewrite IH; [reflexivity|].
    intros y Hy. apply Hl. right. exact Hy. }
  rewrite Hn. destruct g; reflexivity.
Qed.

(** X29: [deleteComment] always returns true.  It removes the comments
    with the given id and the edges at them, and nothing else: afterwards
    no listing of [getNodeComments] shows a comment with that id and
    [updateComment] finds nothing to update, while the components, tasks,
    journal and snapshots are as they were.  When no comment has the id,
    the graph is left as it is. *)
Theorem X29_deleteComment_removes_the_comment_only o parse commentId w :
  reachable o parse w ->
  let w' := snd (deleteComment commentId w) in
  fst (deleteComment commentId w) = Ok true /\
  (forall n, In n (nodes (graph w')) <->
             In n (nodes (graph w)) /\ matches_id "Comment" commentId n = false) /\
  (forall e, In e (edges (graph w')) -> In e (edges (graph w))) /\
  (forall nodeId limit rows,
     fst (getNodeComments nodeId limit w') = Ok rows ->
     forall r, In r rows -> cypher_eq (get_or_null "id" r) commentId = false) /\
  (forall o' updates,
     fst (updateComment o' commentId updates w') = Ok None /\
     graph (snd (updateComment o' commentId updates w')) = graph w') /\
  components (graph w') = components (graph w) /\
  tasks (graph w') = tasks (graph w) /\
  journal (graph w') = journal (graph w) /\
  snapshots (graph w') = snapshots (graph w) /\
  ((forall n, In n (comments (graph w)) ->
              cypher_eq (prop "id" n) commentId = false) ->
   graph w' = graph w).
Proof.
  intros Hr. pose proof (reachable_WF o parse w Hr) as HW. cbv zeta.
  unfold deleteComment, cypher_detach_delete, bind, get_graph, put_graph, ret.
  cbn [fst snd graph].
  set (g' := detach_delete (matches_id "Comment" commentId) (graph w)).
  assert (Hnodes : forall n, In n (nodes g') <->
            In n (nodes (graph w)) /\ matches_id "Comment" commentId n = false).
  { intros n. subst g'. unfold detach_delete. cbn [nodes]. rewrite filter_In.
    rewrite negb_true_iff. tauto. }
  split; [reflexivity|]. split; [exact Hnodes|]. split; [|split; [|split]].
  - intros e He. subst g'. unfold detach_delete in He. cbn [edges] in He.
    apply filter_In in He. tauto.
  - intros nodeId limit rows. rewrite getNodeComments_run. cbn [fst graph].
    intros [= <-] r Hin. apply in_map_iff in Hin. destruct Hin as (c & <- & Hc).
    apply in_firstn in Hc.
    apply (Permutation_in c (order_by_perm timestamp_desc _)) in Hc.
    apply comment_rows_inv in Hc. destruct Hc as (Hc & _).
    unfold comments in Hc. apply filter_In in Hc. destruct Hc as (Hc & Hl).
    apply Hnodes in Hc. destruct Hc as (_ & Hm). unfold matches_id in Hm.
    rewrite Hl in Hm. exact Hm.
  - intros o' updates.
    unfold updateComment, cypher_set, toISOString_now, bind, get_graph, put_graph, ret.
    cbn [fst snd graph].
    assert (Hf : filter (matches_id "Comment" commentId) (nodes g') = []).
    { apply filter_nil_all. intros n Hn. apply Hnodes in Hn. tauto. }
    rewrite Hf. split; [reflexivity|].
    unfold set_nodes.
    assert (Hm : forall u, map (set_node (matches_id "Comment" commentId) u) (nodes g')
                 = nodes g').
    { intros u. rewrite <- (map_id (nodes g')) at 2. apply map_ext_in.
      intros n Hn. unfold set_node. apply Hnodes in Hn. destruct Hn as (_ & ->).
      reflexivity. }
    rewrite Hm. destruct g'; reflexivity.
  - unfold components, tasks, journal, snapshots. subst g'.
    rewrite !other_kinds_survive_deleteComment by (try exact HW; cbn [In]; auto).
    repeat (split; [reflexivity|]).
    intros Hno. apply detach_delete_nothing. intros n Hn. unfold matches_id.
    destruct (has_label "Comment" n) eqn:E; [|reflexivity]. cbn [andb].
    apply Hno. unfold comments. apply filter_In. now split.
Qed.

(** The theorem at the demo graph, whose comment is deleted. *)
Lemma X29_delete_comment_witness :
  components (graph (snd (deleteComment
     (hd VNull (map (prop "id") (comments (graph DemoStore.small_world))))
     DemoStore.small_world)))
  = components (graph DemoStore.small_world).
Proof.
  pose proof (X29_deleteComment_removes_the_comment_only
                Demo.oracle DemoStore.parse
                (hd VNull (map (prop "id") (comments (graph DemoStore.small_world))))
                DemoStore.small_world (reachable_run _)) as H.
  cbv zeta in H. destruct H as (_ & _ & _ & _ & _ & H & _). exact H.
Defined.

End StoreProps.
